(** * use-nemo: scope resolver, text mutators and directive registry

    A shallow embedding of [use-nemo/helpers.ts] and of the directive
    registry, together with the part of the JavaScript runtime these
    functions rely on: strings as sequences of UTF-16 code units, the
    [RegExp] constructor (pattern parser), the backtracking matcher of the
    ECMAScript specification, [RegExp.prototype.exec], [String.prototype.match],
    [String.prototype.replace] and the property lookup of ordinary objects. *)

From Stdlib Require Import NArith ZArith Bool Lia String Ascii.
From stdpp Require Import base option list gmap.

Local Open Scope nat_scope.

(** ** JavaScript strings *)

(** A JavaScript string is a sequence of UTF-16 code units. *)
Abbreviation char := N (only parsing).
Abbreviation jsstring := (list N) (only parsing).

(** [js "abc"] is the JavaScript string with the code units of an ASCII
    literal. *)
Definition js (s : string) : jsstring :=
  map N_of_ascii (list_ascii_of_string s).

(** The double quote, which cannot be written inside a literal. *)
Definition dq : jsstring := [34%N].

Definition ch_lbrace : char := 123%N.
Definition ch_rbrace : char := 125%N.
Definition ch_dquote : char := 34%N.
Definition ch_squote : char := 39%N.
Definition ch_backtick : char := 96%N.
Definition ch_backslash : char := 92%N.
Definition ch_newline : char := 10%N.

Definition in_range (lo hi c : N) : bool := (lo <=? c)%N && (c <=? hi)%N.

(** WhiteSpace and LineTerminator code points of ECMAScript: the set used by
    [\s] and by [String.prototype.trim]. *)
Definition is_space (c : char) : bool :=
  in_range 9 13 c || (c =? 32)%N || (c =? 160)%N || (c =? 5760)%N
  || in_range 8192 8202 c || (c =? 8232)%N || (c =? 8233)%N
  || (c =? 8239)%N || (c =? 8287)%N || (c =? 12288)%N || (c =? 65279)%N.

(** [\w]: ASCII letters, digits and underscore. *)
Definition is_word (c : char) : bool :=
  in_range 97 122 c || in_range 65 90 c || in_range 48 57 c || (c =? 95)%N.

Definition is_digit (c : char) : bool := in_range 48 57 c.

(** LineTerminator, which [.] does not match. *)
Definition is_line_terminator (c : char) : bool :=
  (c =? 10)%N || (c =? 13)%N || (c =? 8232)%N || (c =? 8233)%N.

(** [s.substring(a, b)]: both ends are clamped to the length and swapped when
    out of order. *)
Definition substring (s : jsstring) (a b : nat) : jsstring :=
  let a' := a `min` length s in
  let b' := b `min` length s in
  take (a' `max` b' - a' `min` b') (drop (a' `min` b') s).

Fixpoint trimStart (s : jsstring) : jsstring :=
  match s with
  | c :: s' => if is_space c then trimStart s' else s
  | [] => []
  end.

(** [s.trim()]: white space and line terminators removed from both ends. *)
Definition trim (s : jsstring) : jsstring :=
  reverse (trimStart (reverse (trimStart s))).

Fixpoint jsstring_eqb (a b : jsstring) : bool :=
  match a, b with
  | [], [] => true
  | x :: a', y :: b' => (x =? y)%N && jsstring_eqb a' b'
  | _, _ => false
  end.

(** [s.startsWith(p)] at offset 0. *)
Fixpoint startsWith (s p : jsstring) {struct p} : bool :=
  match p, s with
  | [], _ => true
  | x :: p', y :: s' => (x =? y)%N && startsWith s' p'
  | _ :: _, [] => false
  end.

(** [code.includes(search)]: [search] occurs at some offset of [code]. *)
Fixpoint includes (code search : jsstring) : bool :=
  startsWith code search ||
  match code with
  | [] => false
  | _ :: rest => includes rest search
  end.

(** ** Completions *)

Inductive exn : Type := SyntaxError.

(** The outcome of a call that may throw.  [Unmodelled] marks a pattern
    outside the fragment of the regular expression syntax embedded here. *)
Inductive completion (A : Type) : Type :=
| Normal (a : A)
| Throw (e : exn)
| Unmodelled.
Arguments Normal {A} a.
Arguments Throw {A} e.
Arguments Unmodelled {A}.

Definition cbind {A B} (c : completion A) (f : A -> completion B) : completion B :=
  match c with
  | Normal a => f a
  | Throw e => Throw e
  | Unmodelled => Unmodelled
  end.

#[global] Instance completion_bind : MBind completion :=
  fun A B f c => cbind c f.
#[global] Instance completion_ret : MRet completion :=
  fun A a => Normal a.

(** ** Regular expressions: abstract syntax *)

Inductive class_item : Type :=
| CChar (c : char)
| CRange (lo hi : char)
| CSpace (neg : bool)
| CWord (neg : bool)
| CDigit (neg : bool).

Inductive quant : Type := QStar | QPlus | QOpt.

Inductive regex : Type :=
| REmpty
| RChar (c : char)
| RDot
| RClass (neg : bool) (items : list class_item)
| RAssertStart
| RAssertEnd
| RWordBoundary (neg : bool)
| RSeq (r1 r2 : regex)
| RAlt (r1 r2 : regex)
| RGroup (idx : nat) (r : regex)
| RLook (neg : bool) (r : regex)
| RQuant (q : quant) (greedy : bool) (r : regex).

(** Indices of the capturing groups inside a pattern. *)
Fixpoint groups (r : regex) : list nat :=
  match r with
  | RSeq r1 r2 | RAlt r1 r2 => groups r1 ++ groups r2
  | RGroup i r' => i :: groups r'
  | RLook _ r' | RQuant _ _ r' => groups r'
  | _ => []
  end.

(** ** The matcher (ECMAScript 22.2.2, continuation-passing) *)

Record mstate : Type := MState {
  epos : nat;
  captures : list (nat * (nat * nat))
}.

Definition cont : Type := mstate -> option mstate.

Definition item_matches (c : char) (it : class_item) : bool :=
  match it with
  | CChar c' => (c =? c')%N
  | CRange lo hi => in_range lo hi c
  | CSpace neg => xorb neg (is_space c)
  | CWord neg => xorb neg (is_word c)
  | CDigit neg => xorb neg (is_digit c)
  end.

Definition class_matches (neg : bool) (items : list class_item) (c : char) : bool :=
  xorb neg (existsb (item_matches c) items).

(** CharacterSetMatcher: consume one code unit satisfying [p]. *)
Definition char_step (str : jsstring) (p : char -> bool) (x : mstate) (c : cont)
  : option mstate :=
  match str !! epos x with
  | Some ch => if p ch then c (MState (S (epos x)) (captures x)) else None
  | None => None
  end.

Definition is_word_at (str : jsstring) (e : nat) : bool :=
  match str !! e with Some ch => is_word ch | None => false end.

Definition at_word_boundary (str : jsstring) (e : nat) : bool :=
  xorb (match e with 0 => false | S e' => is_word_at str e' end) (is_word_at str e).

Definition set_capture (i s e : nat) (x : mstate) : mstate :=
  MState (epos x) ((i, (s, e)) :: captures x).

Definition reset_captures (gs : list nat) (x : mstate) : mstate :=
  MState (epos x)
    (List.filter (fun p => negb (existsb (Nat.eqb (fst p)) gs)) (captures x)).

Definition orelse (a : option mstate) (b : unit -> option mstate) : option mstate :=
  match a with Some z => Some z | None => b tt end.

(** RepeatMatcher with [min = 0] and [max = infinity].  Every iteration after
    the first call has to consume input (step 2.a), so [S (length str - e)]
    iterations of fuel are never used up from a state at [e]. *)
Fixpoint repeat_star (body : mstate -> cont -> option mstate) (gs : list nat)
    (greedy : bool) (fuel : nat) (x : mstate) (c : cont) : option mstate :=
  match fuel with
  | 0 => None
  | S fuel' =>
    let d := fun y => if epos y =? epos x then None
                      else repeat_star body gs greedy fuel' y c in
    if greedy then orelse (body (reset_captures gs x) d) (fun _ => c x)
    else orelse (c x) (fun _ => body (reset_captures gs x) d)
  end.

Fixpoint m (str : jsstring) (r : regex) (x : mstate) (c : cont) {struct r}
  : option mstate :=
  match r with
  | REmpty => c x
  | RChar ch => char_step str (N.eqb ch) x c
  | RDot => char_step str (fun ch => negb (is_line_terminator ch)) x c
  | RClass neg items => char_step str (class_matches neg items) x c
  | RAssertStart => if epos x =? 0 then c x else None
  | RAssertEnd => if epos x =? length str then c x else None
  | RWordBoundary neg =>
    if xorb neg (at_word_boundary str (epos x)) then c x else None
  | RSeq r1 r2 => m str r1 x (fun y => m str r2 y c)
  | RAlt r1 r2 => orelse (m str r1 x c) (fun _ => m str r2 x c)
  | RGroup i r' =>
    m str r' x (fun y => c (set_capture i (epos x) (epos y) y))
  | RLook neg r' =>
    match m str r' x Some with
    | Some y => if neg then None else c (MState (epos x) (captures y))
    | None => if neg then c x else None
    end
  | RQuant q greedy r' =>
    let fuel := S (length str - epos x) in
    match q with
    | QStar => repeat_star (m str r') (groups r') greedy fuel x c
    | QPlus =>
      m str r' (reset_captures (groups r') x)
        (fun y => repeat_star (m str r') (groups r') greedy
                    (S (length str - epos y)) y c)
    | QOpt =>
      let d := fun y => if epos y =? epos x then None else c y in
      if greedy then orelse (m str r' (reset_captures (groups r') x) d) (fun _ => c x)
      else orelse (c x) (fun _ => m str r' (reset_captures (groups r') x) d)
    end
  end.

(** The result of a successful match: where it starts and the final state. *)
Record rmatch : Type := RMatch {
  index : nat;
  final : mstate
}.

(** Try the start offsets [i], [i+1], ... up to the end of the string. *)
Fixpoint search (r : regex) (str : jsstring) (fuel : nat) (i : nat) : option rmatch :=
  match fuel with
  | 0 => None
  | S fuel' =>
    match m str r (MState i []) Some with
    | Some y => Some (RMatch i y)
    | None => search r str fuel' (S i)
    end
  end.

(** RegExpBuiltinExec from [lastIndex] (not sticky). *)
Definition regExpExec (r : regex) (str : jsstring) (lastIndex : nat) : option rmatch :=
  if length str <? lastIndex then None
  else search r str (S (length str - lastIndex)) lastIndex.

Definition capture_span (y : mstate) (i : nat) : option (nat * nat) :=
  snd <$> List.find (fun p => fst p =? i) (captures y).

(** The captured substring of group [i], [None] when the group did not
    participate (JavaScript [undefined]). *)
Definition capture (str : jsstring) (mt : rmatch) (i : nat) : option jsstring :=
  (fun se => substring str (fst se) (snd se)) <$> capture_span (final mt) i.

Definition matched (str : jsstring) (mt : rmatch) : jsstring :=
  substring str (index mt) (epos (final mt)).

(** ** The [RegExp] constructor: pattern syntax (ECMAScript 22.2.1 with Annex B,
    no [u]/[v] flag)

    The pattern is read left to right with a stack of the groups that are
    still open.  Syntax that is recognised but not embedded (braced
    quantifiers, back-references, named groups, look-behind, hexadecimal and
    control escapes, quantified look-aheads, class ranges ending in an escape)
    gives [Unmodelled]. *)

Inductive term : Type :=
| TAtom (r : regex)              (* an atom: may take a quantifier *)
| TQuant (q : quant) (r : regex) (* greedy quantifier: a following ? makes it lazy *)
| TFixed (r : regex)             (* assertion or lazy quantifier: nothing to repeat *)
| TLook (r : regex).             (* look-ahead *)

Inductive gkind : Type :=
| GCapture (i : nat)
| GNonCapture
| GLook (neg : bool).

Record pstate : Type := PState {
  pstack : list (gkind * list regex * list term); (* enclosing groups *)
  palts : list regex;                             (* finished alternatives, reversed *)
  pcur : list term;                               (* current alternative, reversed *)
  pgroups : nat;                                  (* capturing groups opened so far *)
  pclass : option (bool * list class_item)        (* inside [ ... ] *)
}.

Definition term_regex (t : term) : regex :=
  match t with
  | TAtom r => r
  | TQuant q r => RQuant q true r
  | TFixed r => r
  | TLook r => r
  end.

Definition build_seq (cur : list term) : regex :=
  foldr RSeq REmpty (map term_regex (reverse cur)).

Definition build (alts : list regex) (cur : list term) : regex :=
  fold_left (fun acc a => RAlt a acc) alts (build_seq cur).

Definition wrap_group (k : gkind) (r : regex) : term :=
  match k with
  | GCapture i => TAtom (RGroup i r)
  | GNonCapture => TAtom r
  | GLook neg => TLook (RLook neg r)
  end.

Definition push_term (t : term) (st : pstate) : pstate :=
  PState (pstack st) (palts st) (t :: pcur st) (pgroups st) (pclass st).

Definition open_group (capturing : bool) (k : gkind) (st : pstate) : pstate :=
  PState ((k, palts st, pcur st) :: pstack st) [] []
         (if capturing then S (pgroups st) else pgroups st) None.

Definition close_group (st : pstate) : completion pstate :=
  match pstack st with
  | [] => Throw SyntaxError
  | (k, alts, cur) :: stack' =>
    Normal (PState stack' alts (wrap_group k (build (palts st) (pcur st)) :: cur)
                   (pgroups st) None)
  end.

Definition new_alternative (st : pstate) : pstate :=
  PState (pstack st) (build_seq (pcur st) :: palts st) [] (pgroups st) None.

Definition quantify (q : quant) (st : pstate) : completion pstate :=
  match pcur st with
  | TAtom r :: cur' =>
    Normal (PState (pstack st) (palts st) (TQuant q r :: cur') (pgroups st) None)
  | TQuant q' r :: cur' =>
    match q with
    | QOpt => Normal (PState (pstack st) (palts st)
                             (TFixed (RQuant q' false r) :: cur') (pgroups st) None)
    | _ => Throw SyntaxError
    end
  | TLook _ :: _ => Unmodelled
  | _ => Throw SyntaxError
  end.

Definition open_class (neg : bool) (st : pstate) : pstate :=
  PState (pstack st) (palts st) (pcur st) (pgroups st) (Some (neg, [])).

Definition add_item (it : class_item) (st : pstate) : pstate :=
  match pclass st with
  | Some (neg, items) =>
    PState (pstack st) (palts st) (pcur st) (pgroups st) (Some (neg, it :: items))
  | None => st
  end.

Definition close_class (st : pstate) : pstate :=
  match pclass st with
  | Some (neg, items) =>
    PState (pstack st) (palts st) (TAtom (RClass neg (reverse items)) :: pcur st)
           (pgroups st) None
  | None => st
  end.

(** ASCII punctuation, the identity escapes embedded here. *)
Definition is_punct (c : char) : bool :=
  in_range 33 47 c || in_range 58 64 c || in_range 91 96 c || in_range 123 126 c.

Definition control_escape (e : char) : option char :=
  if (e =? 102)%N then Some 12%N       (* \f *)
  else if (e =? 110)%N then Some 10%N  (* \n *)
  else if (e =? 114)%N then Some 13%N  (* \r *)
  else if (e =? 116)%N then Some 9%N   (* \t *)
  else if (e =? 118)%N then Some 11%N  (* \v *)
  else if is_punct e then Some e
  else None.

Definition class_escape_item (e : char) : option class_item :=
  if (e =? 100)%N then Some (CDigit false)      (* \d *)
  else if (e =? 68)%N then Some (CDigit true)   (* \D *)
  else if (e =? 115)%N then Some (CSpace false) (* \s *)
  else if (e =? 83)%N then Some (CSpace true)   (* \S *)
  else if (e =? 119)%N then Some (CWord false)  (* \w *)
  else if (e =? 87)%N then Some (CWord true)    (* \W *)
  else None.

(** An escape outside a class. *)
Definition atom_escape (e : char) : option term :=
  match class_escape_item e with
  | Some it => Some (TAtom (RClass false [it]))
  | None =>
    if (e =? 98)%N then Some (TFixed (RWordBoundary false))     (* \b *)
    else if (e =? 66)%N then Some (TFixed (RWordBoundary true)) (* \B *)
    else TAtom ∘ RChar <$> control_escape e
  end.

(** An escape inside a class; [\b] is the backspace there. *)
Definition class_escape (e : char) : option class_item :=
  match class_escape_item e with
  | Some it => Some it
  | None =>
    if (e =? 98)%N then Some (CChar 8%N)
    else CChar <$> control_escape e
  end.

(** [-x] with [x] other than the closing bracket: the start of a range. *)
Definition starts_range (rest : list N) : bool :=
  match rest with
  | d :: x :: _ => (d =? 45)%N && negb (x =? 93)%N
  | _ => false
  end.

Fixpoint parse (input : list N) (st : pstate) {struct input} : completion regex :=
  match pclass st with
  | Some _ =>
    match input with
    | [] => Throw SyntaxError                        (* unterminated class *)
    | c :: rest =>
      if (c =? 93)%N then parse rest (close_class st)
      else if (c =? 92)%N then
        match rest with
        | [] => Throw SyntaxError                    (* \ at end of pattern *)
        | e :: rest' =>
          match class_escape e with
          | Some it =>
            if starts_range rest' then Unmodelled
            else parse rest' (add_item it st)
          | None => Unmodelled
          end
        end
      else
        match rest with
        | d :: x :: rest' =>
          if (d =? 45)%N && negb (x =? 93)%N then
            if (x =? 92)%N then Unmodelled
            else if (c <=? x)%N then parse rest' (add_item (CRange c x) st)
            else Throw SyntaxError                   (* range out of order *)
          else parse rest (add_item (CChar c) st)
        | _ => parse rest (add_item (CChar c) st)
        end
    end
  | None =>
    match input with
    | [] =>
      match pstack st with
      | [] => Normal (build (palts st) (pcur st))
      | _ :: _ => Throw SyntaxError                  (* unterminated group *)
      end
    | c :: rest =>
      if (c =? 92)%N then                            (* \ *)
        match rest with
        | [] => Throw SyntaxError
        | e :: rest' =>
          match atom_escape e with
          | Some t => parse rest' (push_term t st)
          | None => Unmodelled
          end
        end
      else if (c =? 40)%N then                       (* ( *)
        match rest with
        | q :: rest' =>
          if (q =? 63)%N then                        (* (? *)
            match rest' with
            | k :: rest'' =>
              if (k =? 58)%N then parse rest'' (open_group false GNonCapture st)
              else if (k =? 61)%N then parse rest'' (open_group false (GLook false) st)
              else if (k =? 33)%N then parse rest'' (open_group false (GLook true) st)
              else Unmodelled
            | [] => Throw SyntaxError
            end
          else parse rest (open_group true (GCapture (S (pgroups st))) st)
        | [] => parse rest (open_group true (GCapture (S (pgroups st))) st)
        end
      else if (c =? 41)%N then                       (* ) *)
        match close_group st with
        | Normal st' => parse rest st'
        | Throw e => Throw e
        | Unmodelled => Unmodelled
        end
      else if (c =? 124)%N then parse rest (new_alternative st)   (* | *)
      else if (c =? 42)%N || (c =? 43)%N || (c =? 63)%N then      (* * + ? *)
        match quantify (if (c =? 42)%N then QStar
                        else if (c =? 43)%N then QPlus else QOpt) st with
        | Normal st' => parse rest st'
        | Throw e => Throw e
        | Unmodelled => Unmodelled
        end
      else if (c =? 123)%N then                      (* { *)
        match rest with
        | x :: _ =>
          if is_digit x then Unmodelled              (* braced quantifier *)
          else parse rest (push_term (TAtom (RChar c)) st)
        | [] => parse rest (push_term (TAtom (RChar c)) st)
        end
      else if (c =? 91)%N then                       (* [ *)
        match rest with
        | x :: rest' =>
          if (x =? 94)%N then parse rest' (open_class true st)
          else parse rest (open_class false st)
        | [] => parse rest (open_class false st)
        end
      else if (c =? 46)%N then parse rest (push_term (TAtom RDot) st)
      else if (c =? 94)%N then parse rest (push_term (TFixed RAssertStart) st)
      else if (c =? 36)%N then parse rest (push_term (TFixed RAssertEnd) st)
      else parse rest (push_term (TAtom (RChar c)) st)
    end
  end.

(** [new RegExp(source)] (the flags only select how the pattern is used). *)
Definition RegExp (source : jsstring) : completion regex :=
  parse source (PState [] [] [] 0 None).

(** A regular expression literal of the program text. *)
Definition regexLiteral (source : jsstring) : regex :=
  match RegExp source with
  | Normal r => r
  | _ => REmpty
  end.

(** ** Scope resolver ([helpers.ts], lines 13-143) *)

Record DirectiveScope : Type := Scope {
  functionName : jsstring;
  functionCode : jsstring;
  startIndex : nat;
  endIndex : nat
}.

(** The pattern built by [new RegExp(`"use\\s+${directiveName}"`, "g")]. *)
Definition directivePattern (directiveName : jsstring) : completion regex :=
  RegExp (dq ++ js "use\s+" ++ directiveName ++ dq).

(** The backward loop of [findFunctionScopeAtIndex]: [n] is [i + 1], the
    result is [functionStartIndex] ([None] for [-1]). *)
Fixpoint scanBackward (code : jsstring) (n : nat) (braceCount : Z) : option nat :=
  match n with
  | 0 => None
  | S i =>
    let braceCount1 :=
      if bool_decide (code !! i = Some ch_rbrace) then (braceCount + 1)%Z
      else braceCount in
    if bool_decide (code !! i = Some ch_lbrace) then
      let braceCount2 := (braceCount1 - 1)%Z in
      if (braceCount2 <? 0)%Z then Some i
      else scanBackward code i braceCount2
    else scanBackward code i braceCount1
  end.

Definition functionNamePattern : regex :=
  regexLiteral (js "(?:function|const)\s+([A-Za-z_$][A-Za-z0-9_$]*)\s*(?:\(|=)").

(** The state of the forward loop. *)
Record fwd : Type := Fwd {
  closingBraceIndex : nat;
  braceCount : Z;
  inString : bool;
  stringChar : option char
}.

Definition is_quote (c : char) : bool :=
  (c =? ch_dquote)%N || (c =? ch_squote)%N || (c =? ch_backtick)%N.

(** One iteration of the [while] loop on the code unit [char]. *)
Definition forwardStep (code : jsstring) (char : char) (s : fwd) : fwd :=
  let '(inString1, stringChar1) :=
    if negb (inString s) && is_quote char then (true, Some char)
    else if inString s
            && bool_decide (Some char = stringChar s)
            && negb (bool_decide (code !! (closingBraceIndex s - 1) = Some ch_backslash))
         then (false, stringChar s)
         else (inString s, stringChar s) in
  let braceCount1 :=
    if negb inString1 then
      let b := if (char =? ch_lbrace)%N then (braceCount s + 1)%Z else braceCount s in
      if (char =? ch_rbrace)%N then (b - 1)%Z else b
    else braceCount s in
  Fwd (S (closingBraceIndex s)) braceCount1 inString1 stringChar1.

(** [while (closingBraceIndex < code.length && braceCount > 0)]. *)
Fixpoint scanForward (code : jsstring) (fuel : nat) (s : fwd) : fwd :=
  match fuel with
  | 0 => s
  | S fuel' =>
    match code !! closingBraceIndex s with
    | Some char =>
      if (0 <? braceCount s)%Z then scanForward code fuel' (forwardStep code char s)
      else s
    | None => s
    end
  end.

Definition findFunctionScopeAtIndex (code : jsstring) (directiveIndex : nat)
  : option DirectiveScope :=
  match scanBackward code directiveIndex 0 with
  | None => None
  | Some functionStartIndex =>
    let beforeBrace := substring code 0 functionStartIndex in
    match regExpExec functionNamePattern beforeBrace 0 with
    | None => None
    | Some functionNameMatch =>
      let functionName :=
        default [] (capture beforeBrace functionNameMatch 1) in
      let s := scanForward code (length code)
                 (Fwd (functionStartIndex + 1) 1 false None) in
      Some (Scope functionName
                  (substring code functionStartIndex (closingBraceIndex s))
                  functionStartIndex
                  (closingBraceIndex s))
    end
  end.

Definition getDirectiveScope (code directiveName : jsstring)
  : completion (option DirectiveScope) :=
  directivePattern ← directivePattern directiveName;
  match regExpExec directivePattern code 0 with
  | None => Normal None
  | Some directiveMatch =>
    Normal (findFunctionScopeAtIndex code (index directiveMatch))
  end.

Definition globalScope (code : jsstring) : DirectiveScope :=
  Scope (js "global") code 0 (length code).

(** The [while ((match = directivePattern.exec(code)) !== null)] loop; the
    pattern is global, so [exec] resumes at [lastIndex], the end of the
    previous match.  [None]: the fuel ran out. *)
Fixpoint allScopesLoop (r : regex) (code : jsstring) (fuel : nat)
    (lastIndex : nat) (scopes : list DirectiveScope) : option (list DirectiveScope) :=
  match fuel with
  | 0 => None
  | S fuel' =>
    match regExpExec r code lastIndex with
    | None => Some scopes
    | Some mt =>
      if (index mt =? 0) || jsstring_eqb (trim (substring code 0 (index mt))) []
      then Some [globalScope code]
      else
        let scopes' :=
          match findFunctionScopeAtIndex code (index mt) with
          | Some scope => scopes ++ [scope]
          | None => scopes
          end in
        allScopesLoop r code fuel' (epos (final mt)) scopes'
    end
  end.

Definition getAllDirectiveScopes (fuel : nat) (code directiveName : jsstring)
  : completion (option (list DirectiveScope)) :=
  directivePattern ← directivePattern directiveName;
  Normal (allScopesLoop directivePattern code fuel 0 []).


(** ** [String.prototype.replace] with a regular expression *)

Definition digit_value (d : char) : nat := N.to_nat (d - 48)%N.

(** The text a reference to capture [i] stands for, when [1 <= i <= ncap];
    a group that did not participate gives the empty string. *)
Definition capture_ref (str : jsstring) (mt : rmatch) (ncap i : nat) : option jsstring :=
  if (1 <=? i) && (i <=? ncap) then Some (default [] (capture str mt i)) else None.

(** GetSubstitution (ECMAScript 22.1.3.19.1) without named captures. *)
Fixpoint getSubstitution (str : jsstring) (mt : rmatch) (ncap : nat)
    (template : jsstring) {struct template} : jsstring :=
  match template with
  | [] => []
  | c :: rest =>
    if negb (c =? 36)%N then c :: getSubstitution str mt ncap rest
    else
      match rest with
      | [] => [c]
      | d :: rest' =>
        if (d =? 36)%N then 36%N :: getSubstitution str mt ncap rest'
        else if (d =? 96)%N then
          substring str 0 (index mt) ++ getSubstitution str mt ncap rest'
        else if (d =? 38)%N then
          matched str mt ++ getSubstitution str mt ncap rest'
        else if (d =? 39)%N then
          substring str (epos (final mt)) (length str)
            ++ getSubstitution str mt ncap rest'
        else if is_digit d then
          let one :=
            default [c; d] (capture_ref str mt ncap (digit_value d))
              ++ getSubstitution str mt ncap rest' in
          match rest' with
          | d2 :: rest'' =>
            if is_digit d2 then
              let i2 := 10 * digit_value d + digit_value d2 in
              if ncap <? i2 then one
              else default [c; d; d2] (capture_ref str mt ncap i2)
                     ++ getSubstitution str mt ncap rest''
            else one
          | [] => one
          end
        else if (d =? 60)%N then c :: d :: getSubstitution str mt ncap rest'
        else c :: getSubstitution str mt ncap rest
      end
  end.

(** The loop of [RegExp.prototype[Symbol.replace]] for a global pattern: an
    empty match advances [lastIndex] by one. *)
Fixpoint replaceLoop (r : regex) (str : jsstring) (replacer : rmatch -> jsstring)
    (fuel lastIndex nextSourcePosition : nat) : jsstring :=
  match fuel with
  | 0 => substring str nextSourcePosition (length str)
  | S fuel' =>
    match regExpExec r str lastIndex with
    | None => substring str nextSourcePosition (length str)
    | Some mt =>
      let e := epos (final mt) in
      let lastIndex' := if e =? index mt then S e else e in
      if nextSourcePosition <=? index mt then
        substring str nextSourcePosition (index mt) ++ replacer mt
          ++ replaceLoop r str replacer fuel' lastIndex' e
      else replaceLoop r str replacer fuel' lastIndex' nextSourcePosition
    end
  end.

(** [str.replace(r, replacer)] for a pattern with the [g] flag. *)
Definition replaceAllWith (r : regex) (str : jsstring) (replacer : rmatch -> jsstring)
  : jsstring :=
  replaceLoop r str replacer (S (S (length str))) 0 0.

(** [str.replace(r, template)], [r] global, [template] a string. *)
Definition replaceAll (r : regex) (str template : jsstring) : jsstring :=
  replaceAllWith r str (fun mt => getSubstitution str mt (length (groups r)) template).

(** [str.replace(r, template)] for a pattern without the [g] flag: the first
    match only. *)
Definition replaceFirst (r : regex) (str template : jsstring) : jsstring :=
  match regExpExec r str 0 with
  | None => str
  | Some mt =>
    substring str 0 (index mt)
      ++ getSubstitution str mt (length (groups r)) template
      ++ substring str (epos (final mt)) (length str)
  end.

(** ** Text mutators ([helpers.ts], lines 248-517) *)

Definition replaceComponent (code componentName replacementComponent : jsstring)
  : completion jsstring :=
  pattern ← RegExp (
    js "<" ++ componentName ++ js "(\s[^>]*)?>([^<]*(?:<(?!/?" ++ componentName
    ++ js "\b)[^<]*)*(?:<" ++ componentName ++ js "[^>]*>.*?</\s*" ++ componentName
    ++ js "\s*>)?[^<]*)(?:</\s*" ++ componentName ++ js "\s*>)?");
  Normal (replaceAll pattern code
            (js "<" ++ replacementComponent ++ js "$1>$2</"
             ++ replacementComponent ++ js ">")).

Definition removeComponent (code componentName : jsstring) : completion jsstring :=
  selfClosingPattern ← RegExp (js "<" ++ componentName ++ js "\s*(?:[^>]*?)\s*/>");
  openClosePattern ← RegExp (
    js "<" ++ componentName ++ js "(?:\s[^>]*)?>([^<]*(?:<(?!/?" ++ componentName
    ++ js "\b)[^<]*)*)</\s*" ++ componentName ++ js "\s*>");
  let result := replaceAll selfClosingPattern code [] in
  Normal (replaceAll openClosePattern result (js "$1")).

Definition wrapComponent (code componentName wrapperComponent wrapperProps : jsstring)
  : completion jsstring :=
  pattern ← RegExp (
    js "(<" ++ componentName ++ js "(?:\s[^>]*)?(?:>.*?</\s*" ++ componentName
    ++ js "\s*>|\s*/?>))");
  Normal (replaceAll pattern code
            (js "<" ++ wrapperComponent ++ wrapperProps ++ js ">$1</"
             ++ wrapperComponent ++ js ">")).

(** [oldValue] is the pattern text: the string itself, or the [source] of a
    regular expression. *)
Definition replaceAttribute (code : jsstring) (componentName : option jsstring)
    (attributeName oldValue newValue : jsstring) : completion jsstring :=
  let componentPattern :=
    match componentName with
    | Some n => if bool_decide (n = []) then js "<[A-Z]" else js "<" ++ n
    | None => js "<[A-Z]"
    end in
  pattern ← RegExp (js "(" ++ componentPattern ++ js "[^>]*" ++ attributeName
                    ++ js "=)" ++ dq ++ oldValue ++ dq);
  Normal (replaceAll pattern code (js "$1" ++ dq ++ newValue ++ dq)).

Definition addProp (code componentName propName propValue : jsstring)
  : completion jsstring :=
  pattern ← RegExp (js "(<" ++ componentName ++ js "(?:\s[^>]*)?)([\s/>])");
  Normal (replaceAll pattern code
            (js "$1 " ++ propName ++ js "=" ++ dq ++ propValue ++ dq ++ js "$2")).

Definition propPatternSource (propName : jsstring) : jsstring :=
  js "\s" ++ propName ++ js "(?:=(?:" ++ dq ++ js "[^" ++ dq ++ js "]*" ++ dq
  ++ js "|'[^']*'))?".

(** The callback of [removeProp] builds its own pattern at every match, so a
    throw inside it surfaces only when the outer pattern matches. *)
Definition removeProp (code componentName propName : jsstring) : completion jsstring :=
  pattern ← RegExp (js "<" ++ componentName ++ js "[^>]*" ++ propPatternSource propName
                    ++ js "[^>]*>");
  match regExpExec pattern code 0 with
  | None => Normal code
  | Some _ =>
    inner ← RegExp (propPatternSource propName);
    Normal (replaceAllWith pattern code
              (fun mt => replaceFirst inner (matched code mt) []))
  end.

Definition replaceText (code oldText newText : jsstring) : completion jsstring :=
  pattern ← RegExp oldText;
  Normal (replaceAll pattern code newText).

Definition removeImport (code importName : jsstring) : completion jsstring :=
  namedPattern ← RegExp (
    js "import\s*\{[^}]*" ++ importName ++ js "[^}]*\}\s*from\s*[" ++ dq ++ js "'][^"
    ++ dq ++ js "']*[" ++ dq ++ js "'];?\s*\n?");
  let result := replaceAll namedPattern code [] in
  defaultPattern ← RegExp (
    js "import\s+" ++ importName ++ js "\s+from\s+[" ++ dq ++ js "'][^"
    ++ dq ++ js "']*[" ++ dq ++ js "'];?\s*\n?");
  Normal (replaceAll defaultPattern result []).

Definition addImport (code importStatement : jsstring) : jsstring :=
  if includes code importStatement then code
  else importStatement ++ [ch_newline] ++ code.

Definition replaceHook (code hookName replacementHook : jsstring) : completion jsstring :=
  pattern ← RegExp (js "\b" ++ hookName ++ js "\b");
  Normal (replaceAll pattern code replacementHook).

Definition injectComment (baseCode comment : jsstring) : jsstring :=
  js "// " ++ comment ++ [ch_newline] ++ baseCode.

Definition injectImport (baseCode importStatement : jsstring) : jsstring :=
  importStatement ++ [ch_newline] ++ baseCode.

(** The value that [replaceDirective] puts in: [replacementCode] itself, or
    what it returns when it is a function.  A string is used as it is; any
    other value is read as a React element or passed to [JSON.stringify],
    which is outside this model. *)
Inductive replacementValue : Type :=
| ReplacementString (replacementStr : jsstring)
| ReplacementObject.

Definition replaceDirective (code directiveName : jsstring)
    (replacement : replacementValue) : completion jsstring :=
  match replacement with
  | ReplacementString replacementStr =>
    pattern ← RegExp (dq ++ js "use\s+" ++ directiveName ++ dq ++ js ";?");
    Normal (replaceAll pattern code replacementStr)
  | ReplacementObject => Unmodelled
  end.

Definition injectFunctionCode (baseCode injectionCode : jsstring) : jsstring :=
  let patterns := [
    regexLiteral (js "(\bfunction\s+\w+\s*\([^)]*\)\s*\{)");
    regexLiteral (js "(\bconst\s+\w+\s*=\s*(?:async\s*)?\([^)]*\)\s*=>\s*\{)")
  ] in
  fold_left
    (fun result pattern =>
       replaceAllWith pattern result
         (fun mt => matched result mt ++ [ch_newline] ++ injectionCode ++ [ch_newline]))
    patterns baseCode.

(** The loop of [str.match(r)] for a global pattern. *)
Fixpoint matchLoop (r : regex) (str : jsstring) (fuel lastIndex : nat)
    (acc : list jsstring) : option (list jsstring) :=
  match fuel with
  | 0 => Some acc
  | S fuel' =>
    match regExpExec r str lastIndex with
    | None => match acc with [] => None | _ => Some acc end
    | Some mt =>
      let e := epos (final mt) in
      matchLoop r str fuel' (if e =? index mt then S e else e) (acc ++ [matched str mt])
    end
  end.

(** [str.match(r)] for a global pattern: every matched substring, in order
    ([None] for [null]). *)
Definition matchAll (r : regex) (str : jsstring) : option (list jsstring) :=
  matchLoop r str (S (S (length str))) 0 [].

Definition extractFunctions (code : jsstring) : list jsstring :=
  let funcDeclPattern :=
    regexLiteral (js "function\s+\w+\s*\([^)]*\)\s*\{(?:[^{}]|{[^{}]*})*\}") in
  let funcDecls := default [] (matchAll funcDeclPattern code) in
  let arrowFuncPattern :=
    regexLiteral
      (js "const\s+\w+\s*=\s*(?:async\s*)?\([^)]*\)\s*=>\s*\{(?:[^{}]|{[^{}]*})*\}") in
  let arrowFuncs := default [] (matchAll arrowFuncPattern code) in
  let methodPattern := regexLiteral (js "\w+\s*\([^)]*\)\s*\{(?:[^{}]|{[^{}]*})*\}") in
  let methods := default [] (matchAll methodPattern code) in
  funcDecls ++ arrowFuncs ++ methods.

(** ** Directive registry ([registry.ts]) *)

Record DirectiveHandler : Type := Handler {
  name : jsstring;
  handler : jsstring -> option jsstring
}.

(** The object held in [this.directives]: an ordinary object created by [{}].
    Its own properties are the registered handlers; its prototype is
    [Object.prototype] ([None]) unless an assignment to the key [__proto__]
    replaced it by a handler object. *)
Record Directives : Type := Dirs {
  own : gmap jsstring DirectiveHandler;
  proto : option DirectiveHandler
}.

(** What a property read can produce. *)
Inductive value : Type :=
| VUndefined
| VHandler (h : DirectiveHandler)
| VString (s : jsstring)
| VFunction (f : jsstring -> option jsstring)
| VObjectPrototype
| VBuiltin (key : jsstring).

(** The data properties of [Object.prototype]. *)
Definition objectPrototypeKeys : list jsstring :=
  [ js "constructor"; js "hasOwnProperty"; js "isPrototypeOf";
    js "propertyIsEnumerable"; js "toLocaleString"; js "toString"; js "valueOf";
    js "__defineGetter__"; js "__defineSetter__";
    js "__lookupGetter__"; js "__lookupSetter__" ].

Definition key_proto : jsstring := js "__proto__".

(** [directives[key] = h]: the accessor [__proto__] of [Object.prototype]
    installs [h] as prototype; any other key becomes an own property. *)
Definition setProperty (d : Directives) (key : jsstring) (h : DirectiveHandler)
  : Directives :=
  if bool_decide (key = key_proto) then Dirs (own d) (Some h)
  else Dirs (<[key := h]> (own d)) (proto d).

(** [directives[key]]: own properties, then the prototype chain. *)
Definition getProperty (d : Directives) (key : jsstring) : value :=
  match own d !! key with
  | Some h => VHandler h
  | None =>
    let fromObjectPrototype :=
      if bool_decide (key = key_proto) then
        match proto d with Some h => VHandler h | None => VObjectPrototype end
      else if bool_decide (key ∈ objectPrototypeKeys) then VBuiltin key
      else VUndefined in
    match proto d with
    | Some h =>
      if bool_decide (key = js "name") then VString (name h)
      else if bool_decide (key = js "handler") then VFunction (handler h)
      else fromObjectPrototype
    | None => fromObjectPrototype
    end
  end.

(** [key in directives]. *)
Definition hasProperty (d : Directives) (key : jsstring) : bool :=
  bool_decide (is_Some (own d !! key))
  || match proto d with
     | Some _ => bool_decide (key = js "name") || bool_decide (key = js "handler")
     | None => false
     end
  || bool_decide (key = key_proto)
  || bool_decide (key ∈ objectPrototypeKeys).

Module DirectiveRegistry.

Definition new : Directives := Dirs ∅ None.

Definition register (this : Directives) (handler : DirectiveHandler) : Directives :=
  setProperty this (name handler) handler.

Definition getDirective (this : Directives) (name : jsstring) : value :=
  getProperty this name.

Definition getAllDirectives (this : Directives) : Directives := this.

Definition isDirective (this : Directives) (name : jsstring) : bool :=
  hasProperty this name.

Definition clear (this : Directives) : Directives := Dirs ∅ None.

End DirectiveRegistry.

(** ** The plugin: applying the directives of a source file
    (the last phase of [transform] in the plugin module) *)

(** [s.endsWith(suffix)]. *)
Definition endsWith (s suffix : jsstring) : bool :=
  startsWith (reverse s) (reverse suffix).

Definition DIRECTIVE_PATTERN : regex :=
  regexLiteral (dq ++ js "use\s+(\w+)" ++ dq ++ js ";?").

(** [directiveMatch.match(...)?.[1]]: the name inside one marker. *)
Definition directiveNameOf (directiveMatch : jsstring) : option jsstring :=
  mt ← regExpExec (regexLiteral (dq ++ js "use\s+(\w+)" ++ dq)) directiveMatch 0;
  capture directiveMatch mt 1.

(** What [if (handler) { handler.handler(code) }] does with the value that
    [getDirective] returned: nothing for a falsy value, a call for a handler
    object, and a [TypeError] for any other truthy value, whose property
    [handler] is [undefined]. *)
Inductive handlerUse : Type :=
| Skipped
| Called (f : jsstring -> option jsstring)
| NotCallable.

Definition useHandler (v : value) : handlerUse :=
  match v with
  | VUndefined => Skipped
  | VHandler h => Called (handler h)
  | VString s => if bool_decide (s = []) then Skipped else NotCallable
  | VFunction _ | VObjectPrototype | VBuiltin _ => NotCallable
  end.

(** One iteration of [for (const directiveMatch of directives)]; the state is
    [processedDirectives] and [transformedCode], [None] after a [TypeError]. *)
Definition dispatchStep (d : Directives) (st : option (gset (list N) * list N))
    (directiveMatch : jsstring) : option (gset (list N) * list N) :=
  '(processedDirectives, transformedCode) ← st;
  match directiveNameOf directiveMatch with
  | None => Some (processedDirectives, transformedCode)
  | Some directiveName =>
    if bool_decide (directiveName = [])
       || bool_decide (directiveName ∈ processedDirectives)
    then Some (processedDirectives, transformedCode)
    else
      let processedDirectives' := {[directiveName]} ∪ processedDirectives in
      match useHandler (DirectiveRegistry.getDirective d directiveName) with
      | Skipped => Some (processedDirectives', transformedCode)
      | Called f =>
        Some (processedDirectives', default transformedCode (f transformedCode))
      | NotCallable => None
      end
  end.

Inductive transformResult : Type :=
| NoChange                      (* [null] or [undefined] *)
| NewCode (code : jsstring)
| TypeErrorThrown.

(** The part of [transform] that applies the registered handlers to a source
    file [id] with text [code]. *)
Definition applyDirectives (d : Directives) (code id : jsstring) : transformResult :=
  if negb (existsb (fun ext => endsWith id (js "." ++ ext))
             [js "ts"; js "tsx"; js "js"; js "jsx"])
  then NoChange
  else if includes id (js "node_modules") then NoChange
  else
    match matchAll DIRECTIVE_PATTERN code with
    | None => NoChange
    | Some directives =>
      match foldl (dispatchStep d) (Some (∅, code)) directives with
      | None => TypeErrorThrown
      | Some (_, transformedCode) =>
        if bool_decide (transformedCode = code) then NoChange
        else NewCode transformedCode
      end
    end.

(** [handlerObj] from [startIndex] on: the loop of [transform] that looks for
    the brace closing a handler body; [endIndex] stays [startIndex] when the
    count never returns to zero. *)
Fixpoint handlerBodyEnd (handlerObj : jsstring) (fuel i : nat) (braceCount : Z)
    (startIndex : nat) : nat :=
  match fuel with
  | 0 => startIndex
  | S fuel' =>
    match handlerObj !! i with
    | None => startIndex
    | Some ch =>
      let braceCount1 := if (ch =? ch_lbrace)%N then (braceCount + 1)%Z else braceCount in
      let braceCount2 := if (ch =? ch_rbrace)%N then (braceCount1 - 1)%Z else braceCount1 in
      if (braceCount2 =? 0)%Z then i
      else handlerBodyEnd handlerObj fuel' (S i) braceCount2 startIndex
    end
  end.

(** [handlerObj.substring(startIndex, endIndex).trim()]. *)
Definition handlerBody (handlerObj : jsstring) (startIndex : nat) : jsstring :=
  trim (substring handlerObj startIndex
          (handlerBodyEnd handlerObj (length handlerObj) startIndex 1 startIndex)).

(** ** Specification-side notions *)

(** [}] counts [+1] and [{] counts [-1], as in the backward scan. *)
Definition braceDelta (c : char) : Z :=
  if (c =? ch_rbrace)%N then 1%Z else if (c =? ch_lbrace)%N then (-1)%Z else 0%Z.

(** Closing minus opening braces of a text, string literals or not. *)
Definition braceBalance (s : jsstring) : Z :=
  foldr (fun c acc => (braceDelta c + acc)%Z) 0%Z s.

(** The code units [s[i]] for [a <= i < b]. *)
Definition slice (s : jsstring) (a b : nat) : jsstring := take (b - a) (drop a s).

(** The forward loop as a function of the iteration count: the literal that
    the loop holds open once the [n] code units after the brace at [s] have
    been read ([None] outside any literal).  A quote opens a literal; the loop
    closes it at the same quote unless the code unit before that quote is a
    backslash, whether that backslash is itself escaped or not. *)
Fixpoint loopQuote (code : jsstring) (s n : nat) : option char :=
  match n with
  | 0 => None
  | S n' =>
    match code !! (s + 1 + n') with
    | None => loopQuote code s n'
    | Some ch =>
      match loopQuote code s n' with
      | None => if is_quote ch then Some ch else None
      | Some q =>
        if (ch =? q)%N && negb (bool_decide (code !! (s + n') = Some ch_backslash))
        then None else Some q
      end
    end
  end.

(** The brace count of the loop after [n] iterations. *)
Fixpoint loopDepth (code : jsstring) (s n : nat) : Z :=
  match n with
  | 0 => 1%Z
  | S n' =>
    match code !! (s + 1 + n'), loopQuote code s (S n') with
    | Some ch, None => (loopDepth code s n' - braceDelta ch)%Z
    | _, _ => loopDepth code s n'
    end
  end.

(** String regions after the brace at [s], as the language has them: the
    literal that is open once the [n] code units after [s] have been read, and
    whether the last code unit read is a backslash that escapes the next one.
    A quote outside any literal opens one.  Inside a literal a backslash that
    is not itself escaped escapes the code unit after it, and the quote that
    opened the literal closes it when it is not escaped. *)
Fixpoint literalAfter (code : jsstring) (s n : nat) : option char * bool :=
  match n with
  | 0 => (None, false)
  | S n' =>
    match code !! (s + 1 + n') with
    | None => literalAfter code s n'
    | Some ch =>
      match literalAfter code s n' with
      | (None, _) => if is_quote ch then (Some ch, false) else (None, false)
      | (Some q, true) => (Some q, false)
      | (Some q, false) =>
        if (ch =? ch_backslash)%N then (Some q, true)
        else if (ch =? q)%N then (None, false)
        else (Some q, false)
      end
    end
  end.

(** The literal that is open after [n] code units ([None] outside any
    literal). *)
Definition quoteAfter (code : jsstring) (s n : nat) : option char :=
  fst (literalAfter code s n).

(** Nesting depth once the [n] code units after the brace at [s] have been
    read: the brace at [s] counts one, and braces count only outside string
    regions. *)
Fixpoint depthAfter (code : jsstring) (s n : nat) : Z :=
  match n with
  | 0 => 1%Z
  | S n' =>
    match code !! (s + 1 + n'), quoteAfter code s (S n') with
    | Some ch, None => (depthAfter code s n' - braceDelta ch)%Z
    | _, _ => depthAfter code s n'
    end
  end.

(** Between the brace at [s] and the offset [e] no quote that closes a
    literal stands directly after an escaped backslash (as the second quote
    of a literal that holds two backslashes only does). *)
Definition noQuoteAfterEscapedBackslash (code : jsstring) (s e : nat) : bool :=
  forallb
    (fun n =>
       match literalAfter code s n, code !! (s + 1 + n) with
       | (Some q, false), Some ch =>
         negb ((ch =? q)%N && bool_decide (code !! (s + n) = Some ch_backslash))
       | _, _ => true
       end)
    (seq 0 (e - (s + 1))).

(** [c] is the offset of the brace that balances the one at [s]: the depth
    first returns to zero there. *)
Definition balancingBrace (code : jsstring) (s c : nat) : Prop :=
  s < c /\ code !! c = Some ch_rbrace
  /\ depthAfter code s (c - s) = 0%Z
  /\ forall n, n < c - s -> (0 < depthAfter code s n)%Z.

(** No brace balances the one at [s]. *)
Definition unbalanced (code : jsstring) (s : nat) : Prop :=
  forall n, s + n < length code -> (0 < depthAfter code s n)%Z.

(** What the resolver guarantees about the extent of a scope: it starts at an
    opening brace, its text is the code from there up to [endIndex]
    (exclusive), and [endIndex] is one past the balancing brace, or the length
    of the text when nothing balances the opening brace. *)
Definition scopeExtent (code : jsstring) (scope : DirectiveScope) : Prop :=
  code !! startIndex scope = Some ch_lbrace
  /\ startIndex scope < endIndex scope <= length code
  /\ functionCode scope = slice code (startIndex scope) (endIndex scope)
  /\ (balancingBrace code (startIndex scope) (endIndex scope - 1)
      \/ (unbalanced code (startIndex scope) /\ endIndex scope = length code)).

(** The syntax characters of patterns; every other code unit stands for
    itself. *)
Definition is_syntax_char (c : char) : bool :=
  (c =? 92)%N || (c =? 40)%N || (c =? 41)%N || (c =? 124)%N || (c =? 42)%N
  || (c =? 43)%N || (c =? 63)%N || (c =? 123)%N || (c =? 91)%N || (c =? 46)%N
  || (c =? 94)%N || (c =? 36)%N.

(** A parameter without regular expression metacharacters. *)
Definition plain (s : jsstring) : bool :=
  forallb (fun c => negb (is_syntax_char c)) s.

(** The pattern that matches the code units of [s], then [k]. *)
Definition chars (s : jsstring) (k : regex) : regex :=
  foldr (fun c r => RSeq (RChar c) r) k s.

(** The backtracking order of a greedy star over a run of [n] code units
    that starts at [e]: the continuation is tried after the whole run first,
    then after one code unit less, down to [e] itself. *)
Fixpoint tryDown (c : cont) (e : nat) (caps : list (nat * (nat * nat))) (n : nat)
  : option mstate :=
  match n with
  | 0 => c (MState e caps)
  | S n' => orelse (c (MState (e + S n') caps)) (fun _ => tryDown c e caps n')
  end.

(** The text [s] does not contain the code unit [c]. *)
Definition lacks (c : char) (s : jsstring) : bool :=
  forallb (fun x => negb (x =? c)%N) s.

Definition re_space : regex := RClass false [CSpace false].
Definition re_not (c : char) : regex := RClass true [CChar c].

(** The pattern of [addProp]: group 1 is [<C] with the attribute text that
    follows it, group 2 the white space, [/] or [>] after it. *)
Definition addPropPattern (C : jsstring) : regex :=
  RSeq
    (RGroup 1
       (RSeq (RChar 60)
          (chars C
             (RSeq
                (RQuant QOpt true
                   (RSeq re_space (RSeq (RQuant QStar true (re_not 62)) REmpty)))
                REmpty))))
    (RSeq
       (RGroup 2 (RSeq (RClass false [CSpace false; CChar 47; CChar 62]) REmpty))
       REmpty).

(** The optional value of an attribute: [=] and a text in double or in
    single quotes. *)
Definition propValuePattern : regex :=
  RQuant QOpt true
    (RSeq (RChar 61)
       (RSeq
          (RAlt
             (RSeq (RChar 34)
                (RSeq (RQuant QStar true (re_not 34)) (RSeq (RChar 34) REmpty)))
             (RSeq (RChar 39)
                (RSeq (RQuant QStar true (re_not 39)) (RSeq (RChar 39) REmpty))))
          REmpty)).

(** White space, the name [P] and the optional value, followed by [k]. *)
Definition propPattern (P : jsstring) (k : regex) : regex :=
  RSeq re_space (chars P (RSeq propValuePattern k)).

(** [<C], any text without [>], the attribute [P] with its optional value,
    any text without [>], and [>]. *)
Definition removePropPattern (C P : jsstring) : regex :=
  RSeq (RChar 60)
    (chars C
       (RSeq (RQuant QStar true (re_not 62))
          (propPattern P
             (RSeq (RQuant QStar true (re_not 62)) (RSeq (RChar 62) REmpty))))).

(** The attribute text that [addProp] inserts: a space, [P], [=] and [V] in
    double quotes. *)
Definition propText (P V : jsstring) : jsstring :=
  [32%N] ++ P ++ [61%N; 34%N] ++ V ++ [34%N].

(** A value that stays inside its quotes: no white space, no quote, no [$]
    and no [>]. *)
Definition valueChar (c : char) : bool :=
  negb (is_space c) && negb (c =? 34)%N && negb (c =? 36)%N && negb (c =? 62)%N.

(** No white space of [attrs] is directly followed by the name [P]: the
    attribute does not occur in the tag yet. *)
Definition attributeAbsent (P attrs : jsstring) : Prop :=
  forall j a, attrs !! j = Some a -> is_space a = true ->
              startsWith (drop (S j) attrs) P = false.

(** The attribute text of a tag: empty, or starting with white space, and
    without [>]. *)
Definition attributeText (attrs : jsstring) : Prop :=
  lacks 62 attrs = true
  /\ match attrs with [] => True | a :: _ => is_space a = true end.

(** A text with one opening tag: [pre], then [<C], the attribute text, [>],
    then [post]. *)
Definition tagText (pre C attrs post : jsstring) : jsstring :=
  pre ++ [60%N] ++ C ++ attrs ++ [62%N] ++ post.

(** The loop state after [n] iterations from the brace at [s]. *)
Definition fwdAt (code : jsstring) (s n : nat) (st : fwd) : Prop :=
  closingBraceIndex st = s + 1 + n
  /\ braceCount st = loopDepth code s n
  /\ (if inString st then stringChar st = loopQuote code s n /\ is_Some (stringChar st)
      else loopQuote code s n = None).

(** The marker pattern for a name without metacharacters: the quote and
    [use], one or more white space, the name, the closing quote. *)
Definition markerPattern (directiveName : jsstring) : regex :=
  chars (dq ++ js "use")
    (RSeq (RQuant QPlus true re_space) (chars directiveName (RSeq (RChar 34) REmpty))).

(** The pattern of [replaceDirective] for a name without metacharacters: the
    marker and the semicolon that may follow it. *)
Definition replaceDirectivePattern (directiveName : jsstring) : regex :=
  chars (dq ++ js "use")
    (RSeq (RQuant QPlus true re_space)
       (chars directiveName
          (RSeq (RChar 34) (RSeq (RQuant QOpt true (RChar 59)) REmpty)))).

(** The marker as it stands in a text: the quote and [use], the white space
    [ws], the name, the closing quote. *)
Definition markerText (ws directiveName : jsstring) : jsstring :=
  (dq ++ js "use") ++ ws ++ directiveName ++ dq.

(** [post] without the semicolon it may start with. *)
Definition afterSemicolon (post : jsstring) : jsstring :=
  match post with
  | c :: rest => if (c =? 59)%N then rest else post
  | [] => []
  end.

(** The pattern of [replaceHook] for a name without metacharacters: the name
    between two word boundaries. *)
Definition hookPattern (hookName : jsstring) : regex :=
  RSeq (RWordBoundary false) (chars hookName (RSeq (RWordBoundary false) REmpty)).

(** The pattern of [replaceAttribute] for a component [C], an attribute [A]
    and an old value without metacharacters: group 1 is [<C], the text up to
    the attribute name, and the name with its [=]; the quoted old value
    follows. *)
Definition replaceAttributePattern (C A old : jsstring) : regex :=
  RSeq
    (RGroup 1
       (RSeq (RChar 60)
          (chars C
             (RSeq (RQuant QStar true (re_not 62))
                (chars A (RSeq (RChar 61) REmpty))))))
    (RSeq (RChar 34) (chars old (RSeq (RChar 34) REmpty))).

(** An attribute with its value in double quotes. *)
Definition attributeValueText (A v : jsstring) : jsstring :=
  A ++ [61%N; 34%N] ++ v ++ [34%N].

(** A text with one opening tag that holds the attribute: [pre], [<C], the
    tag text [attrs] before the attribute, the attribute, the tag text [rest]
    after it, [>], then [post]. *)
Definition attributeTagText (pre C attrs A v rest post : jsstring) : jsstring :=
  pre ++ [60%N] ++ C ++ attrs ++ attributeValueText A v ++ rest ++ [62%N] ++ post.

Definition re_word : regex := RClass false [CWord false].

(** The first pattern of [injectFunctionCode]: a word boundary, [function],
    white space, a name, the parameter list in parentheses and the opening
    brace, all in group 1. *)
Definition functionDeclPattern : regex :=
  RSeq
    (RGroup 1
       (RSeq (RWordBoundary false)
          (chars (js "function")
             (RSeq (RQuant QPlus true re_space)
                (RSeq (RQuant QPlus true re_word)
                   (RSeq (RQuant QStar true re_space)
                      (RSeq (RChar 40)
                         (RSeq (RQuant QStar true (re_not 41))
                            (RSeq (RChar 41)
                               (RSeq (RQuant QStar true re_space)
                                  (RSeq (RChar 123) REmpty)))))))))))
    REmpty.

(** A function declaration up to its opening brace. *)
Definition functionDeclText (ws1 name ws2 params ws3 : jsstring) : jsstring :=
  js "function" ++ ws1 ++ name ++ ws2 ++ [40%N] ++ params ++ [41%N] ++ ws3 ++ [123%N].

(** Every match of [r] starts with the literal text [s]. *)
Definition needs (r : regex) (s : jsstring) : Prop :=
  forall str x c, startsWith (drop (epos x) str) s = false -> m str r x c = None.



(** Literal replacement: from left to right, every occurrence of [old] that
    does not overlap an earlier one is replaced by [new].  [skip] counts the
    code units of a replaced occurrence that are still to be dropped. *)
Fixpoint replaceLiteral (code : jsstring) (skip : nat) (old new : jsstring) : jsstring :=
  match code with
  | [] => []
  | c :: rest =>
    match skip with
    | S k => replaceLiteral rest k old new
    | 0 =>
      if startsWith code old then new ++ replaceLiteral rest (length old - 1) old new
      else c :: replaceLiteral rest 0 old new
    end
  end.

(** The pattern [r] matches [str] from offset [i]. *)
Definition matchesAt (r : regex) (str : jsstring) (i : nat) : Prop :=
  is_Some (m str r (MState i []) Some).

(** The registry states the program can reach: assignments never create an
    own property called [__proto__]. *)
Inductive reachable : Directives -> Prop :=
| reachable_new : reachable DirectiveRegistry.new
| reachable_register d h :
    reachable d -> reachable (DirectiveRegistry.register d h)
| reachable_clear d :
    reachable d -> reachable (DirectiveRegistry.clear d).

(** A handler called [toString], like the one a [use toString] directive
    would need. *)
Definition toStringHandler : DirectiveHandler :=
  Handler (js "toString") (fun code => Some code).

(** ** Example inputs *)

(** [const x = 1; "use test"]: a marker at top level after a statement. *)
Definition topLevelExample : jsstring :=
  js "const x = 1; " ++ dq ++ js "use test" ++ dq.

(** [function a() {} function b() { "use test" }]. *)
Definition twoFunctionsExample : jsstring :=
  js "function a() {} function b() { " ++ dq ++ js "use test" ++ dq ++ js " }".


(** [function f() { "use test" }]. *)
Definition oneFunctionExample : jsstring :=
  js "function f() { " ++ dq ++ js "use test" ++ dq ++ js " }".

(** Two markers, the first one preceded by a line break and spaces only. *)
Definition leadingMarkerExample : jsstring :=
  [ch_newline] ++ js "  " ++ dq ++ js "use test" ++ dq ++ js ";" ++ oneFunctionExample.

(** [function f() { "use test"; var s = "\\"; } function g() {}]: the literal
    of [s] holds one escaped backslash. *)
Definition escapedBackslashExample : jsstring :=
  js "function f() { " ++ dq ++ js "use test" ++ dq ++ js "; var s = " ++ dq
  ++ js "\\" ++ dq ++ js "; } function g() {}".

(** [<Button disabledReason='x'>]: a tag without the attribute [disabled]. *)
Definition prefixAttributeExample : jsstring := js "<Button disabledReason='x'>".

(** * Theorems *)

(** ** Strings *)

Lemma substring_slice (s : jsstring) (a b : nat) :
  a <= b -> b <= length s -> substring s a b = slice s a b.
Proof.
  intros Hab Hb. unfold substring, slice.
  replace (a `min` length s) with a by lia.
  replace (b `min` length s) with b by lia.
  replace (a `max` b) with b by lia.
  replace (a `min` b) with a by lia. reflexivity.
Qed.

Lemma substring_0 (s : jsstring) (b : nat) :
  b <= length s -> substring s 0 b = take b s.
Proof.
  intros Hb. rewrite substring_slice by lia. unfold slice.
  rewrite drop_0. f_equal. lia.
Qed.

Lemma substring_full (s : jsstring) : substring s 0 (length s) = s.
Proof. rewrite substring_0 by lia. apply firstn_all. Qed.

Lemma slice_snoc (s : jsstring) (a b : nat) (c : char) :
  a <= b -> s !! b = Some c -> slice s a (S b) = slice s a b ++ [c].
Proof.
  intros Hab Hc. unfold slice.
  replace (S b - a) with (S (b - a)) by lia.
  rewrite (take_S_r _ _ c); [reflexivity|].
  rewrite lookup_drop. replace (a + (b - a)) with b by lia. exact Hc.
Qed.

Lemma slice_nil (s : jsstring) (a : nat) : slice s a a = [].
Proof. unfold slice. rewrite Nat.sub_diag. reflexivity. Qed.

Lemma braceBalance_app (s t : jsstring) :
  braceBalance (s ++ t) = (braceBalance s + braceBalance t)%Z.
Proof.
  induction s as [|c s IH]; simpl; [lia|].
  unfold braceBalance in *. simpl. rewrite IH. lia.
Qed.

Lemma braceBalance_single (c : char) : braceBalance [c] = braceDelta c.
Proof. unfold braceBalance. simpl. lia. Qed.

Lemma startsWith_spec (s p : jsstring) :
  startsWith s p = true <-> exists post, s = p ++ post.
Proof.
  revert s. induction p as [|x p IH]; intros s; simpl.
  - split; [intros _; exists s; reflexivity | reflexivity].
  - destruct s as [|y s].
    + split; [discriminate | intros [post H]; discriminate].
    + rewrite andb_true_iff, N.eqb_eq, IH. split.
      * intros [-> [post ->]]. exists post. reflexivity.
      * intros [post H]. injection H as -> ->. split; [reflexivity | eauto].
Qed.

Lemma includes_spec (code search : jsstring) :
  includes code search = true <-> exists pre post, code = pre ++ search ++ post.
Proof.
  induction code as [|c code IH].
  - simpl. rewrite orb_false_r, startsWith_spec. split.
    + intros [post H]. exists [], post. exact H.
    + intros [pre [post H]]. symmetry in H.
      apply app_eq_nil in H as [-> H]. exists post. symmetry. exact H.
  - simpl. rewrite orb_true_iff, startsWith_spec, IH. split.
    + intros [[post H] | [pre [post H]]].
      * exists [], post. exact H.
      * exists (c :: pre), post. rewrite H. reflexivity.
    + intros [pre [post H]]. destruct pre as [|x pre].
      * left. exists post. exact H.
      * right. injection H as -> ->. eauto.
Qed.

Lemma trimStart_all_space (s : jsstring) :
  forallb is_space s = true -> trimStart s = [].
Proof.
  induction s as [|c s IH]; simpl; [reflexivity|].
  rewrite andb_true_iff. intros [-> H]. auto.
Qed.

Lemma trim_all_space (s : jsstring) :
  forallb is_space s = true -> trim s = [].
Proof.
  intros H. unfold trim. rewrite (trimStart_all_space s H). reflexivity.
Qed.

Lemma trimStart_nil_inv (s : jsstring) :
  trimStart s = [] -> forallb is_space s = true.
Proof.
  induction s as [|c s IH]; simpl; [reflexivity|].
  destruct (is_space c); [auto | discriminate].
Qed.

Lemma trim_nil_inv (s : jsstring) : trim s = [] -> forallb is_space s = true.
Proof.
  unfold trim. intros H.
  apply (f_equal reverse) in H. rewrite reverse_involutive in H.
  change (reverse []) with (@nil N) in H.
  destruct (trimStart s) as [|c t] eqn:E.
  - apply trimStart_nil_inv. exact E.
  - exfalso.
    assert (Hc : is_space c = false).
    { clear H. induction s as [|x s IH]; simpl in E; [discriminate|].
      destruct (is_space x) eqn:Ex; [auto | injection E as <- _; exact Ex]. }
    rewrite reverse_cons in H.
    assert (Hl : forall (u : jsstring), trimStart (u ++ [c]) <> []).
    { induction u as [|x u IH]; simpl.
      - rewrite Hc. discriminate.
      - destruct (is_space x); [exact IH | discriminate]. }
    exact (Hl _ H).
Qed.

Lemma jsstring_eqb_nil (s : jsstring) : jsstring_eqb s [] = true <-> s = [].
Proof. destruct s; simpl; split; congruence. Qed.

Lemma forallb_take {A} (p : A -> bool) (l : list A) (n k : nat) :
  k <= n -> forallb p (take n l) = true -> forallb p (take k l) = true.
Proof.
  revert n k. induction l as [|x l IH]; intros n k Hk.
  - rewrite !take_nil. auto.
  - destruct k as [|k]; [reflexivity|]. destruct n as [|n]; [lia|].
    simpl. rewrite !andb_true_iff. intros [-> H]. split; [reflexivity|].
    apply (IH n); [lia | exact H].
Qed.

(** ** [exec]: the leftmost match *)

Lemma search_Some (r : regex) (str : jsstring) (fuel i : nat) (mt : rmatch) :
  search r str fuel i = Some mt ->
  i <= index mt < i + fuel
  /\ m str r (MState (index mt) []) Some = Some (final mt)
  /\ forall j, i <= j < index mt -> m str r (MState j []) Some = None.
Proof.
  revert i. induction fuel as [|fuel IH]; intros i; simpl; [discriminate|].
  destruct (m str r (MState i []) Some) as [y|] eqn:E.
  - intros [= <-]. simpl. repeat split; [lia | lia | exact E | intros j Hj; lia].
  - intros H. apply IH in H as (Hi & Hm & Hn). repeat split; [lia | lia | exact Hm |].
    intros j Hj. destruct (decide (j = i)) as [-> | Hne]; [exact E | apply Hn; lia].
Qed.

Lemma search_None (r : regex) (str : jsstring) (fuel i : nat) :
  search r str fuel i = None ->
  forall j, i <= j < i + fuel -> m str r (MState j []) Some = None.
Proof.
  revert i. induction fuel as [|fuel IH]; intros i; simpl; [intros _ j Hj; lia|].
  destruct (m str r (MState i []) Some) as [y|] eqn:E; [discriminate|].
  intros H j Hj. destruct (decide (j = i)) as [-> | Hne]; [exact E|].
  apply (IH (S i)); [exact H | lia].
Qed.

Lemma regExpExec_Some (r : regex) (str : jsstring) (lastIndex : nat) (mt : rmatch) :
  regExpExec r str lastIndex = Some mt ->
  lastIndex <= index mt <= length str
  /\ m str r (MState (index mt) []) Some = Some (final mt)
  /\ forall j, lastIndex <= j < index mt -> m str r (MState j []) Some = None.
Proof.
  unfold regExpExec. destruct (length str <? lastIndex) eqn:E; [discriminate|].
  apply Nat.ltb_ge in E. intros H. apply search_Some in H as (Hi & Hm & Hn).
  repeat split; [lia | lia | exact Hm | exact Hn].
Qed.

Lemma regExpExec_None (r : regex) (str : jsstring) (lastIndex : nat) :
  regExpExec r str lastIndex = None ->
  forall j, lastIndex <= j <= length str -> ~ matchesAt r str j.
Proof.
  unfold regExpExec, matchesAt. destruct (length str <? lastIndex) eqn:E.
  - apply Nat.ltb_lt in E. intros _ j Hj. lia.
  - apply Nat.ltb_ge in E. intros H j Hj.
    rewrite (search_None _ _ _ _ H j) by lia. intros [? ?]. discriminate.
Qed.

(** A match at [j] makes [exec] return a match that starts at [j] or before. *)
Lemma regExpExec_leftmost (r : regex) (str : jsstring) (lastIndex j : nat) :
  lastIndex <= j <= length str -> matchesAt r str j ->
  exists mt, regExpExec r str lastIndex = Some mt /\ lastIndex <= index mt <= j.
Proof.
  intros Hj Hm. destruct (regExpExec r str lastIndex) as [mt|] eqn:E.
  - exists mt. split; [reflexivity|].
    apply regExpExec_Some in E as (Hi & _ & Hn). split; [lia|].
    destruct (decide (index mt <= j)) as [|Hgt]; [assumption|].
    exfalso. unfold matchesAt in Hm. rewrite (Hn j) in Hm by lia.
    destruct Hm as [? ?]. discriminate.
  - exfalso. exact (regExpExec_None _ _ _ E j Hj Hm).
Qed.

(** ** The backward scan *)

Lemma bool_decide_Some_eqb (c d : N) :
  bool_decide (Some c = Some d) = (c =? d)%N.
Proof.
  destruct (c =? d)%N eqn:E.
  - apply N.eqb_eq in E. apply bool_decide_eq_true_2. congruence.
  - apply N.eqb_neq in E. apply bool_decide_eq_false_2. congruence.
Qed.

Lemma braceBalance_slice_S (code : jsstring) (i j : nat) (c : char) :
  code !! i = Some c -> j <= i ->
  braceBalance (slice code j (S i)) = (braceBalance (slice code j i) + braceDelta c)%Z.
Proof.
  intros Hc Hj. rewrite (slice_snoc _ _ _ c) by (assumption || lia).
  rewrite braceBalance_app, braceBalance_single. reflexivity.
Qed.

Lemma braceBalance_slice_nil (code : jsstring) (i : nat) :
  braceBalance (slice code i i) = 0%Z.
Proof. rewrite slice_nil. reflexivity. Qed.

Lemma rbrace_not_lbrace (c : char) :
  (c =? ch_rbrace)%N = true -> (c =? ch_lbrace)%N = true -> False.
Proof. rewrite !N.eqb_eq. intros -> H. discriminate H. Qed.

(** One step of the scan, with the brace counted by [braceDelta]. *)
Lemma scanBackward_step (code : jsstring) (i : nat) (b : Z) (c : char) :
  code !! i = Some c ->
  scanBackward code (S i) b =
  if (c =? ch_lbrace)%N && (b + braceDelta c <? 0)%Z then Some i
  else scanBackward code i (b + braceDelta c)%Z.
Proof.
  intros Hc. cbn [scanBackward]. rewrite Hc, !bool_decide_Some_eqb.
  unfold braceDelta.
  destruct (c =? ch_rbrace)%N eqn:Er, (c =? ch_lbrace)%N eqn:El; simpl.
  - exfalso. eapply rbrace_not_lbrace; eassumption.
  - reflexivity.
  - replace (b + -1)%Z with (b - 1)%Z by lia. reflexivity.
  - rewrite Z.add_0_r. reflexivity.
Qed.

(** The scan fails exactly when no suffix of the scanned text has more opening
    than closing braces; it counts every brace of the text. *)
Lemma scanBackward_None (code : jsstring) (n : nat) (b : Z) :
  n <= length code -> (0 <= b)%Z ->
  (scanBackward code n b = None <->
   forall j, j < n -> (0 <= b + braceBalance (slice code j n))%Z).
Proof.
  revert b. induction n as [|i IH]; intros b Hn Hb.
  - split; [intros _ j Hj; lia | reflexivity].
  - destruct (lookup_lt_is_Some_2 code i ltac:(lia)) as [c Hc].
    rewrite (scanBackward_step _ _ _ c Hc).
    pose proof (braceBalance_slice_S code i) as HS.
    pose proof (braceBalance_slice_nil code i) as H0.
    destruct ((c =? ch_lbrace)%N && (b + braceDelta c <? 0)%Z) eqn:E.
    + apply andb_true_iff in E as [_ E]. apply Z.ltb_lt in E.
      split; [discriminate|]. intros H. exfalso.
      specialize (H i ltac:(lia)). rewrite (HS i c Hc) in H by lia. lia.
    + assert (Hb' : (0 <= b + braceDelta c)%Z).
      { unfold braceDelta in *.
        destruct (c =? ch_rbrace)%N, (c =? ch_lbrace)%N; simpl in E;
          first [lia | apply Z.ltb_ge in E; lia]. }
      rewrite IH by lia. split; intros H j Hj.
      * rewrite (HS j c Hc) by lia. destruct (decide (j = i)) as [-> | Hne]; [lia|].
        specialize (H j ltac:(lia)). lia.
      * specialize (H j ltac:(lia)). rewrite (HS j c Hc) in H by lia. lia.
Qed.

(** When the scan succeeds, it returns the nearest opening brace that has no
    partner before the scanned offset. *)
Lemma scanBackward_Some (code : jsstring) (n : nat) (b : Z) (k : nat) :
  n <= length code -> (0 <= b)%Z ->
  scanBackward code n b = Some k ->
  k < n /\ code !! k = Some ch_lbrace
  /\ (b + braceBalance (slice code k n) = -1)%Z
  /\ forall j, k < j < n -> (0 <= b + braceBalance (slice code j n))%Z.
Proof.
  revert b. induction n as [|i IH]; intros b Hn Hb; [discriminate|].
  destruct (lookup_lt_is_Some_2 code i ltac:(lia)) as [c Hc].
  rewrite (scanBackward_step _ _ _ c Hc).
  pose proof (braceBalance_slice_S code i) as HS.
  pose proof (braceBalance_slice_nil code i) as H0.
  destruct ((c =? ch_lbrace)%N && (b + braceDelta c <? 0)%Z) eqn:E.
  - apply andb_true_iff in E as [El E]. apply Z.ltb_lt in E. apply N.eqb_eq in El.
    subst c. intros [= <-].
    assert (braceDelta ch_lbrace = (-1)%Z) by reflexivity.
    repeat split; [lia | exact Hc | rewrite (HS i _ Hc) by lia; lia |].
    intros j Hj. lia.
  - assert (Hb' : (0 <= b + braceDelta c)%Z).
    { unfold braceDelta in *.
      destruct (c =? ch_rbrace)%N, (c =? ch_lbrace)%N; simpl in E;
        first [lia | apply Z.ltb_ge in E; lia]. }
    intros H. apply IH in H as (Hk & Hck & Hbal & Hmin); [|lia|lia].
    repeat split; [lia | exact Hck | rewrite (HS k c Hc) by lia; lia |].
    intros j Hj. rewrite (HS j c Hc) by lia.
    destruct (decide (j = i)) as [-> | Hne]; [lia|].
    specialize (Hmin j ltac:(lia)). lia.
Qed.

(** ** Scope resolver: claims *)

(** C1 (as stated, refuted): a marker at top level, after other statements,
    makes [getDirectiveScope] return [null], not a scope named "global". *)
Lemma C1_counterexample :
  ~ (forall code directiveName r mt,
       directivePattern directiveName = Normal r ->
       regExpExec r code 0 = Some mt ->
       scanBackward code (index mt) 0 = None ->
       getDirectiveScope code directiveName = Normal (Some (globalScope code))).
Proof.
  intros H.
  destruct (regExpExec (regexLiteral (dq ++ js "use\s+test" ++ dq)) topLevelExample 0)
    as [mt|] eqn:E; [|vm_compute in E; discriminate E].
  specialize (H topLevelExample (js "test") _ mt eq_refl E).
  vm_compute in E. injection E as <-.
  specialize (H eq_refl). vm_compute in H. discriminate H.
Qed.

(** C1 (amended): when the marker occurs and no suffix of the text before its
    first occurrence has an unmatched opening brace (the backward scan finds
    none), [getDirectiveScope] returns [null]. *)
Theorem getDirectiveScope_top_level_null
    (code directiveName : jsstring) (r : regex) (mt : rmatch) :
  directivePattern directiveName = Normal r ->
  regExpExec r code 0 = Some mt ->
  (forall j, j < index mt -> (0 <= braceBalance (slice code j (index mt)))%Z) ->
  getDirectiveScope code directiveName = Normal None.
Proof.
  intros Hr Hm Hbal. unfold getDirectiveScope. rewrite Hr. simpl. rewrite Hm.
  unfold findFunctionScopeAtIndex.
  apply regExpExec_Some in Hm as (Hi & _ & _).
  assert (Hs : scanBackward code (index mt) 0 = None).
  { apply (proj2 (scanBackward_None code (index mt) 0 ltac:(lia) ltac:(lia))).
    intros j Hj. specialize (Hbal j Hj). lia. }
  rewrite Hs. reflexivity.
Qed.

Lemma getDirectiveScope_top_level_null_witness :
  getDirectiveScope topLevelExample (js "test") = Normal None.
Proof.
  eapply (getDirectiveScope_top_level_null topLevelExample (js "test")).
  - vm_compute. reflexivity.
  - vm_compute. reflexivity.
  - cbn [index].
    refine (proj1 (scanBackward_None topLevelExample 13 0 _ _) _);
      [vm_compute; lia | lia | vm_compute; reflexivity].
Defined.

(** C2 (evaluation at the failing input): for a marker inside the second of two
    functions the scope starts at the brace of [b], yet its name is [a], the
    first [function]/[const] pattern of the text before the brace. *)
Theorem getDirectiveScope_name_of_first_function :
  scanBackward twoFunctionsExample 31 0 = Some 29
  /\ slice twoFunctionsExample 16 29 = js "function b() "
  /\ getDirectiveScope twoFunctionsExample (js "test")
     = Normal (Some (Scope (js "a")
                           (js "{ " ++ dq ++ js "use test" ++ dq ++ js " }") 29 43)).
Proof. vm_compute. repeat split. Qed.

(** The name is always taken from the leftmost match of the name pattern in
    the text before the brace. *)
Lemma findFunctionScopeAtIndex_name (code : jsstring) (i : nat) (scope : DirectiveScope) :
  findFunctionScopeAtIndex code i = Some scope ->
  exists k mt,
    scanBackward code i 0 = Some k
    /\ regExpExec functionNamePattern (substring code 0 k) 0 = Some mt
    /\ functionName scope = default [] (capture (substring code 0 k) mt 1)
    /\ forall j, j < index mt -> ~ matchesAt functionNamePattern (substring code 0 k) j.
Proof.
  unfold findFunctionScopeAtIndex.
  destruct (scanBackward code i 0) as [k|]; [|discriminate].
  destruct (regExpExec functionNamePattern (substring code 0 k) 0) as [mt|] eqn:E;
    [|discriminate].
  intros [= <-]. exists k, mt. split; [reflexivity|]. split; [exact E|].
  split; [reflexivity|].
  intros j Hj Hy. unfold matchesAt in Hy. destruct Hy as [y Hy].
  apply regExpExec_Some in E as (_ & _ & Hn).
  rewrite (Hn j) in Hy by lia. discriminate.
Qed.

(** C5: a marker preceded by white space only makes [getAllDirectiveScopes]
    return the single scope "global" covering the whole text, whatever else
    the text contains. *)
Theorem getAllDirectiveScopes_leading_marker
    (fuel : nat) (code directiveName : jsstring) (r : regex) (i : nat) :
  directivePattern directiveName = Normal r ->
  i <= length code ->
  matchesAt r code i ->
  forallb is_space (take i code) = true ->
  0 < fuel ->
  getAllDirectiveScopes fuel code directiveName
  = Normal (Some [Scope (js "global") code 0 (length code)]).
Proof.
  intros Hr Hi Hm Hsp Hfuel. unfold getAllDirectiveScopes. rewrite Hr. simpl.
  destruct fuel as [|fuel]; [lia|]. cbn [allScopesLoop].
  destruct (regExpExec_leftmost r code 0 i ltac:(lia) Hm) as (mt & -> & Hle).
  rewrite substring_0 by lia.
  rewrite (trim_all_space (take (index mt) code)).
  - rewrite orb_true_r. reflexivity.
  - apply (forallb_take _ _ i); [lia | exact Hsp].
Qed.

Lemma getAllDirectiveScopes_leading_marker_witness :
  getAllDirectiveScopes 1 leadingMarkerExample (js "test")
  = Normal (Some [Scope (js "global") leadingMarkerExample 0
                        (length leadingMarkerExample)]).
Proof.
  eapply (getAllDirectiveScopes_leading_marker 1 leadingMarkerExample (js "test") _ 3).
  - vm_compute. reflexivity.
  - vm_compute. lia.
  - vm_compute. eexists. reflexivity.
  - vm_compute. reflexivity.
  - lia.
Defined.


(** ** [addImport] *)

(** The statement occurs in the text as a contiguous substring. *)
Lemma includes_prefix (s t : jsstring) : includes (s ++ t) s = true.
Proof. apply includes_spec. exists [], t. reflexivity. Qed.

(** C7: [addImport] is idempotent, and it returns the text unchanged whenever
    the statement already occurs in it. *)
Theorem addImport_idempotent (code importStatement : jsstring) :
  addImport (addImport code importStatement) importStatement
  = addImport code importStatement
  /\ (includes code importStatement = true ->
      addImport code importStatement = code).
Proof.
  split.
  - unfold addImport at 2 3. destruct (includes code importStatement) eqn:E.
    + unfold addImport. rewrite E. reflexivity.
    + unfold addImport. rewrite includes_prefix. reflexivity.
  - intros H. unfold addImport. rewrite H. reflexivity.
Qed.

Lemma addImport_idempotent_witness :
  addImport (js "import a from 'a';") (js "import a") = js "import a from 'a';".
Proof.
  apply (addImport_idempotent (js "import a from 'a';") (js "import a")).
  vm_compute. reflexivity.
Defined.

(** C9: the duplicate check is substring containment.  The text is returned
    unchanged whenever the statement occurs anywhere in it, and otherwise the
    statement and a line break are put in front. *)
Theorem addImport_substring_check (code importStatement : jsstring) :
  ((exists pre post, code = pre ++ importStatement ++ post) ->
   addImport code importStatement = code)
  /\ (~ (exists pre post, code = pre ++ importStatement ++ post) ->
      addImport code importStatement = importStatement ++ [ch_newline] ++ code).
Proof.
  unfold addImport. split; intros H.
  - apply includes_spec in H. rewrite H. reflexivity.
  - destruct (includes code importStatement) eqn:E; [|reflexivity].
    exfalso. apply H, includes_spec, E.
Qed.

(** The occurrence used here sits inside a comment, not in an import line. *)
Lemma addImport_substring_check_witness :
  addImport (js "// import x from 'x'") (js "import x from 'x'")
  = js "// import x from 'x'"
  /\ addImport (js "let y;") (js "import x from 'x'")
     = js "import x from 'x'" ++ [ch_newline] ++ js "let y;".
Proof.
  split.
  - apply (addImport_substring_check (js "// import x from 'x'") (js "import x from 'x'")).
    exists (js "// "), []. reflexivity.
  - apply (addImport_substring_check (js "let y;") (js "import x from 'x'")).
    intros H. apply includes_spec in H. vm_compute in H. discriminate H.
Defined.

(** ** Directive registry *)

Lemma reachable_no_own_proto (d : Directives) :
  reachable d -> own d !! key_proto = None.
Proof.
  induction 1 as [|d h _ IH|d _ _]; [reflexivity| |reflexivity].
  unfold DirectiveRegistry.register, setProperty.
  destruct (decide (name h = key_proto)) as [E|E].
  - rewrite bool_decide_eq_true_2 by exact E. exact IH.
  - rewrite bool_decide_eq_false_2 by exact E. simpl.
    rewrite lookup_insert_ne by exact E. exact IH.
Qed.

(** Registering twice under one name: the later handler is the one found. *)
Lemma register_last_write_wins (d : Directives) (a a' : DirectiveHandler) :
  reachable d -> name a = name a' ->
  DirectiveRegistry.getDirective
    (DirectiveRegistry.register (DirectiveRegistry.register d a) a') (name a')
  = VHandler a'.
Proof.
  intros Hd Hn.
  pose proof (reachable_no_own_proto _ Hd) as Hp.
  unfold DirectiveRegistry.getDirective, DirectiveRegistry.register,
    setProperty, getProperty. rewrite Hn.
  destruct (decide (name a' = key_proto)) as [E|E].
  - rewrite !bool_decide_eq_true_2 by exact E. simpl. rewrite E, Hp. reflexivity.
  - rewrite !bool_decide_eq_false_2 by exact E. simpl.
    rewrite lookup_insert_eq. reflexivity.
Qed.

(** After [clear] the only names [isDirective] still accepts are those every
    object inherits. *)
Lemma isDirective_after_clear (d : Directives) (key : jsstring) :
  DirectiveRegistry.isDirective (DirectiveRegistry.clear d) key
  = bool_decide (key = key_proto) || bool_decide (key ∈ objectPrototypeKeys).
Proof.
  unfold DirectiveRegistry.isDirective, DirectiveRegistry.clear, hasProperty. simpl.
  rewrite lookup_empty.
  rewrite (bool_decide_eq_false_2 (is_Some None)) by (intros [? ?]; discriminate).
  reflexivity.
Qed.

(** C8 (evaluation at the failing input): [toString] is registered and the
    registry is cleared; [isDirective] still answers [true], because [in]
    also finds the properties inherited from [Object.prototype]. *)
Theorem isDirective_true_after_clear :
  DirectiveRegistry.isDirective
    (DirectiveRegistry.clear
       (DirectiveRegistry.register DirectiveRegistry.new toStringHandler))
    (js "toString") = true.
Proof. rewrite isDirective_after_clear. vm_compute. reflexivity. Qed.

(** ** The forward scan *)

Lemma forwardStep_fwdAt (code : jsstring) (s n : nat) (st : fwd) (ch : char) :
  fwdAt code s n st -> code !! (s + 1 + n) = Some ch ->
  fwdAt code s (S n) (forwardStep code ch st).
Proof.
  intros (Hi & Hb & Hq) Hch. unfold fwdAt, forwardStep.
  cbn [loopQuote loopDepth]. rewrite Hch, Hi.
  replace (s + 1 + n - 1) with (s + n) by lia.
  destruct (inString st) eqn:Ein.
  - destruct Hq as [Hq [q Hsome]]. rewrite <- Hq, Hsome. simpl.
    rewrite bool_decide_Some_eqb.
    destruct ((ch =? q)%N
              && negb (bool_decide (code !! (s + n) = Some ch_backslash))) eqn:E; simpl.
    + repeat split; [lia|]. rewrite Hb. unfold braceDelta.
      destruct (ch =? ch_lbrace)%N eqn:El, (ch =? ch_rbrace)%N eqn:Er; try lia.
      exfalso. eapply rbrace_not_lbrace; eassumption.
    + repeat split; [lia | exact Hb | eauto].
  - rewrite Hq. simpl. destruct (is_quote ch) eqn:Eq; simpl.
    + repeat split; [lia | exact Hb | eauto].
    + repeat split; [lia|]. rewrite Hb. unfold braceDelta.
      destruct (ch =? ch_lbrace)%N eqn:El, (ch =? ch_rbrace)%N eqn:Er; try lia.
      exfalso. eapply rbrace_not_lbrace; eassumption.
Qed.

(** The loop stops at the first iteration count at which the depth is not
    positive, or at the end of the text. *)
Lemma scanForward_spec (code : jsstring) (s fuel n : nat) (st : fwd) :
  fwdAt code s n st ->
  length code <= s + 1 + n + fuel ->
  exists n', n <= n'
    /\ fwdAt code s n' (scanForward code fuel st)
    /\ (forall k, n <= k < n' -> (0 < loopDepth code s k)%Z /\ s + 1 + k < length code)
    /\ ((loopDepth code s n' <= 0)%Z \/ length code <= s + 1 + n').
Proof.
  revert n st. induction fuel as [|fuel IH]; intros n st Hst Hfuel.
  - exists n. simpl. split; [lia|]. split; [exact Hst|].
    split; [intros k Hk; lia | right; lia].
  - cbn [scanForward]. pose proof Hst as (Hi & Hb & _). rewrite Hi.
    destruct (code !! (s + 1 + n)) as [ch|] eqn:Ech.
    + destruct (0 <? braceCount st)%Z eqn:Epos.
      * apply Z.ltb_lt in Epos.
        destruct (IH (S n) (forwardStep code ch st)) as (n' & Hn' & Hf & Hmin & Hend).
        { apply forwardStep_fwdAt; assumption. }
        { lia. }
        exists n'. split; [lia|]. split; [exact Hf|]. split; [|exact Hend].
        intros k Hk. destruct (decide (k = n)) as [-> | Hne].
        -- split; [lia|]. apply lookup_lt_Some in Ech. lia.
        -- apply Hmin. lia.
      * apply Z.ltb_ge in Epos. exists n. split; [lia|]. split; [exact Hst|].
        split; [intros k Hk; lia | left; lia].
    + apply lookup_ge_None in Ech. exists n. split; [lia|]. split; [exact Hst|].
      split; [intros k Hk; lia | right; lia].
Qed.

Lemma loopDepth_step (code : jsstring) (s n : nat) :
  (loopDepth code s (S n) = loopDepth code s n
   \/ (loopDepth code s (S n) = loopDepth code s n + 1)%Z
   \/ ((loopDepth code s (S n) = loopDepth code s n - 1)%Z
       /\ code !! (s + 1 + n) = Some ch_rbrace)).
Proof.
  cbn [loopDepth]. destruct (code !! (s + 1 + n)) as [ch|] eqn:E; [|left; reflexivity].
  destruct (loopQuote code s (S n)); [left; reflexivity|].
  unfold braceDelta. destruct (ch =? ch_rbrace)%N eqn:Er.
  - apply N.eqb_eq in Er. subst ch. right. right. split; [lia | reflexivity].
  - destruct (ch =? ch_lbrace)%N; [right; left; lia | left; lia].
Qed.

(** *** The loop against the string regions of the language *)

Lemma forallb_seq_lt (p : nat -> bool) (k n : nat) :
  forallb p (seq 0 k) = true -> n < k -> p n = true.
Proof.
  intros H Hn. rewrite forallb_forall in H. apply H, in_seq. lia.
Qed.

Lemma is_quote_not_backslash (q : char) : is_quote q = true -> (ch_backslash =? q)%N = false.
Proof.
  unfold is_quote. intros H. apply N.eqb_neq. intros <-. vm_compute in H. discriminate H.
Qed.

(** As long as no closing quote stands after an escaped backslash, the loop
    holds the same literal open as the language does; an escape is pending
    only right after a backslash inside a literal. *)
Lemma loopQuote_literalAfter (code : jsstring) (s e n : nat) :
  noQuoteAfterEscapedBackslash code s e = true ->
  e <= length code ->
  n <= e - (s + 1) ->
  loopQuote code s n = quoteAfter code s n
  /\ (forall q, quoteAfter code s n = Some q -> is_quote q = true)
  /\ (snd (literalAfter code s n) = true ->
      code !! (s + n) = Some ch_backslash /\ is_Some (quoteAfter code s n)).
Proof.
  intros Hok He. unfold quoteAfter. induction n as [|n IH]; intros Hn.
  - cbn. repeat split; [discriminate | discriminate | discriminate].
  - destruct (IH ltac:(lia)) as (Hq & Hquote & Hesc). clear IH.
    pose proof (forallb_seq_lt _ _ n Hok ltac:(lia)) as Hn'. cbn beta in Hn'.
    cbn [loopQuote literalAfter].
    destruct (code !! (s + 1 + n)) as [ch|] eqn:Ech.
    + rewrite Hq. destruct (literalAfter code s n) as [[q|] esc] eqn:El; cbn [fst snd] in *.
      * destruct esc.
        -- destruct (Hesc eq_refl) as [Hb _]. rewrite Hb.
           rewrite bool_decide_eq_true_2 by reflexivity. rewrite andb_false_r.
           cbn [fst snd]. repeat split; [exact Hquote | discriminate | discriminate].
        -- destruct (ch =? ch_backslash)%N eqn:Eb.
           ++ apply N.eqb_eq in Eb. subst ch.
              rewrite (is_quote_not_backslash q (Hquote q eq_refl)). cbn [andb fst snd].
              repeat split; [exact Hquote | | eauto].
              rewrite <- Ech. f_equal. lia.
           ++ destruct (ch =? q)%N eqn:Eq; cbn [andb fst snd].
              ** cbn [negb andb] in Hn'. apply negb_true_iff in Hn'. rewrite Hn'.
                 cbn [negb]. repeat split; [discriminate | discriminate | discriminate].
              ** repeat split; [exact Hquote | discriminate | discriminate].
      * destruct (is_quote ch) eqn:Eq; cbn [fst snd].
        -- repeat split; [intros q' [= <-]; exact Eq | discriminate | discriminate].
        -- repeat split; [discriminate | discriminate | discriminate].
    + apply lookup_ge_None in Ech. lia.
Qed.

Lemma loopDepth_depthAfter (code : jsstring) (s e n : nat) :
  noQuoteAfterEscapedBackslash code s e = true ->
  e <= length code ->
  n <= e - (s + 1) ->
  loopDepth code s n = depthAfter code s n.
Proof.
  intros Hok He. induction n as [|n IH]; intros Hn; [reflexivity|].
  cbn [loopDepth depthAfter]. rewrite IH by lia.
  destruct (loopQuote_literalAfter code s e (S n) Hok He Hn) as (-> & _). reflexivity.
Qed.

Lemma findFunctionScopeAtIndex_extent (code : jsstring) (i : nat) (scope : DirectiveScope) :
  i <= length code ->
  findFunctionScopeAtIndex code i = Some scope ->
  noQuoteAfterEscapedBackslash code (startIndex scope) (endIndex scope) = true ->
  scopeExtent code scope.
Proof.
  intros Hi. unfold findFunctionScopeAtIndex.
  destruct (scanBackward code i 0) as [s|] eqn:Es; [|discriminate].
  destruct (regExpExec functionNamePattern (substring code 0 s) 0); [|discriminate].
  apply scanBackward_Some in Es as (Hs & Hbrace & _); [|lia|lia].
  destruct (scanForward_spec code s (length code) 0
              (Fwd (s + 1) 1 false None)) as (n' & _ & Hf & Hmin & Hend).
  { repeat split. cbn. lia. }
  { lia. }
  destruct Hf as (Hidx & Hbc & _).
  intros [= <-]. unfold scopeExtent. cbn [startIndex endIndex functionCode].
  rewrite Hidx. intros Hok.
  assert (Hlen : s + 1 + n' <= length code).
  { destruct n' as [|n']; [lia|]. specialize (Hmin n' ltac:(lia)). lia. }
  assert (Hagree : forall n, n <= n' -> loopDepth code s n = depthAfter code s n).
  { intros n Hn. apply (loopDepth_depthAfter code s (s + 1 + n')); [exact Hok | lia | lia]. }
  split; [exact Hbrace|]. split; [lia|].
  split; [apply substring_slice; lia|].
  destruct (decide (0 < loopDepth code s n')%Z) as [Hpos|Hnpos].
  - right. destruct Hend as [Hend|Hend]; [lia|]. split; [|lia].
    intros n Hn. rewrite <- Hagree by lia.
    destruct (decide (n = n')) as [-> | Hne]; [exact Hpos|].
    apply Hmin. lia.
  - left. destruct n' as [|n']; [cbn in Hnpos; lia|].
    replace (s + 1 + S n' - 1) with (s + S n') by lia.
    pose proof (Hmin n' ltac:(lia)) as [Hprev _].
    destruct (loopDepth_step code s n') as [H|[H|[H Hch]]]; try lia.
    unfold balancingBrace. replace (s + S n' - s) with (S n') by lia.
    split; [lia|]. split; [rewrite <- Hch; f_equal; lia|].
    split; [rewrite <- Hagree by lia; lia|].
    intros n Hn. rewrite <- Hagree by lia. apply Hmin. lia.
Qed.

Lemma allScopesLoop_extent (r : regex) (code : jsstring) (fuel lastIndex : nat)
    (acc scopes : list DirectiveScope) :
  allScopesLoop r code fuel lastIndex acc = Some scopes ->
  (forall scope,
     scope ∈ acc ->
     noQuoteAfterEscapedBackslash code (startIndex scope) (endIndex scope) = true ->
     scopeExtent code scope) ->
  forall scope,
    scope ∈ scopes -> scope <> globalScope code ->
    noQuoteAfterEscapedBackslash code (startIndex scope) (endIndex scope) = true ->
    scopeExtent code scope.
Proof.
  revert lastIndex acc. induction fuel as [|fuel IH]; intros lastIndex acc;
    cbn [allScopesLoop]; [discriminate|].
  destruct (regExpExec r code lastIndex) as [mt|] eqn:E.
  - destruct ((index mt =? 0) || jsstring_eqb (trim (substring code 0 (index mt))) []).
    + intros [= <-] _ scope Hin Hne. apply list_elem_of_singleton in Hin. contradiction.
    + intros H Hacc. apply (IH _ _ H).
      apply regExpExec_Some in E as (Hi & _ & _).
      destruct (findFunctionScopeAtIndex code (index mt)) as [sc|] eqn:Ef; [|exact Hacc].
      intros scope Hin. apply elem_of_app in Hin as [Hin|Hin]; [auto|].
      apply list_elem_of_singleton in Hin. subst scope.
      apply (findFunctionScopeAtIndex_extent code (index mt)); [lia | exact Ef].
  - intros [= <-] Hacc scope Hin _. auto.
Qed.

(** C3 (as stated, refuted): in [function f() { "use test" }] the closing
    brace is at offset 26, the last one, while [endIndex] is 27. *)
Lemma C3_counterexample :
  exists scope,
    getDirectiveScope oneFunctionExample (js "test") = Normal (Some scope)
    /\ oneFunctionExample !! 26 = Some ch_rbrace
    /\ endIndex scope = 27
    /\ ~ balancingBrace oneFunctionExample (startIndex scope) (endIndex scope).
Proof.
  eexists. split; [vm_compute; reflexivity|]. split; [reflexivity|].
  split; [reflexivity|]. intros (_ & H & _). vm_compute in H. discriminate H.
Qed.

(** C3 (amended): the [endIndex] of every scope other than the global one is
    one past the offset of the brace that balances the brace at [startIndex],
    braces inside string regions not counted, and the length of the text when
    nothing balances that brace.  This is stated for the scopes in whose text
    no closing quote stands directly after an escaped backslash. *)
Theorem scope_endIndex_past_balancing_brace (code directiveName : jsstring) :
  (forall scope,
     getDirectiveScope code directiveName = Normal (Some scope) ->
     noQuoteAfterEscapedBackslash code (startIndex scope) (endIndex scope) = true ->
     scopeExtent code scope)
  /\ (forall fuel scopes scope,
        getAllDirectiveScopes fuel code directiveName = Normal (Some scopes) ->
        scope ∈ scopes -> scope <> globalScope code ->
        noQuoteAfterEscapedBackslash code (startIndex scope) (endIndex scope) = true ->
        scopeExtent code scope).
Proof.
  split.
  - intros scope. unfold getDirectiveScope.
    destruct (directivePattern directiveName) as [r| |]; simpl; try discriminate.
    destruct (regExpExec r code 0) as [mt|] eqn:E; [|discriminate].
    intros [= H]. apply regExpExec_Some in E as (Hi & _ & _).
    apply (findFunctionScopeAtIndex_extent code (index mt)); [lia | exact H].
  - intros fuel scopes scope. unfold getAllDirectiveScopes.
    destruct (directivePattern directiveName) as [r| |]; simpl; try discriminate.
    intros [= H]. apply (allScopesLoop_extent _ _ _ _ _ _ H).
    intros sc Hin. apply elem_of_nil in Hin. contradiction.
Qed.

Lemma scope_endIndex_past_balancing_brace_witness :
  scopeExtent oneFunctionExample
    (Scope (js "f") (js "{ " ++ dq ++ js "use test" ++ dq ++ js " }") 13 27).
Proof.
  apply (proj1 (scope_endIndex_past_balancing_brace oneFunctionExample (js "test"))).
  - vm_compute. reflexivity.
  - vm_compute. reflexivity.
Defined.

(** The case left out above.  In [escapedBackslashExample] the brace at
    offset 41 balances the brace of [f] at offset 13, outside every literal;
    the loop takes the quote at offset 38 for escaped, because a backslash
    stands before it, keeps the literal open and runs to the end of the
    text. *)
Lemma escaped_backslash_scope :
  getDirectiveScope escapedBackslashExample (js "test")
  = Normal (Some (Scope (js "f") (drop 13 escapedBackslashExample) 13
                        (length escapedBackslashExample)))
  /\ length escapedBackslashExample = 58
  /\ balancingBrace escapedBackslashExample 13 41
  /\ noQuoteAfterEscapedBackslash escapedBackslashExample 13 58 = false.
Proof.
  split; [vm_compute; reflexivity|]. split; [reflexivity|].
  split; [|vm_compute; reflexivity].
  split; [lia|]. split; [reflexivity|]. split; [vm_compute; reflexivity|].
  intros n Hn. change (41 - 13) with 28 in Hn.
  do 28 (destruct n as [|n]; [vm_compute; reflexivity|]). lia.
Qed.

(** ** The pattern parser on parameters without metacharacters *)

Lemma parse_plain (C rest : jsstring) stk alts cur g :
  plain C = true ->
  parse (C ++ rest) (PState stk alts cur g None)
  = parse rest (PState stk alts (map (TAtom ∘ RChar) (reverse C) ++ cur) g None).
Proof.
  revert cur. induction C as [|c C IH]; intros cur HC; [reflexivity|].
  cbn [plain forallb] in HC. apply andb_true_iff in HC as [Hc HC].
  apply negb_true_iff in Hc. unfold is_syntax_char in Hc.
  repeat (apply orb_false_iff in Hc as [Hc ?]).
  cbn [app parse pclass].
  repeat match goal with H : (c =? _)%N = false |- _ => rewrite H; clear H end.
  cbn [orb]. unfold push_term. cbn [pstack palts pcur pgroups pclass].
  rewrite IH by exact HC. rewrite reverse_cons, map_app, <- app_assoc. reflexivity.
Qed.

Lemma parse_plain_state (C rest : jsstring) (st : pstate) :
  plain C = true -> pclass st = None ->
  parse (C ++ rest) st
  = parse rest (PState (pstack st) (palts st)
                       (map (TAtom ∘ RChar) (reverse C) ++ pcur st) (pgroups st) None).
Proof.
  intros HC Hst. destruct st as [stk alts cur g cls]. cbn in Hst. subst cls.
  apply parse_plain. exact HC.
Qed.

Lemma map_reverse {A B} (f : A -> B) (l : list A) :
  map f (reverse l) = reverse (map f l).
Proof.
  induction l as [|x l IH]; [reflexivity|].
  cbn [map]. rewrite !reverse_cons, map_app, IH. reflexivity.
Qed.

Lemma foldr_RSeq_chars (C : jsstring) (k : regex) :
  foldr RSeq k (map term_regex (map (TAtom ∘ RChar) C)) = chars C k.
Proof.
  unfold chars. induction C as [|c C IH]; [reflexivity|]. cbn. rewrite IH. reflexivity.
Qed.

(** The terms pushed for a plain parameter become a [chars] prefix of the
    sequence that is built from them. *)
Lemma build_seq_chars (C : jsstring) (cur later : list term) :
  build_seq (later ++ map (TAtom ∘ RChar) (reverse C) ++ cur)
  = foldr RSeq (chars C (foldr RSeq REmpty (map term_regex (reverse later))))
          (map term_regex (reverse cur)).
Proof.
  unfold build_seq. rewrite !reverse_app, !map_app, !foldr_app.
  rewrite <- (map_reverse (TAtom ∘ RChar)), reverse_involutive, foldr_RSeq_chars.
  reflexivity.
Qed.

(** [new RegExp(s)] for a parameter without metacharacters never throws and
    gives the pattern that matches [s] literally. *)
Lemma RegExp_plain (s : jsstring) :
  plain s = true -> RegExp s = Normal (chars s REmpty).
Proof.
  intros Hs. unfold RegExp. rewrite <- (app_nil_r s) at 1.
  rewrite parse_plain by exact Hs. cbn [parse pclass pstack palts pcur build fold_left].
  rewrite <- (app_nil_l (map _ _ ++ [])).
  rewrite (build_seq_chars s [] []). reflexivity.
Qed.

(** ** Matching literal text *)

Lemma startsWith_cons (s p : jsstring) (c : char) :
  startsWith s (c :: p)
  = match s with [] => false | y :: s' => (c =? y)%N && startsWith s' p end.
Proof. destruct s; reflexivity. Qed.

Lemma m_chars (str s : jsstring) (k : regex) (x : mstate) (c : cont) :
  m str (chars s k) x c
  = if startsWith (drop (epos x) str) s
    then m str k (MState (epos x + length s) (captures x)) c
    else None.
Proof.
  revert x. induction s as [|a s IH]; intros [e caps]; cbn [epos captures].
  - cbn [chars foldr startsWith length]. rewrite Nat.add_0_r. reflexivity.
  - cbn [chars foldr m]. fold (chars s k). unfold char_step. cbn [epos captures].
    rewrite startsWith_cons.
    destruct (str !! e) as [y|] eqn:Ey.
    + rewrite (drop_S _ y _ Ey). destruct (a =? y)%N; [|reflexivity].
      rewrite IH. cbn [epos captures length andb].
      replace (S e + length s) with (e + S (length s)) by lia. reflexivity.
    + rewrite drop_ge by (apply lookup_ge_None; exact Ey). reflexivity.
Qed.

Lemma startsWith_drop_includes (code s : jsstring) (i : nat) :
  startsWith (drop i code) s = true -> includes code s = true.
Proof.
  intros H. apply startsWith_spec in H as [post H]. apply includes_spec.
  exists (take i code), post. rewrite <- H. symmetry. apply take_drop.
Qed.

(** A pattern that fails at once wherever the text does not continue with
    [s] has no match in a text that does not contain [s]. *)
Lemma regExpExec_absent (r : regex) (code s : jsstring) (lastIndex : nat) :
  (forall i, startsWith (drop i code) s = false -> m code r (MState i []) Some = None) ->
  includes code s = false ->
  regExpExec r code lastIndex = None.
Proof.
  intros Hr Hs. destruct (regExpExec r code lastIndex) as [mt|] eqn:E; [|reflexivity].
  apply regExpExec_Some in E as (_ & Hm & _). rewrite Hr in Hm; [discriminate|].
  destruct (startsWith (drop (index mt) code) s) eqn:E; [|reflexivity].
  apply startsWith_drop_includes in E. congruence.
Qed.

Lemma replaceAllWith_no_match (r : regex) (str : jsstring) (f : rmatch -> jsstring) :
  regExpExec r str 0 = None -> replaceAllWith r str f = str.
Proof.
  intros H. unfold replaceAllWith. cbn [replaceLoop]. rewrite H. apply substring_full.
Qed.

Lemma regExpExec_no_match (r : regex) (str : jsstring) :
  (forall i, ~ matchesAt r str i) -> regExpExec r str 0 = None.
Proof.
  intros H. destruct (regExpExec r str 0) as [mt|] eqn:E; [|reflexivity].
  apply regExpExec_Some in E as (_ & Hm & _). exfalso.
  apply (H (index mt)). unfold matchesAt. rewrite Hm. eauto.
Qed.

Ltac eval_js :=
  repeat match goal with
         | |- context [js ?s] =>
           let v := eval vm_compute in (js s) in change (js s) with v
         end;
  unfold dq.

Ltac parse_steps HC :=
  repeat first
    [ rewrite (parse_plain_state _ _ _ HC) by reflexivity
    | progress cbn [parse app pclass pstack palts pcur pgroups push_term open_group
                    close_group new_alternative quantify open_class add_item
                    close_class atom_escape class_escape class_escape_item
                    control_escape is_punct in_range starts_range is_digit
                    wrap_group N.eqb N.leb Pos.eqb N.compare Pos.compare
                    Pos.compare_cont andb orb negb fmap option_fmap option_map
                    compose] ].

Lemma m_prefix_absent (code s : jsstring) (K : regex) (i : nat) :
  startsWith (drop i code) s = false ->
  m code (chars s K) (MState i []) Some = None.
Proof. intros H. rewrite m_chars. cbn [epos]. rewrite H. reflexivity. Qed.

Lemma replaceAll_absent (code s template : jsstring) (K : regex) :
  includes code s = false ->
  replaceAll (chars s K) code template = code.
Proof.
  intros H. apply replaceAllWith_no_match.
  apply (regExpExec_absent _ _ s); [|exact H].
  intros i Hi. apply m_prefix_absent. exact Hi.
Qed.

(** For a component name without metacharacters the pattern of
    [replaceComponent] is accepted; it starts with the literal [<Name]. *)
Lemma replaceComponent_pattern (C : jsstring) :
  plain C = true ->
  exists K, RegExp (
    js "<" ++ C ++ js "(\s[^>]*)?>([^<]*(?:<(?!/?" ++ C
    ++ js "\b)[^<]*)*(?:<" ++ C ++ js "[^>]*>.*?</\s*" ++ C
    ++ js "\s*>)?[^<]*)(?:</\s*" ++ C ++ js "\s*>)?") = Normal (chars (60%N :: C) K).
Proof.
  intros HC. unfold RegExp. eval_js. parse_steps HC.
  eexists. f_equal.
  refine (build_seq_chars C [TAtom (RChar 60)] [_; _; _; _]).
Qed.

(** ** The matcher at a cursor

    [drop e str = sfx] reads: the text from offset [e] on is [sfx]. *)

Lemma cursor_lookup (str sfx : jsstring) (e : nat) (a : char) :
  drop e str = a :: sfx -> str !! e = Some a.
Proof.
  intros H. rewrite <- (Nat.add_0_r e), <- lookup_drop, H. reflexivity.
Qed.

Lemma cursor_next (str sfx : jsstring) (e : nat) (a : char) :
  drop e str = a :: sfx -> drop (S e) str = sfx.
Proof.
  intros H. replace (S e) with (1 + e) by lia.
  rewrite Nat.add_comm, <- drop_drop, H. reflexivity.
Qed.

Lemma cursor_skip (str s sfx : jsstring) (e : nat) :
  drop e str = s ++ sfx -> drop (e + length s) str = sfx.
Proof. intros H. rewrite <- drop_drop, H. apply drop_app_length. Qed.

Lemma cursor_end (str : jsstring) (e : nat) :
  drop e str = [] -> str !! e = None.
Proof.
  intros H. apply lookup_ge_None. apply (f_equal length) in H.
  rewrite length_drop in H. cbn in H. lia.
Qed.

Lemma cursor_length (str sfx : jsstring) (e : nat) (a : char) :
  drop e str = a :: sfx -> e + S (length sfx) = length str.
Proof.
  intros H. pose proof (cursor_lookup _ _ _ _ H) as Hl.
  apply lookup_lt_Some in Hl. apply (f_equal length) in H.
  rewrite length_drop in H. cbn in H. lia.
Qed.

Lemma char_step_hit (str sfx : jsstring) (p : char -> bool) (e : nat) caps (a : char)
    (c : cont) :
  drop e str = a :: sfx -> p a = true ->
  char_step str p (MState e caps) c = c (MState (S e) caps).
Proof.
  intros H Hp. unfold char_step. cbn [epos captures].
  rewrite (cursor_lookup _ _ _ _ H), Hp. reflexivity.
Qed.

Lemma char_step_miss (str sfx : jsstring) (p : char -> bool) (e : nat) caps (a : char)
    (c : cont) :
  drop e str = a :: sfx -> p a = false ->
  char_step str p (MState e caps) c = None.
Proof.
  intros H Hp. unfold char_step. cbn [epos captures].
  rewrite (cursor_lookup _ _ _ _ H), Hp. reflexivity.
Qed.

Lemma char_step_end (str : jsstring) (p : char -> bool) (e : nat) caps (c : cont) :
  drop e str = [] -> char_step str p (MState e caps) c = None.
Proof.
  intros H. unfold char_step. cbn [epos captures].
  rewrite (cursor_end _ _ H). reflexivity.
Qed.

Lemma m_chars_hit (str s sfx : jsstring) (k : regex) (e : nat) caps (c : cont) :
  drop e str = s ++ sfx ->
  m str (chars s k) (MState e caps) c = m str k (MState (e + length s) caps) c.
Proof.
  intros H. rewrite m_chars. cbn [epos captures]. rewrite H.
  rewrite (proj2 (startsWith_spec (s ++ sfx) s)) by eauto. reflexivity.
Qed.

Lemma reset_captures_nil (x : mstate) : reset_captures [] x = x.
Proof.
  destruct x as [e caps]. unfold reset_captures. cbn [epos captures existsb negb].
  f_equal. induction caps as [|p caps IH]; [reflexivity|]. cbn. rewrite IH. reflexivity.
Qed.

Lemma tryDown_shift (c : cont) (e : nat) caps (n : nat) :
  orelse (tryDown c (S e) caps n) (fun _ => c (MState e caps))
  = tryDown c e caps (S n).
Proof.
  induction n as [|n IH].
  - cbn [tryDown]. replace (e + 1) with (S e) by lia. reflexivity.
  - change (tryDown c (S e) caps (S n))
      with (orelse (c (MState (S e + S n) caps)) (fun _ => tryDown c (S e) caps n)).
    change (tryDown c e caps (S (S n)))
      with (orelse (c (MState (e + S (S n)) caps)) (fun _ => tryDown c e caps (S n))).
    replace (S e + S n) with (e + S (S n)) by lia.
    destruct (c (MState (e + S (S n)) caps)); [reflexivity|].
    cbn [orelse]. exact IH.
Qed.

(** A greedy star over a one-character class: the run of code units in the
    class is consumed whole, and the continuation is tried backwards. *)
Lemma repeat_star_run (str run sfx : jsstring) (p : char -> bool) (fuel e : nat) caps
    (c : cont) :
  drop e str = run ++ sfx ->
  forallb p run = true ->
  match sfx with [] => True | a :: _ => p a = false end ->
  length run < fuel ->
  repeat_star (char_step str p) [] true fuel (MState e caps) c
  = tryDown c e caps (length run).
Proof.
  revert e fuel. induction run as [|a run IH]; intros e fuel Hd Hrun Hsfx Hfuel;
    (destruct fuel as [|fuel]; [cbn in Hfuel; lia|]);
    cbn [repeat_star]; rewrite reset_captures_nil.
  - cbn [app] in Hd. cbn [length tryDown]. destruct sfx as [|b sfx'].
    + rewrite (char_step_end _ _ _ _ _ Hd). reflexivity.
    + rewrite (char_step_miss _ _ _ _ _ _ _ Hd Hsfx). reflexivity.
  - cbn [app forallb] in Hd, Hrun. apply andb_true_iff in Hrun as [Ha Hrun].
    rewrite (char_step_hit _ _ _ _ _ _ _ Hd Ha). cbn [epos].
    replace (S e =? e) with false by (symmetry; apply Nat.eqb_neq; lia).
    cbn [length] in Hfuel.
    rewrite (IH (S e) fuel (cursor_next _ _ _ _ Hd) Hrun Hsfx ltac:(lia)).
    apply tryDown_shift.
Qed.

Lemma tryDown_first (c : cont) (e : nat) caps (n : nat) (z : mstate) :
  c (MState (e + n) caps) = Some z -> tryDown c e caps n = Some z.
Proof.
  destruct n as [|n]; cbn [tryDown]; intros H.
  - rewrite Nat.add_0_r in H. exact H.
  - rewrite H. reflexivity.
Qed.

Lemma tryDown_skip (c : cont) (e : nat) caps (n k : nat) :
  k <= n ->
  (forall j, k < j <= n -> c (MState (e + j) caps) = None) ->
  tryDown c e caps n = tryDown c e caps k.
Proof.
  induction n as [|n IH]; intros Hk Hnone.
  - replace k with 0 by lia. reflexivity.
  - destruct (decide (k = S n)) as [-> | Hne]; [reflexivity|].
    cbn [tryDown]. rewrite (Hnone (S n)) by lia. cbn [orelse].
    apply IH; [lia|]. intros j Hj. apply Hnone. lia.
Qed.

Ltac normalize_build :=
  unfold build, build_seq; cbn [fold_left];
  repeat rewrite ?reverse_cons, ?reverse_app, ?reverse_nil, ?map_app, ?foldr_app;
  repeat rewrite <- (map_reverse (TAtom ∘ RChar)), ?reverse_involutive;
  cbn [map foldr term_regex app reverse rev_append];
  repeat rewrite ?foldr_RSeq_chars, ?map_app, ?foldr_app;
  cbn [map foldr term_regex app reverse rev_append].

(** ** The patterns of [addProp] and [removeProp] *)

Lemma addProp_pattern (C : jsstring) :
  plain C = true ->
  RegExp (js "(<" ++ C ++ js "(?:\s[^>]*)?)([\s/>])") = Normal (addPropPattern C).
Proof.
  intros HC. unfold RegExp. eval_js. parse_steps HC. normalize_build. reflexivity.
Qed.

Lemma removeProp_pattern (C P : jsstring) :
  plain C = true -> plain P = true ->
  RegExp (js "<" ++ C ++ js "[^>]*" ++ propPatternSource P ++ js "[^>]*>")
  = Normal (removePropPattern C P).
Proof.
  intros HC HP. unfold RegExp, propPatternSource. eval_js. rewrite <- ?app_assoc.
  parse_steps HC. parse_steps HP. parse_steps HC. normalize_build. reflexivity.
Qed.

Lemma propPattern_source (P : jsstring) :
  plain P = true ->
  RegExp (propPatternSource P) = Normal (propPattern P REmpty).
Proof.
  intros HP. unfold RegExp, propPatternSource. eval_js. rewrite <- ?app_assoc.
  parse_steps HP. normalize_build. reflexivity.
Qed.

(** ** One match, one replacement *)

Lemma search_first (r : regex) (str : jsstring) (fuel i k : nat) (y : mstate) :
  (forall j, i <= j < i + k -> m str r (MState j []) Some = None) ->
  m str r (MState (i + k) []) Some = Some y ->
  k < fuel ->
  search r str fuel i = Some (RMatch (i + k) y).
Proof.
  revert i fuel. induction k as [|k IH]; intros i fuel Hnone Hy Hfuel;
    (destruct fuel as [|fuel]; [lia|]); cbn [search].
  - rewrite Nat.add_0_r in *. rewrite Hy. reflexivity.
  - rewrite (Hnone i) by lia.
    replace (i + S k) with (S i + k) in * by lia.
    apply IH; [intros j Hj; apply Hnone; lia | exact Hy | lia].
Qed.

Lemma regExpExec_first (r : regex) (str : jsstring) (lastIndex i : nat) (y : mstate) :
  lastIndex <= i <= length str ->
  (forall j, lastIndex <= j < i -> m str r (MState j []) Some = None) ->
  m str r (MState i []) Some = Some y ->
  regExpExec r str lastIndex = Some (RMatch i y).
Proof.
  intros Hi Hnone Hy. unfold regExpExec.
  replace (length str <? lastIndex) with false by (symmetry; apply Nat.ltb_ge; lia).
  replace i with (lastIndex + (i - lastIndex)) in * by lia.
  apply search_first; [intros j Hj; apply Hnone; lia | exact Hy | lia].
Qed.

Lemma regExpExec_none (r : regex) (str : jsstring) (lastIndex : nat) :
  (forall j, lastIndex <= j <= length str -> m str r (MState j []) Some = None) ->
  regExpExec r str lastIndex = None.
Proof.
  intros H. destruct (regExpExec r str lastIndex) as [mt|] eqn:E; [|reflexivity].
  apply regExpExec_Some in E as (Hi & Hm & _). rewrite H in Hm by lia. discriminate.
Qed.

(** A text with exactly one, non-empty, match: the text before it, the
    replacement, the text after it. *)
Lemma replaceAllWith_single (r : regex) (str : jsstring) (f : rmatch -> jsstring)
    (mt : rmatch) :
  regExpExec r str 0 = Some mt ->
  index mt < epos (final mt) ->
  regExpExec r str (epos (final mt)) = None ->
  replaceAllWith r str f
  = substring str 0 (index mt) ++ f mt
    ++ substring str (epos (final mt)) (length str).
Proof.
  intros H1 Hne H2. unfold replaceAllWith. cbn [replaceLoop]. rewrite H1.
  replace (epos (final mt) =? index mt) with false
    by (symmetry; apply Nat.eqb_neq; lia).
  cbn [Nat.leb]. rewrite H2. reflexivity.
Qed.

(** ** Equations of the matcher *)

Lemma m_seq str r1 r2 x c :
  m str (RSeq r1 r2) x c = m str r1 x (fun y => m str r2 y c).
Proof. reflexivity. Qed.

Lemma m_empty str x c : m str REmpty x c = c x.
Proof. reflexivity. Qed.

Lemma m_group str i r x c :
  m str (RGroup i r) x c
  = m str r x (fun y => c (set_capture i (epos x) (epos y) y)).
Proof. reflexivity. Qed.

Lemma m_alt str r1 r2 x c :
  m str (RAlt r1 r2) x c = orelse (m str r1 x c) (fun _ => m str r2 x c).
Proof. reflexivity. Qed.

Lemma m_opt str r x c :
  m str (RQuant QOpt true r) x c
  = orelse (m str r (reset_captures (groups r) x)
              (fun y => if epos y =? epos x then None else c y))
           (fun _ => c x).
Proof. reflexivity. Qed.

Lemma m_char_hit (str sfx : jsstring) (a : char) (e : nat) caps (c : cont) :
  drop e str = a :: sfx ->
  m str (RChar a) (MState e caps) c = c (MState (S e) caps).
Proof. intros H. apply (char_step_hit _ _ _ _ _ _ _ H). apply N.eqb_refl. Qed.

Lemma m_char_ne (str : jsstring) (a : char) (e : nat) caps (c : cont) :
  str !! e <> Some a -> m str (RChar a) (MState e caps) c = None.
Proof.
  intros H. cbn [m]. unfold char_step. cbn [epos].
  destruct (str !! e) as [b|]; [|reflexivity].
  destruct (a =? b)%N eqn:E; [|reflexivity].
  apply N.eqb_eq in E. congruence.
Qed.

Lemma class_space (a : char) : class_matches false [CSpace false] a = is_space a.
Proof. unfold class_matches. cbn. rewrite orb_false_r. reflexivity. Qed.

Lemma m_space_hit (str sfx : jsstring) (a : char) (e : nat) caps (c : cont) :
  drop e str = a :: sfx -> is_space a = true ->
  m str re_space (MState e caps) c = c (MState (S e) caps).
Proof.
  intros H Ha. apply (char_step_hit _ _ _ _ _ _ _ H). rewrite class_space. exact Ha.
Qed.

Lemma m_space_ne (str : jsstring) (e : nat) caps (c : cont) :
  (forall a, str !! e = Some a -> is_space a = false) ->
  m str re_space (MState e caps) c = None.
Proof.
  intros H. unfold re_space. cbn [m]. unfold char_step. cbn [epos].
  destruct (str !! e) as [a|]; [|reflexivity].
  rewrite class_space, (H a eq_refl). reflexivity.
Qed.

Lemma class_not (q a : char) : class_matches true [CChar q] a = negb (a =? q)%N.
Proof. unfold class_matches. cbn. rewrite orb_false_r. reflexivity. Qed.

(** [[^q]*] at the start of a run without [q] that ends at a [q] or at the
    end of the text. *)
Lemma m_not_star (str run sfx : jsstring) (q : char) (e : nat) caps (c : cont) :
  drop e str = run ++ sfx ->
  lacks q run = true ->
  match sfx with [] => True | a :: _ => a = q end ->
  m str (RQuant QStar true (re_not q)) (MState e caps) c
  = tryDown c e caps (length run).
Proof.
  intros Hd Hrun Hsfx. unfold re_not.
  change (repeat_star (char_step str (class_matches true [CChar q])) [] true
            (S (length str - e)) (MState e caps) c
          = tryDown c e caps (length run)).
  apply (repeat_star_run str run sfx (class_matches true [CChar q]));
    [exact Hd | | | ].
  - clear - Hrun. unfold lacks in Hrun.
    induction run as [|a run IH]; [reflexivity|]. cbn [forallb] in *.
    apply andb_true_iff in Hrun as [H1 H2]. rewrite class_not, H1. exact (IH H2).
  - destruct sfx as [|a sfx']; [exact I|]. subst a. rewrite class_not, N.eqb_refl.
    reflexivity.
  - apply (f_equal length) in Hd. rewrite length_drop, length_app in Hd. lia.
Qed.

Lemma groups_chars (s : jsstring) (k : regex) : groups (chars s k) = groups k.
Proof. induction s as [|a s IH]; [reflexivity|]. cbn. exact IH. Qed.

(** ** Pieces of a text *)

Lemma substring_at (str a b c : jsstring) (i j : nat) :
  str = a ++ b ++ c -> i = length a -> j = length a + length b ->
  substring str i j = b.
Proof.
  intros -> -> ->. rewrite substring_slice.
  - unfold slice. rewrite drop_app_length.
    replace (length a + length b - length a) with (length b) by lia.
    apply take_app_length.
  - lia.
  - rewrite !length_app. lia.
Qed.

Lemma cursor_at (str a b : jsstring) (i : nat) :
  str = a ++ b -> i = length a -> drop i str = b.
Proof. intros -> ->. apply drop_app_length. Qed.

Lemma startsWith_app_stop (u w P : jsstring) (b : char) :
  lacks b P = true -> startsWith (u ++ b :: w) P = true -> startsWith u P = true.
Proof.
  revert u. induction P as [|x P IH]; intros u Hb H; [reflexivity|].
  cbn [lacks forallb] in Hb. apply andb_true_iff in Hb as [Hx Hb].
  destruct u as [|y u].
  - cbn [app] in H. rewrite startsWith_cons in H.
    apply andb_true_iff in H as [H _]. apply N.eqb_eq in H. subst x.
    rewrite N.eqb_refl in Hx. discriminate Hx.
  - cbn [app] in H. rewrite startsWith_cons in *.
    apply andb_true_iff in H as [-> H]. exact (IH u Hb H).
Qed.

Lemma lacks_lookup (q : char) (s : jsstring) (i : nat) :
  lacks q s = true -> s !! i <> Some q.
Proof.
  intros H Hi. unfold lacks in H. rewrite forallb_forall in H.
  specialize (H q (proj1 (list_elem_of_In _ _) (list_elem_of_lookup_2 _ _ _ Hi))).
  rewrite N.eqb_refl in H. discriminate H.
Qed.

Lemma lacks_app (q : char) (s t : jsstring) :
  lacks q (s ++ t) = lacks q s && lacks q t.
Proof. apply forallb_app. Qed.

Lemma is_word_plain (s : jsstring) : forallb is_word s = true -> plain s = true.
Proof.
  unfold plain. intros H. rewrite forallb_forall in *. intros c Hc.
  specialize (H c Hc). unfold is_word, is_syntax_char, in_range in *.
  rewrite negb_true_iff, !orb_false_iff, !N.eqb_neq.
  rewrite !orb_true_iff, !andb_true_iff, !N.leb_le, N.eqb_eq in H. lia.
Qed.

Lemma is_word_lacks (q : char) (s : jsstring) :
  is_word q = false -> forallb is_word s = true -> lacks q s = true.
Proof.
  intros Hq H. unfold lacks. rewrite forallb_forall in *. intros c Hc.
  specialize (H c Hc). apply negb_true_iff, N.eqb_neq. intros ->. congruence.
Qed.

Lemma is_word_not_space (c : char) : is_word c = true -> is_space c = false.
Proof.
  unfold is_word, is_space, in_range.
  rewrite !orb_true_iff, !andb_true_iff, !N.leb_le, N.eqb_eq.
  rewrite !orb_false_iff, !andb_false_iff, !N.leb_gt, !N.eqb_neq. lia.
Qed.

(** ** [addProp] on a text with one tag *)

(** The optional attribute text of the pattern of [addProp], when the
    continuation accepts the position after the whole attribute text. *)
Lemma m_attrs_opt (str attrs rest : jsstring) (e : nat) caps (c : cont) (z : mstate) :
  drop e str = attrs ++ 62%N :: rest ->
  attributeText attrs ->
  c (MState (e + length attrs) caps) = Some z ->
  m str (RQuant QOpt true (RSeq re_space (RSeq (RQuant QStar true (re_not 62)) REmpty)))
    (MState e caps) c = Some z.
Proof.
  intros Hd [Hgt Hhead] Hc. rewrite m_opt.
  change (groups _) with (@nil nat). rewrite reset_captures_nil. rewrite m_seq.
  destruct attrs as [|a attrs'].
  - cbn [app length] in *. rewrite Nat.add_0_r in Hc.
    rewrite m_space_ne.
    + cbn [orelse]. exact Hc.
    + intros a Ha. rewrite (cursor_lookup _ _ _ _ Hd) in Ha. injection Ha as <-.
      reflexivity.
  - cbn [app length] in *. rewrite (m_space_hit _ _ _ _ _ _ Hd Hhead).
    rewrite m_seq. cbn [lacks forallb] in Hgt. apply andb_true_iff in Hgt as [_ Hgt].
    rewrite (m_not_star str attrs' (62%N :: rest) 62 (S e) caps);
      [|exact (cursor_next _ _ _ _ Hd) | exact Hgt | reflexivity].
    rewrite (tryDown_first _ _ _ _ z); [reflexivity|].
    rewrite m_empty. cbn [epos].
    replace (S e + length attrs' =? e) with false
      by (symmetry; apply Nat.eqb_neq; lia).
    replace (S e + length attrs') with (e + S (length attrs')) by lia. exact Hc.
Qed.

Lemma m_addProp_hit (pre C attrs post : jsstring) :
  attributeText attrs ->
  m (tagText pre C attrs post) (addPropPattern C) (MState (length pre) []) Some
  = Some (MState (length pre + 1 + length C + length attrs + 1)
            [(2, (length pre + 1 + length C + length attrs,
                  length pre + 1 + length C + length attrs + 1));
             (1, (length pre, length pre + 1 + length C + length attrs))]).
Proof.
  intros Hattrs. unfold addPropPattern.
  assert (Hd : drop (length pre) (tagText pre C attrs post)
               = (60%N :: C) ++ attrs ++ 62%N :: post).
  { apply (cursor_at _ pre); reflexivity. }
  rewrite m_seq, m_group. change (RSeq (RChar 60) (chars C ?k)) with (chars (60%N :: C) k).
  rewrite (m_chars_hit _ _ _ _ _ _ _ Hd). rewrite m_seq.
  apply (m_attrs_opt _ attrs post); [exact (cursor_skip _ _ _ _ Hd) | exact Hattrs |].
  rewrite m_empty. cbn [epos set_capture captures].
  rewrite m_seq, m_group, m_seq. cbn [m].
  assert (Hd2 : drop (length pre + length (60%N :: C) + length attrs)
                     (tagText pre C attrs post) = 62%N :: post).
  { apply (cursor_skip _ attrs). exact (cursor_skip _ _ _ _ Hd). }
  unfold set_capture. cbn [epos captures].
  rewrite (char_step_hit _ _ _ _ _ _ _ Hd2) by reflexivity.
  cbn [epos set_capture captures length]. f_equal. f_equal; [lia|].
  repeat (f_equal; try lia).
Qed.

Lemma m_addProp_miss (str C : jsstring) (i : nat) :
  startsWith (drop i str) (60%N :: C) = false ->
  m str (addPropPattern C) (MState i []) Some = None.
Proof.
  intros H. unfold addPropPattern. rewrite m_seq, m_group.
  change (RSeq (RChar 60) (chars C ?k)) with (chars (60%N :: C) k).
  rewrite m_chars. cbn [epos]. rewrite H. reflexivity.
Qed.

Lemma getSubstitution_lacks (str : jsstring) (mt : rmatch) (n : nat) (s rest : jsstring) :
  lacks 36 s = true ->
  getSubstitution str mt n (s ++ rest) = s ++ getSubstitution str mt n rest.
Proof.
  induction s as [|c s IH]; intros H; [reflexivity|].
  cbn [lacks forallb] in H. apply andb_true_iff in H as [Hc H].
  cbn [app getSubstitution]. rewrite Hc. rewrite (IH H). reflexivity.
Qed.

(** The replacement text of [addProp]: group 1, the new attribute, group 2. *)
Lemma addProp_template (str : jsstring) (mt : rmatch) (P V c1 c2 : jsstring) :
  lacks 36 P = true -> lacks 36 V = true ->
  capture str mt 1 = Some c1 -> capture str mt 2 = Some c2 ->
  getSubstitution str mt 2 (js "$1 " ++ P ++ js "=" ++ dq ++ V ++ dq ++ js "$2")
  = c1 ++ propText P V ++ c2.
Proof.
  intros HP HV H1 H2. eval_js. cbn [app].
  cbn [getSubstitution N.eqb Pos.eqb negb is_digit in_range N.leb N.compare
       Pos.compare Pos.compare_cont andb].
  unfold capture_ref, digit_value. cbn [N.sub N.to_nat Pos.to_nat Pos.iter_op
    Pos.sub Pos.sub_mask Pos.succ_double_mask Pos.double_mask Pos.pred_double
    Pos.double_pred_mask Init.Nat.add Nat.leb andb].
  change (N.to_nat (49 - 48)) with 1. cbn [Nat.leb andb]. rewrite H1.
  cbn [default option.default from_option].
  rewrite (getSubstitution_lacks _ _ _ P) by exact HP.
  cbn [getSubstitution N.eqb Pos.eqb negb].
  rewrite (getSubstitution_lacks _ _ _ V) by exact HV.
  cbn [getSubstitution N.eqb Pos.eqb negb is_digit in_range N.leb N.compare
       Pos.compare Pos.compare_cont andb].
  unfold capture_ref, digit_value. change (N.to_nat (50 - 48)) with 2.
  cbn [Nat.leb andb]. rewrite H2. cbn [default option.default from_option].
  unfold propText. rewrite app_nil_r. rewrite <- ?app_assoc. reflexivity.
Qed.

Lemma tagText_before (pre C attrs post : jsstring) (j : nat) :
  includes pre (60%N :: C) = false -> lacks 60 C = true -> j < length pre ->
  startsWith (drop j (tagText pre C attrs post)) (60%N :: C) = false.
Proof.
  intros Hpre HC Hj. apply not_true_is_false. intros H.
  unfold tagText in H. rewrite drop_app_le in H by lia. cbn [app] in H.
  destruct (drop j pre) as [|y u] eqn:Eu.
  { apply (f_equal length) in Eu. rewrite length_drop in Eu. cbn in Eu. lia. }
  cbn [app] in H. rewrite startsWith_cons in H. apply andb_true_iff in H as [Hy H].
  apply startsWith_app_stop in H; [|exact HC].
  assert (Hs : startsWith (drop j pre) (60%N :: C) = true).
  { rewrite Eu, startsWith_cons, Hy, H. reflexivity. }
  apply startsWith_drop_includes in Hs. congruence.
Qed.

Lemma tagText_after (pre C attrs post : jsstring) (j : nat) :
  includes post (60%N :: C) = false ->
  length pre + 1 + length C + length attrs + 1 <= j ->
  startsWith (drop j (tagText pre C attrs post)) (60%N :: C) = false.
Proof.
  intros Hpost Hj. apply not_true_is_false. intros H. unfold tagText in H.
  replace (pre ++ [60%N] ++ C ++ attrs ++ [62%N] ++ post)
    with ((pre ++ [60%N] ++ C ++ attrs ++ [62%N]) ++ post) in H
    by (rewrite <- !app_assoc; reflexivity).
  rewrite drop_app_ge in H by (rewrite !length_app; cbn [length]; lia).
  apply startsWith_drop_includes in H. congruence.
Qed.

Lemma tagText_length (pre C attrs post : jsstring) :
  length (tagText pre C attrs post)
  = length pre + 1 + length C + length attrs + 1 + length post.
Proof. unfold tagText. rewrite !length_app. cbn [length]. lia. Qed.

Lemma groups_addPropPattern (C : jsstring) : groups (addPropPattern C) = [1; 2].
Proof.
  unfold addPropPattern. cbn [groups app]. rewrite groups_chars. reflexivity.
Qed.

Ltac solve_app :=
  unfold tagText, propText;
  repeat (progress (rewrite <- ?app_assoc; cbn [app]));
  rewrite ?app_nil_r; reflexivity.

Ltac solve_len :=
  unfold tagText, propText in *;
  repeat (progress (rewrite ?length_app in *; cbn [length] in * ));
  lia.

(** [addProp] puts the attribute at the end of the opening tag. *)
Lemma addProp_tagText (pre C P V attrs post : jsstring) :
  forallb is_word C = true -> lacks 36 P = true -> lacks 36 V = true ->
  includes pre (60%N :: C) = false -> includes post (60%N :: C) = false ->
  attributeText attrs ->
  addProp (tagText pre C attrs post) C P V
  = Normal (tagText pre C (attrs ++ propText P V) post).
Proof.
  intros HC HP HV Hpre Hpost Hattrs. unfold addProp.
  pose proof (is_word_lacks 60 C eq_refl HC) as HC60.
  rewrite (addProp_pattern C (is_word_plain _ HC)). cbn [mbind completion_bind cbind]. f_equal.
  unfold replaceAll.
  pose proof (m_addProp_hit pre C attrs post Hattrs) as Hhit.
  pose proof (tagText_length pre C attrs post) as Hlen.
  set (text := tagText pre C attrs post) in *.
  match type of Hhit with _ = Some ?v => set (y := v) in * end.
  assert (H1 : regExpExec (addPropPattern C) text 0 = Some (RMatch (length pre) y)).
  { apply regExpExec_first; [lia | | exact Hhit].
    intros j Hj. apply m_addProp_miss, tagText_before; [exact Hpre | exact HC60 | lia]. }
  rewrite (replaceAllWith_single _ _ _ _ H1).
  - cbn [index final]. subst y. cbn [epos].
    rewrite (substring_at text [] pre (60%N :: C ++ attrs ++ 62%N :: post) 0 (length pre));
      [|subst text; solve_app | reflexivity | reflexivity].
    rewrite (substring_at text (pre ++ 60%N :: C ++ attrs ++ [62%N]) post []
               (length pre + 1 + length C + length attrs + 1) (length text));
      [|subst text; solve_app | solve_len | solve_len].
    rewrite groups_addPropPattern. cbn [length].
    rewrite (addProp_template _ _ P V (60%N :: C ++ attrs) [62%N] HP HV).
    + solve_app.
    + unfold capture, capture_span. cbn [final captures List.find fst snd Nat.eqb fmap
        option_fmap option_map].
      f_equal. apply (substring_at text pre _ (62%N :: post));
        [subst text; solve_app | reflexivity | solve_len].
    + unfold capture, capture_span. cbn [final captures List.find fst snd Nat.eqb fmap
        option_fmap option_map].
      f_equal. apply (substring_at text (pre ++ 60%N :: C ++ attrs) _ post);
        [subst text; solve_app | solve_len | solve_len].
  - cbn [index final]. subst y. cbn [epos]. lia.
  - cbn [final]. subst y. cbn [epos]. apply regExpExec_none. intros j Hj.
    apply m_addProp_miss, tagText_after; [exact Hpost | lia].
Qed.

(** ** [removeProp] on a text with one tag *)

(** The attribute pattern at the inserted attribute: the name and the quoted
    value are consumed whole. *)
Lemma m_prop_hit (str P V rest : jsstring) (K : regex) (q : nat) caps (c : cont)
    (z : mstate) :
  drop q str = propText P V ++ rest ->
  lacks 34 V = true ->
  m str K (MState (q + length (propText P V)) caps) c = Some z ->
  m str (propPattern P K) (MState q caps) c = Some z.
Proof.
  intros Hd HV HK. unfold propText in Hd. cbn [app] in Hd.
  unfold propPattern. rewrite m_seq.
  rewrite (m_space_hit _ _ _ _ _ _ Hd) by reflexivity.
  pose proof (cursor_next _ _ _ _ Hd) as Hd1. rewrite <- app_assoc in Hd1.
  rewrite (m_chars_hit _ _ _ _ _ _ _ Hd1).
  pose proof (cursor_skip _ _ _ _ Hd1) as Hd2. cbn [app] in Hd2.
  rewrite m_seq. unfold propValuePattern. rewrite m_opt.
  change (groups _) with (@nil nat). rewrite reset_captures_nil.
  rewrite m_seq, (m_char_hit _ _ _ _ _ _ Hd2).
  pose proof (cursor_next _ _ _ _ Hd2) as Hd3.
  rewrite m_seq, m_alt, m_seq, (m_char_hit _ _ _ _ _ _ Hd3).
  pose proof (cursor_next _ _ _ _ Hd3) as Hd4. rewrite <- app_assoc in Hd4.
  cbn [app] in Hd4.
  rewrite m_seq, (m_not_star _ V (34%N :: rest) 34 _ _ _ Hd4 HV eq_refl).
  pose proof (cursor_skip _ _ _ _ Hd4) as Hd5.
  rewrite (tryDown_first _ _ _ _ z); [reflexivity|].
  rewrite m_seq, (m_char_hit _ _ _ _ _ _ Hd5), !m_empty. cbn [epos].
  match goal with
  | |- (if ?a =? ?b then _ else _) = _ =>
    replace (a =? b) with false by (symmetry; apply Nat.eqb_neq; lia)
  end.
  rewrite <- HK. f_equal. f_equal. unfold propText. solve_len.
Qed.

Lemma lookup_middle_forallb (str a b c : jsstring) (p : char -> bool) (i : nat) (x : char) :
  str = a ++ b ++ c -> length a <= i < length a + length b ->
  forallb p b = true -> str !! i = Some x -> p x = true.
Proof.
  intros -> Hi Hb Hx. rewrite lookup_app_r in Hx by lia.
  rewrite lookup_app_l in Hx by lia.
  rewrite forallb_forall in Hb. apply Hb, list_elem_of_In.
  eapply list_elem_of_lookup_2. exact Hx.
Qed.

Lemma valueChar_facts (V : jsstring) :
  forallb valueChar V = true ->
  lacks 34 V = true /\ lacks 36 V = true /\ lacks 62 V = true
  /\ forallb (fun c => negb (is_space c)) V = true.
Proof.
  intros H. unfold lacks. repeat split; rewrite forallb_forall in *; intros c Hc;
    specialize (H c Hc); unfold valueChar in H;
    rewrite !andb_true_iff in H; tauto.
Qed.

Lemma m_removeProp_miss (str C P : jsstring) (i : nat) :
  startsWith (drop i str) (60%N :: C) = false ->
  m str (removePropPattern C P) (MState i []) Some = None.
Proof.
  intros H. unfold removePropPattern.
  change (RSeq (RChar 60) (chars C ?k)) with (chars (60%N :: C) k).
  rewrite m_chars. cbn [epos]. rewrite H. reflexivity.
Qed.

Lemma m_removeProp_hit (pre C P V attrs post : jsstring) :
  forallb is_word P = true -> forallb valueChar V = true ->
  attributeText attrs ->
  m (tagText pre C (attrs ++ propText P V) post) (removePropPattern C P)
    (MState (length pre) []) Some
  = Some (MState (length pre + 1 + length C + length attrs
                  + length (propText P V) + 1) []).
Proof.
  intros HP HV [Hgt _].
  destruct (valueChar_facts V HV) as (HV34 & _ & HV62 & HVsp).
  set (text := tagText pre C (attrs ++ propText P V) post).
  assert (Hd : drop (length pre) text
               = (60%N :: C) ++ (attrs ++ propText P V) ++ 62%N :: post).
  { apply (cursor_at _ pre); [subst text; solve_app | reflexivity]. }
  unfold removePropPattern.
  change (RSeq (RChar 60) (chars C ?k)) with (chars (60%N :: C) k).
  rewrite (m_chars_hit _ _ _ _ _ _ _ Hd).
  pose proof (cursor_skip _ _ _ _ Hd) as Hd1.
  rewrite m_seq.
  rewrite (m_not_star _ (attrs ++ propText P V) (62%N :: post) 62 _ _ _ Hd1);
    [| | reflexivity].
  2:{ rewrite lacks_app, Hgt. unfold propText. rewrite !lacks_app, HV62.
      rewrite (is_word_lacks 62 P eq_refl HP). reflexivity. }
  rewrite (tryDown_skip _ _ _ _ (length attrs)).
  - apply tryDown_first. apply (m_prop_hit _ P V (62%N :: post)).
    + rewrite <- app_assoc in Hd1. exact (cursor_skip _ _ _ _ Hd1).
    + exact HV34.
    + rewrite <- app_assoc in Hd1. pose proof (cursor_skip _ _ _ _ Hd1) as Hd2.
      pose proof (cursor_skip _ _ _ _ Hd2) as Hd3.
      rewrite m_seq, (m_not_star _ [] (62%N :: post) 62 _ _ _ Hd3 eq_refl eq_refl).
      cbn [tryDown length]. rewrite m_seq, (m_char_hit _ _ _ _ _ _ Hd3), m_empty.
      f_equal. f_equal. cbn [length]. lia.
  - rewrite length_app. lia.
  - intros j Hj. unfold propPattern. rewrite m_seq. apply m_space_ne. intros a Ha.
    apply negb_true_iff.
    refine (lookup_middle_forallb text (pre ++ 60%N :: C ++ attrs ++ [32%N])
              (P ++ 61%N :: 34%N :: V ++ [34%N; 62%N]) post
              (fun c => negb (is_space c)) _ a _ _ _ Ha).
    + subst text. solve_app.
    + rewrite length_app in Hj. unfold propText in Hj. solve_len.
    + rewrite forallb_app. cbn [forallb]. rewrite forallb_app, HVsp. cbn [forallb].
      rewrite andb_true_r. rewrite forallb_forall in *. intros c Hc.
      apply negb_true_iff, is_word_not_space, HP, Hc.
Qed.


(** Inside the matched tag the attribute pattern first matches at the
    inserted attribute. *)
Lemma propPattern_exec (C P V attrs : jsstring) :
  forallb is_word C = true -> forallb is_word P = true -> forallb valueChar V = true ->
  attributeAbsent P attrs ->
  regExpExec (propPattern P REmpty)
    (60%N :: C ++ attrs ++ propText P V ++ [62%N]) 0
  = Some (RMatch (1 + length C + length attrs)
            (MState (1 + length C + length attrs + length (propText P V)) [])).
Proof.
  intros HC HP HV Habs.
  destruct (valueChar_facts V HV) as (HV34 & _ & _ & _).
  set (ms := 60%N :: C ++ attrs ++ propText P V ++ [62%N]).
  apply regExpExec_first.
  - subst ms. solve_len.
  - intros j Hj. unfold propPattern. rewrite m_seq.
    destruct (ms !! j) as [a|] eqn:Ea; [|apply m_space_ne; congruence].
    destruct (is_space a) eqn:Esp; [|apply m_space_ne; congruence].
    assert (Hin : 1 + length C <= j).
    { destruct (decide (1 + length C <= j)) as [|Hlt]; [assumption|]. exfalso.
      assert (Hw : (fun c => negb (is_space c)) a = true).
      { refine (lookup_middle_forallb ms [] (60%N :: C) (attrs ++ propText P V ++ [62%N])
                  (fun c => negb (is_space c)) j a _ _ _ Ea).
        - subst ms. solve_app.
        - cbn [length]. lia.
        - cbn [forallb]. apply andb_true_iff. split; [reflexivity|].
          rewrite forallb_forall in *. intros c Hc.
          apply negb_true_iff, is_word_not_space, HC, Hc. }
      cbn in Hw. rewrite Esp in Hw. discriminate Hw. }
    assert (Hms : ms = (60%N :: C) ++ attrs ++ (32%N :: P ++ [61%N; 34%N] ++ V ++ [34%N; 62%N]))
      by (subst ms; solve_app).
    assert (Hd : drop j ms = a :: drop (S j) ms) by (apply drop_S; exact Ea).
    rewrite (m_space_hit _ _ _ _ _ _ Hd Esp), m_chars. cbn [epos captures].
    replace (startsWith (drop (S j) ms) P) with false; [reflexivity|].
    symmetry. apply not_true_is_false. intros Hst.
    set (i := j - (1 + length C)).
    assert (Hai : attrs !! i = Some a).
    { rewrite Hms in Ea. rewrite lookup_app_r in Ea by (cbn [length]; lia).
      rewrite lookup_app_l in Ea by (cbn [length]; lia).
      cbn [length] in Ea. exact Ea. }
    specialize (Habs i a Hai Esp).
    assert (Hdrop : drop (S j) ms
                    = drop (S i) attrs ++ 32%N :: (P ++ [61%N; 34%N] ++ V ++ [34%N; 62%N])).
    { rewrite Hms. rewrite drop_app_ge by (cbn [length]; lia).
      cbn [length]. replace (S j - S (length C)) with (S i) by lia.
      apply lookup_lt_Some in Hai. rewrite drop_app_le by lia. reflexivity. }
    rewrite Hdrop in Hst.
    apply startsWith_app_stop in Hst; [congruence|].
    apply (is_word_lacks 32 P eq_refl HP).
  - apply (m_prop_hit _ P V [62%N]).
    + apply (cursor_at _ (60%N :: C ++ attrs)); [subst ms; solve_app | solve_len].
    + exact HV34.
    + reflexivity.
Qed.

Lemma removeProp_callback (C P V attrs : jsstring) :
  forallb is_word C = true -> forallb is_word P = true -> forallb valueChar V = true ->
  attributeAbsent P attrs ->
  replaceFirst (propPattern P REmpty) (60%N :: C ++ attrs ++ propText P V ++ [62%N]) []
  = 60%N :: C ++ attrs ++ [62%N].
Proof.
  intros HC HP HV Habs. unfold replaceFirst.
  rewrite (propPattern_exec C P V attrs HC HP HV Habs). cbn [index final epos].
  set (ms := 60%N :: C ++ attrs ++ propText P V ++ [62%N]).
  rewrite (substring_at ms [] (60%N :: C ++ attrs) (propText P V ++ [62%N]) 0);
    [|subst ms; solve_app | reflexivity | solve_len].
  rewrite (substring_at ms (60%N :: C ++ attrs ++ propText P V) [62%N] []);
    [|subst ms; solve_app | solve_len | subst ms; solve_len].
  cbn [getSubstitution]. solve_app.
Qed.

(** [removeProp] takes the inserted attribute out again. *)
Lemma removeProp_tagText (pre C P V attrs post : jsstring) :
  forallb is_word C = true -> forallb is_word P = true -> forallb valueChar V = true ->
  includes pre (60%N :: C) = false -> includes post (60%N :: C) = false ->
  attributeText attrs -> attributeAbsent P attrs ->
  removeProp (tagText pre C (attrs ++ propText P V) post) C P
  = Normal (tagText pre C attrs post).
Proof.
  intros HC HP HV Hpre Hpost Hattrs Habs. unfold removeProp.
  pose proof (is_word_lacks 60 C eq_refl HC) as HC60.
  rewrite (removeProp_pattern C P (is_word_plain _ HC) (is_word_plain _ HP)).
  cbn [mbind completion_bind cbind].
  pose proof (m_removeProp_hit pre C P V attrs post HP HV Hattrs) as Hhit.
  pose proof (tagText_length pre C (attrs ++ propText P V) post) as Hlen.
  set (text := tagText pre C (attrs ++ propText P V) post) in *.
  match type of Hhit with _ = Some ?v => set (y := v) in * end.
  assert (H1 : regExpExec (removePropPattern C P) text 0 = Some (RMatch (length pre) y)).
  { apply regExpExec_first; [lia | | exact Hhit].
    intros j Hj. apply m_removeProp_miss, tagText_before; [exact Hpre | exact HC60 | lia]. }
  rewrite H1, (propPattern_source P (is_word_plain _ HP)).
  cbn [mbind completion_bind cbind]. f_equal.
  rewrite (replaceAllWith_single _ _ _ _ H1).
  - unfold matched. cbn [index final]. subst y. cbn [epos].
    rewrite (substring_at text [] pre
               (60%N :: C ++ (attrs ++ propText P V) ++ 62%N :: post) 0 (length pre));
      [|subst text; solve_app | reflexivity | reflexivity].
    rewrite (substring_at text pre (60%N :: C ++ attrs ++ propText P V ++ [62%N]) post);
      [|subst text; solve_app | reflexivity | solve_len].
    rewrite (substring_at text (pre ++ 60%N :: C ++ attrs ++ propText P V ++ [62%N]) post []);
      [|subst text; solve_app | solve_len | rewrite Hlen, length_app in *; solve_len].
    rewrite (removeProp_callback C P V attrs HC HP HV Habs). solve_app.
  - cbn [index final]. subst y. cbn [epos]. lia.
  - cbn [final]. subst y. cbn [epos]. apply regExpExec_none. intros j Hj.
    apply m_removeProp_miss. subst text. apply tagText_after; [exact Hpost|].
    rewrite length_app. lia.
Qed.

(** ** Round trip of [addProp] and [removeProp] *)

(** C6: the tag has no attribute [disabled], yet adding the attribute and
    removing it again does not give the text back.  The callback of
    [removeProp] deletes the first white space that is followed by the name,
    and its pattern has no boundary after the name: it cuts [ disabled] out
    of [ disabledReason] and leaves the attribute that was added. *)
Theorem addProp_removeProp_prefix_attribute :
  includes prefixAttributeExample (js "disabled=") = false
  /\ addProp prefixAttributeExample (js "Button") (js "disabled") (js "true")
     = Normal (js "<Button disabledReason='x' disabled=" ++ dq ++ js "true" ++ dq ++ js ">")
  /\ removeProp
       (js "<Button disabledReason='x' disabled=" ++ dq ++ js "true" ++ dq ++ js ">")
       (js "Button") (js "disabled")
     = Normal (js "<ButtonReason='x' disabled=" ++ dq ++ js "true" ++ dq ++ js ">")
  /\ js "<ButtonReason='x' disabled=" ++ dq ++ js "true" ++ dq ++ js ">"
     <> prefixAttributeExample.
Proof. vm_compute. repeat split. discriminate. Qed.

(** The round trip on a text with one opening tag [<C attrs>] of the
    component (no other occurrence of [<C] in the text, no [>] in the
    attribute text), names made of word characters, a value without white
    space, double quote, [$] and [>], and an attribute text in which no white
    space is directly followed by the name: [addProp] followed by
    [removeProp] gives the text back. *)
Theorem addProp_removeProp_round_trip (pre C P V attrs post : jsstring) :
  forallb is_word C = true -> forallb is_word P = true ->
  forallb valueChar V = true ->
  includes pre (60%N :: C) = false -> includes post (60%N :: C) = false ->
  attributeText attrs -> attributeAbsent P attrs ->
  (added ← addProp (tagText pre C attrs post) C P V; removeProp added C P)
  = Normal (tagText pre C attrs post).
Proof.
  intros HC HP HV Hpre Hpost Hattrs Habs.
  destruct (valueChar_facts V HV) as (_ & HV36 & _ & _).
  rewrite (addProp_tagText pre C P V attrs post HC
             (is_word_lacks 36 P eq_refl HP) HV36 Hpre Hpost Hattrs).
  cbn [mbind completion_bind cbind].
  apply removeProp_tagText; assumption.
Qed.

Lemma addProp_removeProp_round_trip_witness :
  (added ← addProp (js "<div><Button kind='a'>Click</Button></div>") (js "Button")
             (js "disabled") (js "true");
   removeProp added (js "Button") (js "disabled"))
  = Normal (js "<div><Button kind='a'>Click</Button></div>").
Proof.
  refine (addProp_removeProp_round_trip (js "<div>") (js "Button") (js "disabled")
            (js "true") (js " kind='a'") (js "Click</Button></div>") _ _ _ _ _ _ _);
    try reflexivity.
  - split; [reflexivity | reflexivity].
  - intros j a Hj _.
    do 9 (destruct j as [|j]; [vm_compute; reflexivity|]).
    vm_compute in Hj. destruct j; discriminate Hj.
Defined.

(** * Further properties *)

(** ** Scope resolver *)

(** A marker that matches nowhere: [getDirectiveScope] returns [null] and
    [getAllDirectiveScopes] the empty array. *)
Theorem scopes_of_absent_marker (fuel : nat) (code directiveName : jsstring) (r : regex) :
  directivePattern directiveName = Normal r ->
  (forall i, ~ matchesAt r code i) ->
  getDirectiveScope code directiveName = Normal None
  /\ getAllDirectiveScopes (S fuel) code directiveName = Normal (Some []).
Proof.
  intros Hr Hno. pose proof (regExpExec_no_match r code Hno) as He.
  unfold getDirectiveScope, getAllDirectiveScopes. rewrite Hr.
  cbn [mbind completion_bind cbind allScopesLoop]. rewrite He. split; reflexivity.
Qed.

Lemma scopes_of_absent_marker_witness :
  getDirectiveScope (js "let x;") (js "test") = Normal None
  /\ getAllDirectiveScopes 1 (js "let x;") (js "test") = Normal (Some []).
Proof.
  refine (scopes_of_absent_marker 0 (js "let x;") (js "test")
            (regexLiteral (dq ++ js "use\s+test" ++ dq)) eq_refl _).
  intros i [y Hy]. revert Hy.
  change (regexLiteral (dq ++ js "use\s+test" ++ dq))
    with (chars [34%N] (regexLiteral (js "use\s+test" ++ dq))).
  rewrite m_chars. cbn [epos].
  replace (startsWith (drop i (js "let x;")) [34%N]) with false; [discriminate|].
  do 7 (destruct i as [|i]; [reflexivity|]). reflexivity.
Defined.

(** The scope starts at the nearest opening brace before the marker that has
    no closing partner before the marker: the text from that brace to the
    marker has exactly one more opening than closing braces, and no shorter
    suffix has more opening than closing ones. *)
Theorem findFunctionScopeAtIndex_start (code : jsstring) (i : nat) (scope : DirectiveScope) :
  i <= length code ->
  findFunctionScopeAtIndex code i = Some scope ->
  startIndex scope < i
  /\ code !! startIndex scope = Some ch_lbrace
  /\ braceBalance (slice code (startIndex scope) i) = (-1)%Z
  /\ forall j, startIndex scope < j < i -> (0 <= braceBalance (slice code j i))%Z.
Proof.
  intros Hi. unfold findFunctionScopeAtIndex.
  destruct (scanBackward code i 0) as [s|] eqn:Es; [|discriminate].
  destruct (regExpExec functionNamePattern (substring code 0 s) 0); [|discriminate].
  intros [= <-]. cbn [startIndex].
  apply scanBackward_Some in Es as (H1 & H2 & H3 & H4); [|lia|lia].
  repeat split; [exact H1 | exact H2 | lia |]. intros j Hj. specialize (H4 j Hj). lia.
Qed.

Lemma findFunctionScopeAtIndex_start_witness :
  13 < 15 /\ oneFunctionExample !! 13 = Some ch_lbrace.
Proof.
  destruct (findFunctionScopeAtIndex_start oneFunctionExample 15
              (Scope (js "f") (js "{ " ++ dq ++ js "use test" ++ dq ++ js " }") 13 27))
    as (H1 & H2 & _); [vm_compute; lia | vm_compute; reflexivity |].
  split; [exact H1 | exact H2].
Defined.

(** A scope is found only below a brace: when no suffix of the text before
    the offset has an unmatched opening brace, there is no scope. *)
Theorem findFunctionScopeAtIndex_top_level (code : jsstring) (i : nat) :
  i <= length code ->
  (forall j, j < i -> (0 <= braceBalance (slice code j i))%Z) ->
  findFunctionScopeAtIndex code i = None.
Proof.
  intros Hi H. unfold findFunctionScopeAtIndex.
  rewrite (proj2 (scanBackward_None code i 0 Hi ltac:(lia))); [reflexivity|].
  intros j Hj. specialize (H j Hj). lia.
Qed.

Lemma findFunctionScopeAtIndex_top_level_witness :
  findFunctionScopeAtIndex topLevelExample 13 = None.
Proof.
  apply findFunctionScopeAtIndex_top_level; [vm_compute; lia|].
  refine (proj1 (scanBackward_None topLevelExample 13 0 _ _) _);
    [vm_compute; lia | lia | vm_compute; reflexivity].
Defined.

(** ** Directive registry *)

(** Lookup after insert: on a registry the program can reach, [getDirective]
    finds the handler that was just registered under its own name, also for
    names that collide with properties of [Object.prototype]. *)
Theorem getDirective_register (d : Directives) (h : DirectiveHandler) :
  reachable d ->
  DirectiveRegistry.getDirective (DirectiveRegistry.register d h) (name h) = VHandler h.
Proof.
  intros Hd. pose proof (reachable_no_own_proto _ Hd) as Hp.
  unfold DirectiveRegistry.getDirective, DirectiveRegistry.register,
    setProperty, getProperty.
  destruct (decide (name h = key_proto)) as [E|E].
  - rewrite !bool_decide_eq_true_2 by exact E. cbn [own proto]. rewrite E, Hp.
    reflexivity.
  - rewrite !bool_decide_eq_false_2 by exact E. cbn [own proto].
    rewrite lookup_insert_eq. reflexivity.
Qed.

Lemma getDirective_register_witness :
  DirectiveRegistry.getDirective
    (DirectiveRegistry.register DirectiveRegistry.new toStringHandler) (js "toString")
  = VHandler toStringHandler.
Proof.
  apply (getDirective_register DirectiveRegistry.new toStringHandler).
  apply reachable_new.
Defined.

Lemma register_last_write_wins_witness :
  DirectiveRegistry.getDirective
    (DirectiveRegistry.register
       (DirectiveRegistry.register DirectiveRegistry.new
          (Handler (js "cat") (fun _ => None)))
       (Handler (js "cat") (fun code => Some code)))
    (js "cat")
  = VHandler (Handler (js "cat") (fun code => Some code)).
Proof.
  apply (register_last_write_wins DirectiveRegistry.new
           (Handler (js "cat") (fun _ => None))
           (Handler (js "cat") (fun code => Some code))).
  - apply reachable_new.
  - reflexivity.
Defined.

(** Registering a handler leaves the lookup of every other name as it was
    (the name [__proto__], which replaces the prototype, apart). *)
Theorem getDirective_register_other (d : Directives) (h : DirectiveHandler)
    (key : jsstring) :
  name h <> key_proto -> key <> name h ->
  DirectiveRegistry.getDirective (DirectiveRegistry.register d h) key
  = DirectiveRegistry.getDirective d key
  /\ DirectiveRegistry.isDirective (DirectiveRegistry.register d h) key
     = DirectiveRegistry.isDirective d key.
Proof.
  intros Hp Hk.
  unfold DirectiveRegistry.getDirective, DirectiveRegistry.isDirective,
    DirectiveRegistry.register, setProperty, getProperty, hasProperty.
  rewrite bool_decide_eq_false_2 by exact Hp. cbn [own proto].
  rewrite lookup_insert_ne by congruence. split; reflexivity.
Qed.

Lemma getDirective_register_other_witness :
  DirectiveRegistry.getDirective
    (DirectiveRegistry.register DirectiveRegistry.new toStringHandler) (js "cat")
  = DirectiveRegistry.getDirective DirectiveRegistry.new (js "cat")
  /\ DirectiveRegistry.isDirective
       (DirectiveRegistry.register DirectiveRegistry.new toStringHandler) (js "cat")
     = DirectiveRegistry.isDirective DirectiveRegistry.new (js "cat").
Proof.
  apply (getDirective_register_other DirectiveRegistry.new toStringHandler (js "cat"));
    vm_compute; congruence.
Defined.

(** A registered name is a directive. *)
Theorem isDirective_register (d : Directives) (h : DirectiveHandler) :
  DirectiveRegistry.isDirective (DirectiveRegistry.register d h) (name h) = true.
Proof.
  unfold DirectiveRegistry.isDirective, DirectiveRegistry.register,
    setProperty, hasProperty.
  destruct (decide (name h = key_proto)) as [E|E].
  - rewrite (bool_decide_eq_true_2 (name h = key_proto)) by exact E.
    rewrite orb_true_r. reflexivity.
  - rewrite (bool_decide_eq_false_2 (name h = key_proto)) by exact E.
    cbn [own proto]. rewrite lookup_insert_eq.
    rewrite (bool_decide_eq_true_2 (is_Some (Some h))) by eauto. reflexivity.
Qed.

(** After [clear] nothing that was registered is left: a name that is not
    inherited from [Object.prototype] is no directive and has no handler. *)
Theorem clear_forgets (d : Directives) (key : jsstring) :
  key <> key_proto -> key ∉ objectPrototypeKeys ->
  DirectiveRegistry.isDirective (DirectiveRegistry.clear d) key = false
  /\ DirectiveRegistry.getDirective (DirectiveRegistry.clear d) key = VUndefined.
Proof.
  intros Hp Hk. split.
  - rewrite isDirective_after_clear.
    rewrite !bool_decide_eq_false_2 by assumption. reflexivity.
  - unfold DirectiveRegistry.getDirective, DirectiveRegistry.clear, getProperty.
    cbn [own proto]. rewrite lookup_empty.
    rewrite !bool_decide_eq_false_2 by assumption. reflexivity.
Qed.

Lemma clear_forgets_witness :
  DirectiveRegistry.isDirective
    (DirectiveRegistry.clear
       (DirectiveRegistry.register DirectiveRegistry.new
          (Handler (js "cat") (fun code => Some code)))) (js "cat") = false
  /\ DirectiveRegistry.getDirective
       (DirectiveRegistry.clear
          (DirectiveRegistry.register DirectiveRegistry.new
             (Handler (js "cat") (fun code => Some code)))) (js "cat") = VUndefined.
Proof.
  apply clear_forgets.
  - vm_compute. congruence.
  - apply (bool_decide_eq_false_1 (js "cat" ∈ objectPrototypeKeys)). vm_compute.
    reflexivity.
Defined.

(** ** Imports *)

(** Whatever the text, after [addImport] the statement occurs in the result
    and the original text is its tail. *)
Theorem addImport_result (code importStatement : jsstring) :
  includes (addImport code importStatement) importStatement = true
  /\ exists head, addImport code importStatement = head ++ code.
Proof.
  unfold addImport. destruct (includes code importStatement) eqn:E.
  - split; [exact E | exists []; reflexivity].
  - split; [apply includes_prefix|].
    exists (importStatement ++ [ch_newline]). rewrite <- app_assoc. reflexivity.
Qed.

(** [addImport] prepends like [injectImport] exactly when the statement does
    not occur in the text yet. *)
Theorem addImport_injectImport (code importStatement : jsstring) :
  addImport code importStatement = injectImport code importStatement
  <-> includes code importStatement = false.
Proof.
  unfold addImport, injectImport. destruct (includes code importStatement); split.
  - intros H. apply (f_equal length) in H. rewrite !length_app in H. cbn in H. lia.
  - discriminate.
  - reflexivity.
  - reflexivity.
Qed.

(** ** The matcher never moves backwards *)

Lemma repeat_star_progress (body : mstate -> cont -> option mstate) (gs : list nat)
    (greedy : bool) :
  (forall x c z, body x c = Some z -> exists y, c y = Some z /\ epos x <= epos y) ->
  forall fuel x c z,
    repeat_star body gs greedy fuel x c = Some z ->
    exists y, c y = Some z /\ epos x <= epos y.
Proof.
  intros Hbody. induction fuel as [|fuel IH]; intros x c z; cbn [repeat_star];
    [discriminate|].
  assert (Hloop : forall z',
             body (reset_captures gs x)
               (fun y => if epos y =? epos x then None
                         else repeat_star body gs greedy fuel y c) = Some z' ->
             exists y, c y = Some z' /\ epos x <= epos y).
  { intros z' H. apply Hbody in H as (y & Hy & Hle). cbn [reset_captures epos] in Hle.
    destruct (epos y =? epos x); [discriminate|].
    apply IH in Hy as (y' & Hy' & Hle'). exists y'. split; [exact Hy' | lia]. }
  destruct greedy; unfold orelse.
  - destruct (body (reset_captures gs x) _) as [z'|] eqn:E.
    + intros [= <-]. apply Hloop. reflexivity.
    + intros H. exists x. split; [exact H | lia].
  - destruct (c x) as [z'|] eqn:E.
    + intros [= <-]. exists x. split; [exact E | lia].
    + apply Hloop.
Qed.

(** A successful match hands the continuation a state at or after the one
    it started from. *)
Lemma m_progress (str : jsstring) (r : regex) :
  forall x c z, m str r x c = Some z -> exists y, c y = Some z /\ epos x <= epos y.
Proof.
  assert (Hstep : forall p x c z, char_step str p x c = Some z ->
                    exists y, c y = Some z /\ epos x <= epos y).
  { intros p x c z. unfold char_step. destruct (str !! epos x); [|discriminate].
    destruct (p n); [|discriminate]. intros H. eexists. split; [exact H|]. cbn. lia. }
  induction r as [|ch| |cneg items| | |wneg|r1 IH1 r2 IH2|r1 IH1 r2 IH2|i r IH
                  |neg r IH|q greedy r IH];
    intros x c z; cbn [m].
  - intros H. exists x. split; [exact H | lia].
  - apply Hstep.
  - apply Hstep.
  - apply Hstep.
  - destruct (epos x =? 0); [|discriminate]. intros H. exists x. split; [exact H | lia].
  - destruct (epos x =? length str); [|discriminate].
    intros H. exists x. split; [exact H | lia].
  - destruct (xorb wneg _); [|discriminate]. intros H. exists x. split; [exact H | lia].
  - intros H. apply IH1 in H as (y1 & H & Hle1). apply IH2 in H as (y2 & H & Hle2).
    exists y2. split; [exact H | lia].
  - unfold orelse. destruct (m str r1 x c) as [z'|] eqn:E.
    + intros [= <-]. apply IH1. exact E.
    + apply IH2.
  - intros H. apply IH in H as (y & H & Hle). eexists. split; [exact H|]. cbn. lia.
  - destruct (m str r x Some) as [y|]; destruct neg; try discriminate.
    + intros H. eexists. split; [exact H|]. cbn. lia.
    + intros H. exists x. split; [exact H | lia].
  - destruct q.
    + apply repeat_star_progress. exact IH.
    + intros H. apply IH in H as (y & H & Hle). cbn [reset_captures epos] in Hle.
      apply (repeat_star_progress _ _ _ IH) in H as (y' & H & Hle').
      exists y'. split; [exact H | lia].
    + assert (Hbody : forall z',
                m str r (reset_captures (groups r) x)
                  (fun y => if epos y =? epos x then None else c y) = Some z' ->
                exists y, c y = Some z' /\ epos x <= epos y).
      { intros z' E. apply IH in E as (y & H & Hle). cbn [reset_captures epos] in Hle.
        destruct (epos y =? epos x); [discriminate|]. exists y. split; [exact H | lia]. }
      destruct greedy; unfold orelse.
      * destruct (m str r (reset_captures (groups r) x) _) as [z'|].
        -- intros [= <-]. apply Hbody. reflexivity.
        -- intros H. exists x. split; [exact H | lia].
      * destruct (c x) as [z'|] eqn:Ec.
        -- intros [= <-]. exists x. split; [exact Ec | lia].
        -- apply Hbody.
Qed.

(** ** Termination of [getAllDirectiveScopes] *)

Lemma directivePattern_plain (directiveName : jsstring) :
  plain directiveName = true ->
  directivePattern directiveName = Normal (markerPattern directiveName).
Proof.
  intros HN. unfold directivePattern, RegExp, markerPattern. eval_js.
  parse_steps HN. normalize_build. reflexivity.
Qed.

Lemma markerPattern_nonempty (directiveName code : jsstring) (i : nat) (y : mstate) :
  m code (markerPattern directiveName) (MState i []) Some = Some y -> i < epos y.
Proof.
  unfold markerPattern. change (dq ++ js "use") with [34%N; 117%N; 115%N; 101%N].
  cbn [chars foldr]. rewrite m_seq.
  match goal with
  | |- m code (RChar 34) ?x ?c = _ -> _ =>
    change (m code (RChar 34) x c) with (char_step code (N.eqb 34) x c)
  end.
  unfold char_step. cbn [epos captures].
  destruct (code !! i) as [a|]; [|discriminate].
  destruct (34 =? a)%N; [|discriminate].
  intros H. apply m_progress in H as (y' & [= <-] & Hle). cbn [epos] in Hle. lia.
Qed.

Lemma allScopesLoop_more_fuel (r : regex) (code : jsstring) (fuel lastIndex : nat)
    (acc scopes : list DirectiveScope) :
  allScopesLoop r code fuel lastIndex acc = Some scopes ->
  allScopesLoop r code (S fuel) lastIndex acc = Some scopes.
Proof.
  revert lastIndex acc. induction fuel as [|fuel IH]; intros lastIndex acc;
    [discriminate|].
  cbn [allScopesLoop]. destruct (regExpExec r code lastIndex) as [mt|]; [|auto].
  destruct ((index mt =? 0) || _); [auto|]. apply IH.
Qed.

Lemma allScopesLoop_terminates (r : regex) (code : jsstring) :
  (forall i y, m code r (MState i []) Some = Some y -> i < epos y) ->
  forall fuel lastIndex acc,
    1 <= fuel -> length code + 2 <= fuel + lastIndex ->
    exists scopes, allScopesLoop r code fuel lastIndex acc = Some scopes.
Proof.
  intros Hne. induction fuel as [|fuel IH]; intros lastIndex acc H1 H2; [lia|].
  cbn [allScopesLoop]. destruct (regExpExec r code lastIndex) as [mt|] eqn:E; [|eauto].
  destruct ((index mt =? 0) || _); [eauto|].
  apply regExpExec_Some in E as (Hi & Hm & _). apply Hne in Hm.
  apply IH; lia.
Qed.

(** For a directive name without metacharacters the loop of
    [getAllDirectiveScopes] ends: every match is at least as long as the
    quote that starts it, so [lastIndex] grows; one result is returned for
    every fuel of at least the length of the text plus two. *)
Theorem getAllDirectiveScopes_terminates (code directiveName : jsstring) :
  plain directiveName = true ->
  exists scopes,
    forall fuel, length code + 2 <= fuel ->
      getAllDirectiveScopes fuel code directiveName = Normal (Some scopes).
Proof.
  intros HN. unfold getAllDirectiveScopes. rewrite (directivePattern_plain _ HN).
  cbn [mbind completion_bind cbind].
  destruct (allScopesLoop_terminates (markerPattern directiveName) code
              (markerPattern_nonempty directiveName code)
              (length code + 2) 0 [] ltac:(lia) ltac:(lia)) as [scopes Hs].
  exists scopes. intros fuel Hfuel. f_equal.
  replace fuel with ((fuel - (length code + 2)) + (length code + 2)) by lia.
  induction (fuel - (length code + 2)) as [|k IH]; [exact Hs|].
  apply allScopesLoop_more_fuel. exact IH.
Qed.

Lemma getAllDirectiveScopes_terminates_witness :
  exists scopes,
    forall fuel, length twoFunctionsExample + 2 <= fuel ->
      getAllDirectiveScopes fuel twoFunctionsExample (js "test") = Normal (Some scopes).
Proof.
  apply (getAllDirectiveScopes_terminates twoFunctionsExample (js "test")).
  reflexivity.
Defined.

(** ** [getDirectiveScope] and [getAllDirectiveScopes] agree on the first marker *)

Lemma findFunctionScopeAtIndex_brace (code : jsstring) (i : nat) (scope : DirectiveScope) :
  i <= length code ->
  findFunctionScopeAtIndex code i = Some scope ->
  startIndex scope < i /\ code !! startIndex scope = Some ch_lbrace.
Proof.
  intros Hi. unfold findFunctionScopeAtIndex.
  destruct (scanBackward code i 0) as [s|] eqn:Es; [|discriminate].
  destruct (regExpExec functionNamePattern (substring code 0 s) 0); [|discriminate].
  intros [= <-]. cbn [startIndex].
  apply scanBackward_Some in Es as (H1 & H2 & _); [|lia|lia]. split; assumption.
Qed.

Lemma not_leading (code : jsstring) (s i : nat) (c : char) :
  s < i -> code !! s = Some c -> is_space c = false ->
  (i =? 0) || jsstring_eqb (trim (substring code 0 i)) [] = false.
Proof.
  intros Hs Hc Hsp. apply orb_false_iff. split; [apply Nat.eqb_neq; lia|].
  apply not_true_is_false. intros H. apply jsstring_eqb_nil, trim_nil_inv in H.
  rewrite forallb_forall in H.
  assert (Hin : In c (substring code 0 i)).
  { apply list_elem_of_In. apply (list_elem_of_lookup_2 _ s).
    unfold substring. replace (0 `min` length code) with 0 by lia.
    cbn [Nat.min]. rewrite drop_0, Nat.sub_0_r.
    replace (0 `max` (i `min` length code)) with (i `min` length code) by lia.
    apply lookup_lt_Some in Hc as Hlt. rewrite lookup_take_lt by lia. exact Hc. }
  specialize (H c Hin). congruence.
Qed.

Lemma allScopesLoop_extends (r : regex) (code : jsstring) (s : nat) (c : char) :
  code !! s = Some c -> is_space c = false ->
  forall fuel lastIndex acc scopes,
    s < lastIndex ->
    allScopesLoop r code fuel lastIndex acc = Some scopes ->
    exists rest, scopes = acc ++ rest.
Proof.
  intros Hc Hsp. induction fuel as [|fuel IH]; intros lastIndex acc scopes Hs;
    cbn [allScopesLoop]; [discriminate|].
  destruct (regExpExec r code lastIndex) as [mt|] eqn:E.
  - apply regExpExec_Some in E as (Hi & Hm & _).
    rewrite (not_leading code s (index mt) c) by (assumption || lia).
    apply m_progress in Hm as (y & [= Hy] & Hle). rewrite Hy in Hle.
    cbn [epos] in Hle.
    intros H. apply IH in H as [rest ->]; [|lia].
    destruct (findFunctionScopeAtIndex code (index mt)) as [sc|].
    + exists ([sc] ++ rest). rewrite app_assoc. reflexivity.
    + eauto.
  - intros [= <-]. exists []. rewrite app_nil_r. reflexivity.
Qed.

(** When [getDirectiveScope] finds a scope, that scope is the first element
    of every result of [getAllDirectiveScopes]. *)
Theorem getAllDirectiveScopes_head (fuel : nat) (code directiveName : jsstring)
    (scope : DirectiveScope) (scopes : list DirectiveScope) :
  getDirectiveScope code directiveName = Normal (Some scope) ->
  getAllDirectiveScopes fuel code directiveName = Normal (Some scopes) ->
  exists rest, scopes = scope :: rest.
Proof.
  unfold getDirectiveScope, getAllDirectiveScopes.
  destruct (directivePattern directiveName) as [r| |]; cbn [mbind completion_bind cbind];
    try discriminate.
  destruct (regExpExec r code 0) as [mt|] eqn:E; [|discriminate].
  intros [= Hscope] [= Hloop]. destruct fuel as [|fuel]; [discriminate|].
  cbn [allScopesLoop] in Hloop. rewrite E, Hscope in Hloop.
  apply regExpExec_Some in E as (Hi & Hm & _).
  destruct (findFunctionScopeAtIndex_brace code (index mt) scope ltac:(lia) Hscope)
    as (Hs & Hbrace).
  rewrite (not_leading code (startIndex scope) (index mt) ch_lbrace Hs Hbrace eq_refl)
    in Hloop.
  apply m_progress in Hm as (y & [= Hy] & Hle). rewrite Hy in Hle. cbn [epos] in Hle.
  apply (allScopesLoop_extends r code (startIndex scope) ch_lbrace Hbrace eq_refl)
    in Hloop as [rest ->]; [|lia].
  exists rest. reflexivity.
Qed.

Lemma getAllDirectiveScopes_head_witness :
  exists rest,
    [Scope (js "f") (js "{ " ++ dq ++ js "use test" ++ dq ++ js " }") 13 27]
    = Scope (js "f") (js "{ " ++ dq ++ js "use test" ++ dq ++ js " }") 13 27 :: rest.
Proof.
  apply (getAllDirectiveScopes_head 3 oneFunctionExample (js "test")).
  - vm_compute. reflexivity.
  - vm_compute. reflexivity.
Defined.

(** ** Mutators on a text without their target *)

Lemma needs_nil (r : regex) : needs r [].
Proof. intros str x c H. discriminate H. Qed.

Lemma needs_seq (r k : regex) (s : jsstring) : needs r s -> needs (RSeq r k) s.
Proof. intros Hr str x c H. rewrite m_seq. apply Hr. exact H. Qed.

Lemma needs_group (i : nat) (r : regex) (s : jsstring) : needs r s -> needs (RGroup i r) s.
Proof. intros Hr str x c H. rewrite m_group. apply Hr. exact H. Qed.

Lemma needs_boundary (neg : bool) (r : regex) (s : jsstring) :
  needs r s -> needs (RSeq (RWordBoundary neg) r) s.
Proof.
  intros Hr str x c H. rewrite m_seq. cbn [m].
  destruct (xorb neg _); [|reflexivity]. apply Hr. exact H.
Qed.

Lemma needs_char (a : char) (r : regex) (s : jsstring) :
  needs r s -> needs (RSeq (RChar a) r) (a :: s).
Proof.
  intros Hr str [e caps] c H. rewrite m_seq. cbn [epos] in H.
  change (m str (RChar a) ?x ?k) with (char_step str (N.eqb a) x k).
  unfold char_step. cbn [epos captures].
  destruct (str !! e) as [b|] eqn:Eb; [|reflexivity].
  destruct (a =? b)%N eqn:Eab; [|reflexivity].
  apply Hr. cbn [epos]. rewrite (drop_S _ b _ Eb), startsWith_cons, Eab in H.
  exact H.
Qed.

Lemma needs_chars (s t : jsstring) (k : regex) : needs k t -> needs (chars s k) (s ++ t).
Proof.
  intros Hk. induction s as [|a s IH]; [exact Hk|].
  cbn [chars foldr app]. apply needs_char. exact IH.
Qed.

Lemma needs_chars_only (s : jsstring) (k : regex) : needs (chars s k) s.
Proof. rewrite <- (app_nil_r s) at 2. apply needs_chars, needs_nil. Qed.

Lemma regExpExec_needs (r : regex) (code s : jsstring) (lastIndex : nat) :
  needs r s -> includes code s = false -> regExpExec r code lastIndex = None.
Proof.
  intros Hr Hs. apply (regExpExec_absent _ _ s); [|exact Hs].
  intros i Hi. apply Hr. exact Hi.
Qed.

Lemma replaceAll_needs (r : regex) (code s template : jsstring) :
  needs r s -> includes code s = false -> replaceAll r code template = code.
Proof.
  intros Hr Hs. apply replaceAllWith_no_match. apply (regExpExec_needs _ _ s); assumption.
Qed.

Ltac solve_needs :=
  repeat first
    [ apply needs_chars_only
    | apply needs_char
    | apply needs_seq
    | apply needs_group
    | apply needs_boundary
    | apply needs_nil ].

Lemma removeComponent_patterns (C : jsstring) :
  plain C = true ->
  exists r1 r2,
    RegExp (js "<" ++ C ++ js "\s*(?:[^>]*?)\s*/>") = Normal r1
    /\ RegExp (js "<" ++ C ++ js "(?:\s[^>]*)?>([^<]*(?:<(?!/?" ++ C
               ++ js "\b)[^<]*)*)</\s*" ++ C ++ js "\s*>") = Normal r2
    /\ needs r1 (60%N :: C) /\ needs r2 (60%N :: C).
Proof.
  intros HC. unfold RegExp. eval_js. parse_steps HC. normalize_build.
  do 2 eexists. split; [reflexivity|]. split; [reflexivity|].
  split; (apply needs_char; apply needs_chars_only).
Qed.

Lemma wrapComponent_pattern (C : jsstring) :
  plain C = true ->
  exists r,
    RegExp (js "(<" ++ C ++ js "(?:\s[^>]*)?(?:>.*?</\s*" ++ C ++ js "\s*>|\s*/?>))")
    = Normal r
    /\ needs r (60%N :: C).
Proof.
  intros HC. unfold RegExp. eval_js. parse_steps HC. normalize_build.
  eexists. split; [reflexivity|].
  apply needs_seq, needs_group, needs_char, needs_chars_only.
Qed.

(** A component that does not occur in the text: for a component name
    without metacharacters the component mutators return the text as it
    is. *)
Theorem component_mutators_without_component
    (code componentName : jsstring) :
  plain componentName = true ->
  includes code (js "<" ++ componentName) = false ->
  (forall replacementComponent,
     replaceComponent code componentName replacementComponent = Normal code)
  /\ removeComponent code componentName = Normal code
  /\ (forall wrapperComponent wrapperProps,
        wrapComponent code componentName wrapperComponent wrapperProps = Normal code)
  /\ (forall propName propValue,
        addProp code componentName propName propValue = Normal code)
  /\ (forall propName,
        plain propName = true -> removeProp code componentName propName = Normal code).
Proof.
  intros HC Hno. change (js "<" ++ componentName) with (60%N :: componentName) in Hno.
  split; [|split; [|split; [|split]]].
  - intros R. unfold replaceComponent.
    destruct (replaceComponent_pattern componentName HC) as [K ->].
    cbn [mbind completion_bind cbind]. f_equal. apply replaceAll_absent. exact Hno.
  - unfold removeComponent.
    destruct (removeComponent_patterns componentName HC) as (r1 & r2 & -> & -> & H1 & H2).
    cbn [mbind completion_bind cbind]. f_equal.
    rewrite (replaceAll_needs r1 code _ _ H1 Hno).
    apply (replaceAll_needs r2 code _ _ H2 Hno).
  - intros W Wp. unfold wrapComponent.
    destruct (wrapComponent_pattern componentName HC) as (r & -> & Hr).
    cbn [mbind completion_bind cbind]. f_equal.
    apply (replaceAll_needs r code _ _ Hr Hno).
  - intros P V. unfold addProp. rewrite (addProp_pattern _ HC).
    cbn [mbind completion_bind cbind]. f_equal.
    apply (replaceAll_needs _ code (60%N :: componentName)); [|exact Hno].
    unfold addPropPattern. apply needs_seq, needs_group, needs_char, needs_chars_only.
  - intros P HP. unfold removeProp. rewrite (removeProp_pattern _ _ HC HP).
    cbn [mbind completion_bind cbind].
    rewrite (regExpExec_needs _ code (60%N :: componentName)); [reflexivity| |exact Hno].
    unfold removePropPattern. apply needs_char, needs_chars_only.
Qed.

Lemma component_mutators_without_component_witness :
  removeComponent (js "<a>x</a>") (js "Spinner") = Normal (js "<a>x</a>")
  /\ addProp (js "<a>x</a>") (js "Spinner") (js "size") (js "1") = Normal (js "<a>x</a>").
Proof.
  destruct (component_mutators_without_component (js "<a>x</a>") (js "Spinner")
              eq_refl eq_refl) as (_ & H2 & _ & H4 & _).
  split; [exact H2 | exact (H4 (js "size") (js "1"))].
Defined.

Lemma replaceHook_pattern (H : jsstring) :
  plain H = true ->
  exists r, RegExp (js "\b" ++ H ++ js "\b") = Normal r /\ needs r H.
Proof.
  intros HH. unfold RegExp. eval_js. parse_steps HH. normalize_build.
  eexists. split; [reflexivity|]. apply needs_boundary, needs_chars_only.
Qed.

(** A hook name without metacharacters that does not occur in the text:
    [replaceHook] returns the text as it is. *)
Theorem replaceHook_without_hook (code hookName replacementHook : jsstring) :
  plain hookName = true ->
  includes code hookName = false ->
  replaceHook code hookName replacementHook = Normal code.
Proof.
  intros HH Hno. unfold replaceHook.
  destruct (replaceHook_pattern hookName HH) as (r & -> & Hr).
  cbn [mbind completion_bind cbind]. f_equal.
  apply (replaceAll_needs r code _ _ Hr Hno).
Qed.

Lemma replaceHook_without_hook_witness :
  replaceHook (js "const [a, b] = useMemo(f);") (js "useState") (js "useAtom")
  = Normal (js "const [a, b] = useMemo(f);").
Proof. apply replaceHook_without_hook; reflexivity. Defined.

Lemma removeImport_patterns (N : jsstring) :
  plain N = true ->
  exists r1 r2,
    RegExp (js "import\s*\{[^}]*" ++ N ++ js "[^}]*\}\s*from\s*[" ++ dq ++ js "'][^"
            ++ dq ++ js "']*[" ++ dq ++ js "'];?\s*\n?") = Normal r1
    /\ RegExp (js "import\s+" ++ N ++ js "\s+from\s+[" ++ dq ++ js "'][^"
               ++ dq ++ js "']*[" ++ dq ++ js "'];?\s*\n?") = Normal r2
    /\ needs r1 (js "import") /\ needs r2 (js "import").
Proof.
  intros HN. unfold RegExp. eval_js. rewrite <- ?app_assoc. parse_steps HN.
  normalize_build. do 2 eexists. split; [reflexivity|]. split; [reflexivity|].
  change (js "import") with [105%N; 109%N; 112%N; 111%N; 114%N; 116%N].
  split; solve_needs.
Qed.

(** A text without the word [import]: [removeImport] returns it as it is. *)
Theorem removeImport_without_import (code importName : jsstring) :
  plain importName = true ->
  includes code (js "import") = false ->
  removeImport code importName = Normal code.
Proof.
  intros HN Hno. unfold removeImport.
  destruct (removeImport_patterns importName HN) as (r1 & r2 & -> & -> & H1 & H2).
  cbn [mbind completion_bind cbind].
  rewrite (replaceAll_needs r1 code _ _ H1 Hno). f_equal.
  apply (replaceAll_needs r2 code _ _ H2 Hno).
Qed.

Lemma removeImport_without_import_witness :
  removeImport (js "const x = 1;") (js "useState") = Normal (js "const x = 1;").
Proof. apply removeImport_without_import; reflexivity. Defined.

(** A text with neither the word [function] nor the word [const]:
    [injectFunctionCode] returns it as it is. *)
Theorem injectFunctionCode_without_functions (baseCode injectionCode : jsstring) :
  includes baseCode (js "function") = false ->
  includes baseCode (js "const") = false ->
  injectFunctionCode baseCode injectionCode = baseCode.
Proof.
  intros Hf Hc. unfold injectFunctionCode. cbn [fold_left].
  rewrite (replaceAllWith_no_match _ baseCode).
  - apply replaceAllWith_no_match.
    apply (regExpExec_needs _ _ (js "const")); [|exact Hc].
    vm_compute regexLiteral. change (js "const") with [99%N; 111%N; 110%N; 115%N; 116%N].
    apply needs_seq, needs_group, needs_boundary. solve_needs.
  - apply (regExpExec_needs _ _ (js "function")); [|exact Hf].
    vm_compute regexLiteral.
    change (js "function")
      with [102%N; 117%N; 110%N; 99%N; 116%N; 105%N; 111%N; 110%N].
    apply needs_seq, needs_group, needs_boundary. solve_needs.
Qed.

Lemma injectFunctionCode_without_functions_witness :
  injectFunctionCode (js "let x = () => { y };") (js "log();")
  = js "let x = () => { y };".
Proof. apply injectFunctionCode_without_functions; reflexivity. Defined.

(** ** Markers as text *)

(** The marker pattern of a name without metacharacters at a text that reads
    [use] in double quotes with white space before the name. *)
Lemma markerPattern_hit (code directiveName ws rest : jsstring) (i : nat) :
  forallb is_word directiveName = true ->
  ws <> [] -> forallb is_space ws = true ->
  drop i code = (dq ++ js "use") ++ ws ++ directiveName ++ dq ++ rest ->
  matchesAt (markerPattern directiveName) code i.
Proof.
  intros HN Hne Hws Hd. unfold matchesAt, markerPattern.
  rewrite (m_chars_hit _ _ _ _ _ _ _ Hd).
  pose proof (cursor_skip _ _ _ _ Hd) as Hd1.
  destruct ws as [|a ws']; [congruence|]. cbn [forallb] in Hws.
  apply andb_true_iff in Hws as [Ha Hws]. cbn [app] in Hd1.
  rewrite m_seq. unfold re_space at 1.
  change (m code (RQuant QPlus true ?r) ?x ?c)
    with (m code r (reset_captures (groups r) x)
            (fun y => repeat_star (m code r) (groups r) true
                        (S (length code - epos y)) y c)).
  change (groups (RClass false [CSpace false])) with (@nil nat).
  rewrite reset_captures_nil.
  change (m code (RClass false [CSpace false]) ?x ?c)
    with (char_step code (class_matches false [CSpace false]) x c).
  rewrite (char_step_hit _ _ _ _ _ _ _ Hd1) by (rewrite class_space; exact Ha).
  pose proof (cursor_next _ _ _ _ Hd1) as Hd2. cbn [epos].
  change (repeat_star (m code (RClass false [CSpace false])))
    with (repeat_star (char_step code (class_matches false [CSpace false]))).
  rewrite (repeat_star_run code ws' (directiveName ++ dq ++ rest) _ _ _ _ _ Hd2).
  - pose proof (cursor_skip _ _ _ _ Hd2) as Hd3.
    erewrite tryDown_first; [eauto|].
    rewrite (m_chars_hit _ _ _ _ _ _ _ Hd3).
    pose proof (cursor_skip _ _ _ _ Hd3) as Hd4. cbn [app dq] in Hd4.
    rewrite m_seq, (m_char_hit _ _ _ _ _ _ Hd4), m_empty. reflexivity.
  - clear - Hws. induction ws' as [|b ws' IH]; [reflexivity|].
    cbn [forallb] in *. apply andb_true_iff in Hws as [Hb Hws].
    rewrite class_space, Hb. exact (IH Hws).
  - destruct directiveName as [|n0 N'].
    + cbn [app dq]. reflexivity.
    + cbn [app]. cbn [forallb] in HN. apply andb_true_iff in HN as [Hn _].
      rewrite class_space. apply is_word_not_space. exact Hn.
  - apply (f_equal length) in Hd2. rewrite length_drop in Hd2.
    rewrite !length_app in *. lia.
Qed.

(** A file that starts, after white space only, with the marker text makes
    [getAllDirectiveScopes] return the single scope of the whole file. *)
Theorem getAllDirectiveScopes_leading_marker_text
    (fuel : nat) (directiveName pre ws post : jsstring) :
  forallb is_word directiveName = true ->
  forallb is_space pre = true ->
  ws <> [] -> forallb is_space ws = true ->
  0 < fuel ->
  let code := pre ++ (dq ++ js "use") ++ ws ++ directiveName ++ dq ++ post in
  getAllDirectiveScopes fuel code directiveName
  = Normal (Some [Scope (js "global") code 0 (length code)]).
Proof.
  intros HN Hpre Hne Hws Hfuel code. unfold getAllDirectiveScopes.
  rewrite (directivePattern_plain _ (is_word_plain _ HN)).
  cbn [mbind completion_bind cbind]. destruct fuel as [|fuel]; [lia|].
  cbn [allScopesLoop].
  assert (Hm : matchesAt (markerPattern directiveName) code (length pre)).
  { apply (markerPattern_hit code directiveName ws post); [assumption..|].
    apply (cursor_at _ pre); reflexivity. }
  assert (Hlen : length pre <= length code) by (subst code; rewrite length_app; lia).
  destruct (regExpExec_leftmost _ code 0 (length pre) ltac:(lia) Hm) as (mt & -> & Hle).
  rewrite substring_0 by lia.
  rewrite (trim_all_space (take (index mt) code)).
  - rewrite orb_true_r. reflexivity.
  - subst code. rewrite take_app_le by lia.
    apply (forallb_take _ _ (length pre)); [lia|]. rewrite firstn_all. exact Hpre.
Qed.

Lemma getAllDirectiveScopes_leading_marker_text_witness :
  getAllDirectiveScopes 1 leadingMarkerExample (js "test")
  = Normal (Some [Scope (js "global") leadingMarkerExample 0
                        (length leadingMarkerExample)]).
Proof.
  refine (getAllDirectiveScopes_leading_marker_text 1 (js "test")
            ([ch_newline] ++ js "  ") (js " ") (js ";" ++ oneFunctionExample)
            eq_refl eq_refl _ eq_refl _).
  - discriminate.
  - lia.
Defined.

(** A text in which [use] never follows a double quote has no marker: for
    every name without metacharacters [getDirectiveScope] returns [null] and
    [getAllDirectiveScopes] the empty array. *)
Theorem scopes_without_marker_text (fuel : nat) (code directiveName : jsstring) :
  plain directiveName = true ->
  includes code (dq ++ js "use") = false ->
  getDirectiveScope code directiveName = Normal None
  /\ getAllDirectiveScopes (S fuel) code directiveName = Normal (Some []).
Proof.
  intros HN Hno. unfold getDirectiveScope, getAllDirectiveScopes.
  rewrite (directivePattern_plain _ HN).
  cbn [mbind completion_bind cbind allScopesLoop].
  rewrite (regExpExec_needs _ code (dq ++ js "use"));
    [split; reflexivity | apply needs_chars_only | exact Hno].
Qed.

Lemma scopes_without_marker_text_witness :
  getDirectiveScope (js "let use = 1;") (js "test") = Normal None
  /\ getAllDirectiveScopes 1 (js "let use = 1;") (js "test") = Normal (Some []).
Proof. apply (scopes_without_marker_text 0); reflexivity. Defined.

(** ** Adding and removing an attribute *)

(** On a text with one opening tag of the component, [addProp] puts the new
    attribute, with its value in double quotes, at the end of the tag and
    leaves the rest of the text as it is. *)
Theorem addProp_appends_attribute (pre C P V attrs post : jsstring) :
  forallb is_word C = true -> lacks 36 P = true -> lacks 36 V = true ->
  includes pre (60%N :: C) = false -> includes post (60%N :: C) = false ->
  attributeText attrs ->
  addProp (tagText pre C attrs post) C P V
  = Normal (tagText pre C (attrs ++ propText P V) post).
Proof. apply addProp_tagText. Qed.

Lemma addProp_appends_attribute_witness :
  addProp (js "<p><Button kind='a'>Go</Button></p>") (js "Button") (js "size") (js "4")
  = Normal (js "<p><Button kind='a' size=" ++ dq ++ js "4" ++ dq ++ js ">Go</Button></p>").
Proof.
  refine (addProp_appends_attribute (js "<p>") (js "Button") (js "size") (js "4")
            (js " kind='a'") (js "Go</Button></p>") eq_refl eq_refl eq_refl eq_refl
            eq_refl _).
  split; reflexivity.
Defined.

(** On a text with one opening tag of the component that ends with the
    attribute in double quotes, [removeProp] takes exactly that attribute
    out, when no white space before it in the tag is followed by the name. *)
Theorem removeProp_removes_attribute (pre C P V attrs post : jsstring) :
  forallb is_word C = true -> forallb is_word P = true -> forallb valueChar V = true ->
  includes pre (60%N :: C) = false -> includes post (60%N :: C) = false ->
  attributeText attrs -> attributeAbsent P attrs ->
  removeProp (tagText pre C (attrs ++ propText P V) post) C P
  = Normal (tagText pre C attrs post).
Proof. apply removeProp_tagText. Qed.

Lemma removeProp_removes_attribute_witness :
  removeProp (js "<Button kind='a' size=" ++ dq ++ js "4" ++ dq ++ js ">Go</Button>")
    (js "Button") (js "size")
  = Normal (js "<Button kind='a'>Go</Button>").
Proof.
  refine (removeProp_removes_attribute [] (js "Button") (js "size") (js "4")
            (js " kind='a'") (js "Go</Button>") eq_refl eq_refl eq_refl eq_refl
            eq_refl _ _).
  - split; reflexivity.
  - intros j a Hj _.
    do 9 (destruct j as [|j]; [vm_compute; reflexivity|]).
    vm_compute in Hj. destruct j; discriminate Hj.
Defined.

(** ** The plugin: applying directives *)

Lemma foldl_dispatchStep_None (d : Directives) (ds : list jsstring) :
  foldl (dispatchStep d) None ds = None.
Proof. induction ds as [|x ds IH]; [reflexivity|]. cbn [foldl]. exact IH. Qed.

Lemma dispatchStep_processed (d : Directives) (x : jsstring) p c p' c' :
  dispatchStep d (Some (p, c)) x = Some (p', c') ->
  p ⊆ p'
  /\ forall n, directiveNameOf x = Some n -> n = [] \/ n ∈ p'.
Proof.
  unfold dispatchStep. cbn [mbind option_bind].
  destruct (directiveNameOf x) as [n|]; [|intros [= <- <-]; split; [set_solver | discriminate]].
  destruct (decide (n = [])) as [-> | Hn].
  { rewrite bool_decide_eq_true_2 by reflexivity. cbn [orb].
    intros [= <- <-]. split; [set_solver | intros ? [= <-]; left; reflexivity]. }
  rewrite (bool_decide_eq_false_2 (n = [])) by exact Hn. cbn [orb].
  destruct (decide (n ∈ p)) as [Hin | Hin].
  { rewrite bool_decide_eq_true_2 by exact Hin.
    intros [= <- <-]. split; [set_solver | intros ? [= <-]; right; exact Hin]. }
  rewrite bool_decide_eq_false_2 by exact Hin.
  destruct (useHandler _); intros [= <- <-];
    (split; [set_solver | intros ? [= <-]; right; set_solver]).
Qed.

Lemma foldl_dispatchStep_processed (d : Directives) (ds : list jsstring) p c p' c' :
  foldl (dispatchStep d) (Some (p, c)) ds = Some (p', c') ->
  p ⊆ p'
  /\ forall x n, x ∈ ds -> directiveNameOf x = Some n -> n = [] \/ n ∈ p'.
Proof.
  revert p c. induction ds as [|y ds IH]; intros p c; cbn [foldl].
  - intros [= <- <-]. split; [set_solver|]. intros x n Hx. apply elem_of_nil in Hx.
    contradiction.
  - destruct (dispatchStep d (Some (p, c)) y) as [[p1 c1]|] eqn:E;
      [|rewrite foldl_dispatchStep_None; discriminate].
    intros H. apply IH in H as (Hsub & Hall).
    apply dispatchStep_processed in E as (Hsub1 & Hy).
    split; [etransitivity; eassumption|].
    intros x n Hx Hn. apply elem_of_cons in Hx as [-> | Hx].
    + destruct (Hy n Hn) as [?|Hp1]; [left; assumption | right; exact (Hsub n Hp1)].
    + exact (Hall x n Hx Hn).
Qed.

(** A marker whose name already occurred earlier in the file is skipped:
    every distinct directive is applied once, at its first marker. *)
Theorem repeated_marker_skipped (d : Directives) (st : gset (list N) * list N)
    (ds1 ds2 : list jsstring) (first again : jsstring) :
  first ∈ ds1 ->
  directiveNameOf first = directiveNameOf again ->
  foldl (dispatchStep d) (Some st) (ds1 ++ again :: ds2)
  = foldl (dispatchStep d) (Some st) (ds1 ++ ds2).
Proof.
  intros Hin Hname. rewrite !foldl_app. cbn [foldl]. f_equal.
  destruct st as [p c].
  destruct (foldl (dispatchStep d) (Some (p, c)) ds1) as [[p1 c1]|] eqn:E; [|reflexivity].
  apply foldl_dispatchStep_processed in E as (_ & Hall).
  unfold dispatchStep. cbn [mbind option_bind].
  destruct (directiveNameOf again) as [n|] eqn:En; [|reflexivity].
  destruct (Hall first n Hin Hname) as [-> | Hp].
  - rewrite bool_decide_eq_true_2 by reflexivity. reflexivity.
  - rewrite (bool_decide_eq_true_2 (n ∈ p1)) by exact Hp. rewrite orb_true_r.
    reflexivity.
Qed.

Lemma repeated_marker_skipped_witness :
  foldl (dispatchStep DirectiveRegistry.new) (Some (∅, js "x"))
    ([dq ++ js "use cat" ++ dq] ++ (dq ++ js "use  cat" ++ dq ++ js ";") :: [])
  = foldl (dispatchStep DirectiveRegistry.new) (Some (∅, js "x"))
      ([dq ++ js "use cat" ++ dq] ++ []).
Proof.
  apply (repeated_marker_skipped DirectiveRegistry.new (∅, js "x")
           [dq ++ js "use cat" ++ dq] [] (dq ++ js "use cat" ++ dq)).
  - apply list_elem_of_singleton. reflexivity.
  - vm_compute. reflexivity.
Defined.

(** A file in which [use] never follows a double quote is left alone. *)
Theorem applyDirectives_without_marker (d : Directives) (code id : jsstring) :
  includes code (dq ++ js "use") = false ->
  applyDirectives d code id = NoChange.
Proof.
  intros Hno. unfold applyDirectives.
  destruct (negb _); [reflexivity|]. destruct (includes id _); [reflexivity|].
  unfold matchAll. cbn [matchLoop].
  rewrite (regExpExec_needs _ code (dq ++ js "use")); [reflexivity | | exact Hno].
  vm_compute DIRECTIVE_PATTERN. change (dq ++ js "use") with [34%N; 117%N; 115%N; 101%N].
  solve_needs.
Qed.

Lemma applyDirectives_without_marker_witness :
  applyDirectives DirectiveRegistry.new (js "let use = 1;") (js "a.ts") = NoChange.
Proof. apply applyDirectives_without_marker. reflexivity. Defined.

(** A marker whose name is found in the registry object but is no handler (a
    name inherited from [Object.prototype], say) makes [transform] fail with
    a [TypeError]: the value is truthy and its [handler] is not a function. *)
Theorem applyDirectives_not_callable (d : Directives) (code id : jsstring)
    (directives : list jsstring) (directiveMatch directiveName : jsstring) :
  existsb (fun ext => endsWith id (js "." ++ ext)) [js "ts"; js "tsx"; js "js"; js "jsx"]
  = true ->
  includes id (js "node_modules") = false ->
  matchAll DIRECTIVE_PATTERN code = Some (directiveMatch :: directives) ->
  directiveNameOf directiveMatch = Some directiveName ->
  directiveName <> [] ->
  useHandler (DirectiveRegistry.getDirective d directiveName) = NotCallable ->
  applyDirectives d code id = TypeErrorThrown.
Proof.
  intros Hext Hnm Hmatch Hname Hne Huse. unfold applyDirectives.
  rewrite Hext, Hnm, Hmatch. cbn [negb foldl].
  replace (dispatchStep d (Some (∅, code)) directiveMatch) with (@None (gset (list N) * list N)).
  - rewrite foldl_dispatchStep_None. reflexivity.
  - unfold dispatchStep. cbn [mbind option_bind]. rewrite Hname.
    rewrite (bool_decide_eq_false_2 (directiveName = [])) by exact Hne.
    rewrite (bool_decide_eq_false_2 (directiveName ∈ ∅)) by set_solver.
    cbn [orb]. rewrite Huse. reflexivity.
Qed.

Lemma applyDirectives_not_callable_witness :
  applyDirectives DirectiveRegistry.new (dq ++ js "use constructor" ++ dq ++ js ";")
    (js "src/App.tsx") = TypeErrorThrown.
Proof.
  apply (applyDirectives_not_callable _ _ _ []
           (dq ++ js "use constructor" ++ dq ++ js ";") (js "constructor")).
  - vm_compute. reflexivity.
  - vm_compute. reflexivity.
  - vm_compute. reflexivity.
  - vm_compute. reflexivity.
  - discriminate.
  - vm_compute. reflexivity.
Defined.

(** ** The plugin: the body of a handler *)

Lemma handlerBodyEnd_loop (obj : jsstring) (start : nat) :
  forall fuel i bc,
    start <= i -> length obj <= i + fuel ->
    bc = (1 - braceBalance (slice obj start i))%Z -> (0 < bc)%Z ->
    let e := handlerBodyEnd obj fuel i bc start in
    (obj !! e = Some ch_rbrace /\ i <= e
     /\ braceBalance (slice obj start (S e)) = 1%Z
     /\ forall k, i <= k < e -> (braceBalance (slice obj start (S k)) < 1)%Z)
    \/ (e = start
        /\ forall k, i <= k < length obj -> (braceBalance (slice obj start (S k)) < 1)%Z).
Proof.
  induction fuel as [|fuel IH]; intros i bc Hi Hfuel Hbc Hpos; cbn [handlerBodyEnd].
  - right. split; [reflexivity|]. intros k Hk. lia.
  - destruct (obj !! i) as [ch|] eqn:Ech.
    + pose proof (braceBalance_slice_S obj i start ch Ech Hi) as HS.
      assert (Hd : (if (ch =? ch_rbrace)%N
                    then (if (ch =? ch_lbrace)%N then bc + 1 else bc) - 1
                    else if (ch =? ch_lbrace)%N then bc + 1 else bc)%Z
                   = (bc - braceDelta ch)%Z).
      { unfold braceDelta.
        destruct (ch =? ch_rbrace)%N eqn:Er, (ch =? ch_lbrace)%N eqn:El; try lia.
        exfalso. eapply rbrace_not_lbrace; eassumption. }
      rewrite Hd.
      destruct (bc - braceDelta ch =? 0)%Z eqn:Ez.
      * apply Z.eqb_eq in Ez. left. split; [|split; [lia|split; [lia|intros k Hk; lia]]].
        unfold braceDelta in Ez.
        destruct (ch =? ch_rbrace)%N eqn:Er.
        -- apply N.eqb_eq in Er. subst ch. exact Ech.
        -- destruct (ch =? ch_lbrace)%N; lia.
      * apply Z.eqb_neq in Ez.
        assert (Hpos' : (0 < bc - braceDelta ch)%Z).
        { unfold braceDelta in *.
          destruct (ch =? ch_rbrace)%N, (ch =? ch_lbrace)%N; lia. }
        specialize (IH (S i) (bc - braceDelta ch)%Z ltac:(lia) ltac:(lia) ltac:(lia) Hpos').
        cbn zeta in IH. destruct IH as [(He & Hle & Hbal & Hmin) | (He & Hall)].
        -- left. split; [exact He|]. split; [lia|]. split; [exact Hbal|].
           intros k Hk. destruct (decide (k = i)) as [-> | Hne]; [lia | apply Hmin; lia].
        -- right. split; [exact He|]. intros k Hk.
           destruct (decide (k = i)) as [-> | Hne]; [lia | apply Hall; lia].
    + right. split; [reflexivity|]. intros k Hk. apply lookup_ge_None in Ech. lia.
Qed.

(** The end of a handler body is the first offset from [startIndex] on at
    which the braces read so far close the handler's opening brace; a closing
    brace stands there and is not part of the body.  When no such offset
    exists, [endIndex] stays [startIndex] and the body is empty. *)
Theorem handlerBodyEnd_first_balance (handlerObj : jsstring) (startIndex : nat) :
  startIndex <= length handlerObj ->
  let endIndex :=
    handlerBodyEnd handlerObj (length handlerObj) startIndex 1 startIndex in
  (handlerObj !! endIndex = Some ch_rbrace /\ startIndex <= endIndex
   /\ braceBalance (slice handlerObj startIndex (S endIndex)) = 1%Z
   /\ forall k, startIndex <= k < endIndex ->
                (braceBalance (slice handlerObj startIndex (S k)) < 1)%Z)
  \/ (endIndex = startIndex
      /\ handlerBody handlerObj startIndex = []
      /\ forall k, startIndex <= k < length handlerObj ->
                   (braceBalance (slice handlerObj startIndex (S k)) < 1)%Z).
Proof.
  intros Hs. cbn zeta.
  destruct (handlerBodyEnd_loop handlerObj startIndex (length handlerObj) startIndex 1
              ltac:(lia) ltac:(lia)) as [H | (He & Hall)].
  - rewrite braceBalance_slice_nil. reflexivity.
  - lia.
  - left. exact H.
  - right. split; [exact He|]. split; [|exact Hall].
    unfold handlerBody. rewrite He. rewrite substring_slice by lia.
    rewrite slice_nil. reflexivity.
Qed.

Lemma handlerBodyEnd_first_balance_witness :
  js "a{b}c}d" !! 5 = Some ch_rbrace.
Proof.
  destruct (handlerBodyEnd_first_balance (js "a{b}c}d") 0) as [(H & _) | (H & _)].
  - vm_compute. lia.
  - exact H.
  - vm_compute in H. discriminate H.
Defined.

(** ** [replaceText] with a literal *)

Lemma replaceLiteral_skip (l : jsstring) (k : nat) (old new : jsstring) :
  replaceLiteral l k old new = replaceLiteral (drop k l) 0 old new.
Proof.
  revert k. induction l as [|c l IH]; intros k.
  - rewrite drop_nil. destruct k; reflexivity.
  - destruct k as [|k]; [reflexivity|]. cbn [replaceLiteral drop]. apply IH.
Qed.

Lemma replaceLiteral_copy (code old new : jsstring) (i j : nat) :
  old <> [] -> i <= j -> j <= length code ->
  (forall k, i <= k < j -> startsWith (drop k code) old = false) ->
  replaceLiteral (drop i code) 0 old new
  = slice code i j ++ replaceLiteral (drop j code) 0 old new.
Proof.
  intros Hold Hij Hj. remember (j - i) as n eqn:Hn. revert i Hij Hn.
  induction n as [|n IH]; intros i Hij Hn Hno.
  - replace j with i by lia. rewrite slice_nil. reflexivity.
  - destruct (lookup_lt_is_Some_2 code i ltac:(lia)) as [c Hc].
    rewrite (drop_S _ c _ Hc). cbn [replaceLiteral].
    rewrite <- (drop_S _ c _ Hc), (Hno i) by lia.
    rewrite (IH (S i)) by (lia || (intros k Hk; apply Hno; lia)).
    unfold slice. replace (j - i) with (S (j - S i)) by lia.
    rewrite (drop_S _ c _ Hc). reflexivity.
Qed.

Lemma replaceLiteral_hit (code old new : jsstring) (j : nat) :
  old <> [] -> startsWith (drop j code) old = true ->
  replaceLiteral (drop j code) 0 old new
  = new ++ replaceLiteral (drop (j + length old) code) 0 old new.
Proof.
  intros Hold Hst. destruct (drop j code) as [|c rest] eqn:Ed.
  - destruct old; [congruence | discriminate Hst].
  - cbn [replaceLiteral]. rewrite Hst. f_equal. rewrite replaceLiteral_skip. f_equal.
    rewrite <- (cursor_next _ _ _ _ Ed), drop_drop. f_equal.
    destruct old; [congruence | cbn [length]; lia].
Qed.

Lemma startsWith_length (s p : jsstring) :
  startsWith s p = true -> length p <= length s.
Proof.
  intros H. apply startsWith_spec in H as [post ->]. rewrite length_app. lia.
Qed.

Lemma replaceLoop_literal (code old new : jsstring) :
  old <> [] ->
  forall n i fuel,
    length code - i <= n -> i <= length code -> n + 2 <= fuel ->
    replaceLoop (chars old REmpty) code (fun _ => new) fuel i i
    = replaceLiteral (drop i code) 0 old new.
Proof.
  intros Hold. induction n as [n IH] using lt_wf_ind. intros i fuel Hn Hi Hfuel.
  destruct fuel as [|fuel]; [lia|]. cbn [replaceLoop].
  assert (Hm : forall k, m code (chars old REmpty) (MState k []) Some
                         = if startsWith (drop k code) old
                           then Some (MState (k + length old) []) else None).
  { intros k. rewrite m_chars. reflexivity. }
  destruct (regExpExec (chars old REmpty) code i) as [mt|] eqn:E.
  - apply regExpExec_Some in E as (Hj & Hhit & Hmiss). rewrite Hm in Hhit.
    destruct (startsWith (drop (index mt) code) old) eqn:Est; [|discriminate].
    injection Hhit as Hfin. rewrite <- Hfin. cbn [epos].
    assert (Hlen : index mt + length old <= length code).
    { apply startsWith_length in Est. rewrite length_drop in Est. lia. }
    assert (Hpos : 0 < length old) by (destruct old; [congruence | cbn; lia]).
    replace (index mt + length old =? index mt) with false
      by (symmetry; apply Nat.eqb_neq; lia).
    replace (i <=? index mt) with true by (symmetry; apply Nat.leb_le; lia).
    rewrite (IH (length code - (index mt + length old))) by lia.
    rewrite substring_slice by lia.
    rewrite (replaceLiteral_copy code old new i (index mt)); [|exact Hold|lia|lia|].
    + rewrite (replaceLiteral_hit _ _ _ _ Hold Est). reflexivity.
    + intros k Hk. specialize (Hmiss k Hk). rewrite Hm in Hmiss.
      destruct (startsWith (drop k code) old); [discriminate | reflexivity].
  - rewrite substring_slice by lia.
    rewrite (replaceLiteral_copy code old new i (length code)); [|exact Hold|lia|lia|].
    + rewrite drop_all. cbn [replaceLiteral]. rewrite app_nil_r. reflexivity.
    + intros k Hk. destruct (startsWith (drop k code) old) eqn:Est; [|reflexivity].
      exfalso. apply (regExpExec_None _ _ _ E k ltac:(lia)).
      unfold matchesAt. rewrite Hm, Est. eauto.
Qed.

Lemma replaceLoop_ext (r : regex) (str : jsstring) (f g : rmatch -> jsstring) :
  (forall mt, f mt = g mt) ->
  forall fuel a b, replaceLoop r str f fuel a b = replaceLoop r str g fuel a b.
Proof.
  intros Hfg. induction fuel as [|fuel IH]; intros a b; [reflexivity|].
  cbn [replaceLoop]. destruct (regExpExec r str a) as [mt|]; [|reflexivity].
  rewrite Hfg, !IH. reflexivity.
Qed.

(** With an [oldText] without metacharacters and a [newText] without [$],
    [replaceText] is the literal replacement of every occurrence, from left
    to right and without overlap. *)
Theorem replaceText_literal (code oldText newText : jsstring) :
  plain oldText = true -> oldText <> [] -> lacks 36 newText = true ->
  replaceText code oldText newText = Normal (replaceLiteral code 0 oldText newText).
Proof.
  intros Hp Hne Hnew. unfold replaceText. rewrite (RegExp_plain _ Hp).
  cbn [mbind completion_bind cbind]. f_equal. unfold replaceAll, replaceAllWith.
  assert (Hsub : forall mt, getSubstitution code mt
                              (length (groups (chars oldText REmpty))) newText = newText).
  { intros mt. rewrite <- (app_nil_r newText) at 1.
    rewrite getSubstitution_lacks by exact Hnew. apply app_nil_r. }
  rewrite (replaceLoop_ext _ _ _ (fun _ => newText) Hsub).
  rewrite (replaceLoop_literal code oldText newText Hne (length code) 0) by lia.
  rewrite drop_0. reflexivity.
Qed.

Lemma replaceText_literal_witness :
  replaceText (js "aXbXXc") (js "X") (js "--") = Normal (js "a--b----c").
Proof.
  apply (replaceText_literal (js "aXbXXc") (js "X") (js "--")).
  - reflexivity.
  - discriminate.
  - reflexivity.
Defined.

(** ** [replaceDirective] *)

Lemma replaceDirective_pattern (directiveName : jsstring) :
  plain directiveName = true ->
  RegExp (dq ++ js "use\s+" ++ directiveName ++ dq ++ js ";?")
  = Normal (replaceDirectivePattern directiveName).
Proof.
  intros HN. unfold RegExp, replaceDirectivePattern. eval_js.
  parse_steps HN. normalize_build. reflexivity.
Qed.

(** No occurrence of [a :: s] starts in [pre] when [pre] holds none and [a]
    does not occur in [s]: an occurrence cannot run over the [a] that follows
    [pre]. *)
Lemma startsWith_before (pre rest s : jsstring) (a : N) (j : nat) :
  includes pre (a :: s) = false -> lacks a s = true -> j < length pre ->
  startsWith (drop j (pre ++ a :: rest)) (a :: s) = false.
Proof.
  intros Hpre Hs Hj. apply not_true_is_false. intros H.
  rewrite drop_app_le in H by lia.
  destruct (drop j pre) as [|y u] eqn:Eu.
  { apply (f_equal length) in Eu. rewrite length_drop in Eu. cbn in Eu. lia. }
  cbn [app] in H. rewrite startsWith_cons in H. apply andb_true_iff in H as [Hy H].
  apply startsWith_app_stop in H; [|exact Hs].
  assert (Hs' : startsWith (drop j pre) (a :: s) = true).
  { rewrite Eu, startsWith_cons, Hy, H. reflexivity. }
  apply startsWith_drop_includes in Hs'. congruence.
Qed.

Lemma startsWith_after (front post s : jsstring) (j : nat) :
  includes post s = false -> length front <= j ->
  startsWith (drop j (front ++ post)) s = false.
Proof.
  intros Hpost Hj. apply not_true_is_false. intros H.
  rewrite drop_app_ge in H by lia.
  apply startsWith_drop_includes in H. congruence.
Qed.

Lemma forallb_space_class (ws : jsstring) :
  forallb is_space ws = true ->
  forallb (class_matches false [CSpace false]) ws = true.
Proof.
  induction ws as [|b ws IH]; [reflexivity|]. cbn [forallb]. intros H.
  apply andb_true_iff in H as [Hb H]. rewrite class_space, Hb. exact (IH H).
Qed.

(** The optional semicolon takes the semicolon when there is one. *)
Lemma m_semicolon_opt (code post : jsstring) (e : nat) :
  drop e code = post ->
  m code (RSeq (RQuant QOpt true (RChar 59)) REmpty) (MState e []) Some
  = Some (MState (e + (length post - length (afterSemicolon post))) []).
Proof.
  intros Hd. rewrite m_seq, m_opt. change (groups (RChar 59)) with (@nil nat).
  rewrite reset_captures_nil. destruct post as [|c rest].
  - rewrite m_char_ne by (rewrite (cursor_end _ _ Hd); discriminate).
    cbn [orelse afterSemicolon length]. rewrite m_empty. f_equal. f_equal. lia.
  - cbn [afterSemicolon]. destruct (c =? 59)%N eqn:Ec.
    + apply N.eqb_eq in Ec. subst c. rewrite (m_char_hit _ _ _ _ _ _ Hd).
      cbn [epos]. replace (S e =? e) with false by (symmetry; apply Nat.eqb_neq; lia).
      rewrite m_empty. cbn [orelse length]. f_equal. f_equal. lia.
    + rewrite m_char_ne.
      * cbn [orelse]. rewrite m_empty. f_equal. f_equal. lia.
      * rewrite (cursor_lookup _ _ _ _ Hd). intros [= ->]. rewrite N.eqb_refl in Ec.
        discriminate Ec.
Qed.

(** The pattern of [replaceDirective] at a marker: the match ends after the
    closing quote, or after the semicolon that follows it. *)
Lemma replaceDirectivePattern_hit (code directiveName ws post : jsstring) (i : nat) :
  forallb is_word directiveName = true ->
  ws <> [] -> forallb is_space ws = true ->
  drop i code = markerText ws directiveName ++ post ->
  m code (replaceDirectivePattern directiveName) (MState i []) Some
  = Some (MState (i + length (markerText ws directiveName)
                  + (length post - length (afterSemicolon post))) []).
Proof.
  intros HN Hne Hws Hd0.
  assert (Hd : drop i code = (dq ++ js "use") ++ ws ++ directiveName ++ dq ++ post).
  { rewrite Hd0. unfold markerText. rewrite <- !app_assoc. reflexivity. }
  clear Hd0. unfold replaceDirectivePattern, markerText.
  rewrite (m_chars_hit _ _ _ _ _ _ _ Hd).
  pose proof (cursor_skip _ _ _ _ Hd) as Hd1.
  destruct ws as [|a ws']; [congruence|]. cbn [forallb] in Hws.
  apply andb_true_iff in Hws as [Ha Hws]. cbn [app] in Hd1.
  rewrite m_seq. unfold re_space at 1.
  change (m code (RQuant QPlus true ?r) ?x ?c)
    with (m code r (reset_captures (groups r) x)
            (fun y => repeat_star (m code r) (groups r) true
                        (S (length code - epos y)) y c)).
  change (groups (RClass false [CSpace false])) with (@nil nat).
  rewrite reset_captures_nil.
  change (m code (RClass false [CSpace false]) ?x ?c)
    with (char_step code (class_matches false [CSpace false]) x c).
  rewrite (char_step_hit _ _ _ _ _ _ _ Hd1) by (rewrite class_space; exact Ha).
  pose proof (cursor_next _ _ _ _ Hd1) as Hd2. cbn [epos].
  change (repeat_star (m code (RClass false [CSpace false])))
    with (repeat_star (char_step code (class_matches false [CSpace false]))).
  rewrite (repeat_star_run code ws' (directiveName ++ dq ++ post) _ _ _ _ _ Hd2).
  - pose proof (cursor_skip _ _ _ _ Hd2) as Hd3.
    apply tryDown_first.
    rewrite (m_chars_hit _ _ _ _ _ _ _ Hd3).
    pose proof (cursor_skip _ _ _ _ Hd3) as Hd4. cbn [app dq] in Hd4.
    rewrite m_seq, (m_char_hit _ _ _ _ _ _ Hd4).
    rewrite (m_semicolon_opt code post _ (cursor_next _ _ _ _ Hd4)).
    f_equal. f_equal. rewrite !length_app. change (length dq) with 1. cbn [length]. lia.
  - apply forallb_space_class. exact Hws.
  - destruct directiveName as [|n0 N'].
    + cbn [app dq]. reflexivity.
    + cbn [app]. cbn [forallb] in HN. apply andb_true_iff in HN as [Hn _].
      rewrite class_space. apply is_word_not_space. exact Hn.
  - apply (f_equal length) in Hd2. rewrite length_drop in Hd2.
    rewrite !length_app in *. lia.
Qed.

(** On a text with one marker of the directive, [replaceDirective] with a
    string puts the string in the place of the marker and of the semicolon
    that may follow it; the rest of the text stays. *)
Theorem replaceDirective_single_marker
    (pre ws directiveName post replacementStr : jsstring) :
  forallb is_word directiveName = true ->
  ws <> [] -> forallb is_space ws = true ->
  lacks 36 replacementStr = true ->
  includes pre (dq ++ js "use") = false ->
  includes post (dq ++ js "use") = false ->
  replaceDirective (pre ++ markerText ws directiveName ++ post) directiveName
    (ReplacementString replacementStr)
  = Normal (pre ++ replacementStr ++ afterSemicolon post).
Proof.
  intros HN Hne Hws Hrep Hpre Hpost. unfold replaceDirective.
  rewrite (replaceDirective_pattern _ (is_word_plain _ HN)).
  cbn [mbind completion_bind cbind]. f_equal. unfold replaceAll.
  set (text := pre ++ markerText ws directiveName ++ post).
  set (M := markerText ws directiveName) in *.
  assert (Hsemi : exists semi, post = semi ++ afterSemicolon post
                               /\ length semi = length post - length (afterSemicolon post)).
  { destruct post as [|c rest]; [exists []; split; reflexivity|].
    cbn [afterSemicolon]. destruct (c =? 59)%N.
    - exists [c]. split; [reflexivity|]. cbn [length]. lia.
    - exists []. split; [reflexivity|]. cbn [length]. lia. }
  destruct Hsemi as (semi & Esemi & Lsemi).
  pose proof (replaceDirectivePattern_hit text directiveName ws post (length pre)
                HN Hne Hws (cursor_at _ _ _ _ eq_refl eq_refl)) as Hhit.
  fold M in Hhit. rewrite <- Lsemi in Hhit.
  assert (Hlen : length text = length pre + length M + length post).
  { subst text. rewrite !length_app. lia. }
  assert (H1 : regExpExec (replaceDirectivePattern directiveName) text 0
               = Some (RMatch (length pre) (MState (length pre + length M + length semi) []))).
  { apply regExpExec_first; [lia | | exact Hhit].
    intros j Hj. apply m_prefix_absent. subst text M. unfold markerText.
    rewrite <- !app_assoc. apply startsWith_before; [exact Hpre | reflexivity | lia]. }
  rewrite (replaceAllWith_single _ _ _ _ H1).
  - cbn [index final epos].
    rewrite (substring_at text [] pre (M ++ post) 0 (length pre));
      [|reflexivity | reflexivity | reflexivity].
    rewrite (substring_at text (pre ++ M ++ semi) (afterSemicolon post) []
               (length pre + length M + length semi) (length text)).
    + f_equal. f_equal. rewrite <- (app_nil_r replacementStr) at 1.
      rewrite getSubstitution_lacks by exact Hrep. apply app_nil_r.
    + subst text. rewrite app_nil_r, <- !app_assoc. rewrite <- Esemi. reflexivity.
    + rewrite !length_app. lia.
    + rewrite Hlen, !length_app. rewrite Esemi at 1. rewrite length_app. lia.
  - cbn [index final epos]. subst M. unfold markerText. rewrite !length_app.
    change (length dq) with 1. lia.
  - cbn [final epos]. apply regExpExec_none. intros j Hj.
    apply m_prefix_absent. subst text.
    rewrite app_assoc. apply startsWith_after; [exact Hpost|].
    rewrite length_app. lia.
Qed.

Lemma replaceDirective_single_marker_witness :
  replaceDirective
    (js "function f() { " ++ markerText (js " ") (js "cat") ++ js "; return 1; }")
    (js "cat") (ReplacementString (js "meow();"))
  = Normal (js "function f() { meow(); return 1; }").
Proof.
  refine (replaceDirective_single_marker (js "function f() { ") (js " ") (js "cat")
            (js "; return 1; }") (js "meow();") eq_refl _ eq_refl eq_refl eq_refl eq_refl).
  discriminate.
Defined.

(** A text in which [use] never follows a double quote is returned as it
    is. *)
Theorem replaceDirective_without_marker (code directiveName replacementStr : jsstring) :
  plain directiveName = true ->
  includes code (dq ++ js "use") = false ->
  replaceDirective code directiveName (ReplacementString replacementStr) = Normal code.
Proof.
  intros HN Hno. unfold replaceDirective. rewrite (replaceDirective_pattern _ HN).
  cbn [mbind completion_bind cbind]. f_equal.
  apply (replaceAll_needs _ code (dq ++ js "use")); [|exact Hno].
  apply needs_chars_only.
Qed.

Lemma replaceDirective_without_marker_witness :
  replaceDirective (js "let use = 1;") (js "cat") (ReplacementString (js "x"))
  = Normal (js "let use = 1;").
Proof. apply replaceDirective_without_marker; reflexivity. Defined.

(** ** [replaceHook] on whole words *)

Lemma replaceHook_hookPattern (H : jsstring) :
  plain H = true -> RegExp (js "\b" ++ H ++ js "\b") = Normal (hookPattern H).
Proof.
  intros HH. unfold RegExp, hookPattern. eval_js. parse_steps HH. normalize_build.
  reflexivity.
Qed.

(** The pattern of [replaceHook] at an offset: the name has to stand there
    between two word boundaries. *)
Lemma m_hookPattern (code H : jsstring) (j : nat) (c : cont) :
  m code (hookPattern H) (MState j []) c
  = if at_word_boundary code j && startsWith (drop j code) H
       && at_word_boundary code (j + length H)
    then c (MState (j + length H) []) else None.
Proof.
  unfold hookPattern. rewrite m_seq.
  change (m code (RWordBoundary false) ?x ?k)
    with (if xorb false (at_word_boundary code (epos x)) then k x else None).
  cbn [xorb epos]. destruct (at_word_boundary code j); [|reflexivity].
  rewrite m_chars. cbn [epos captures andb].
  destruct (startsWith (drop j code) H); [|reflexivity].
  rewrite m_seq.
  change (m code (RWordBoundary false) ?x ?k)
    with (if xorb false (at_word_boundary code (epos x)) then k x else None).
  cbn [xorb epos andb]. destruct (at_word_boundary code (j + length H)); reflexivity.
Qed.

Lemma startsWith_lookup (code H : jsstring) (j k : nat) (a : N) :
  startsWith (drop j code) H = true -> H !! k = Some a -> code !! (j + k) = Some a.
Proof.
  intros Hs Hk. apply startsWith_spec in Hs as [post Hd].
  rewrite <- lookup_drop, Hd. apply lookup_app_l_Some. exact Hk.
Qed.

Lemma forallb_lookup_true (p : N -> bool) (s : jsstring) (k : nat) (a : N) :
  forallb p s = true -> s !! k = Some a -> p a = true.
Proof.
  intros H Hk. rewrite forallb_forall in H. apply H, list_elem_of_In.
  eapply list_elem_of_lookup_2. exact Hk.
Qed.

(** Inside an occurrence of a name of word characters every offset holds a
    word character. *)
Lemma is_word_at_occurrence (code H : jsstring) (j k : nat) :
  forallb is_word H = true -> startsWith (drop j code) H = true -> k < length H ->
  is_word_at code (j + k) = true.
Proof.
  intros HH Hs Hk. destruct (lookup_lt_is_Some_2 H k Hk) as [a Ha].
  unfold is_word_at. rewrite (startsWith_lookup _ _ _ _ _ Hs Ha).
  exact (forallb_lookup_true _ _ _ _ HH Ha).
Qed.

(** [replaceHook] replaces whole words only: when every occurrence of the
    name in the text is directly followed or directly preceded by a word
    character, the text is returned as it is. *)
Theorem replaceHook_whole_words_only (code hookName replacementHook : jsstring) :
  hookName <> [] -> forallb is_word hookName = true ->
  (forall j, startsWith (drop j code) hookName = true ->
             is_word_at code (j + length hookName) = true
             \/ exists j', j = S j' /\ is_word_at code j' = true) ->
  replaceHook code hookName replacementHook = Normal code.
Proof.
  intros Hne HH Hocc. unfold replaceHook.
  rewrite (replaceHook_hookPattern _ (is_word_plain _ HH)).
  cbn [mbind completion_bind cbind]. f_equal.
  apply replaceAllWith_no_match, regExpExec_none. intros j _.
  rewrite m_hookPattern.
  destruct (startsWith (drop j code) hookName) eqn:Hs;
    [|rewrite andb_false_r; reflexivity].
  assert (Hlen : 0 < length hookName) by (destruct hookName; [congruence | cbn; lia]).
  pose proof (is_word_at_occurrence code hookName j 0 HH Hs Hlen) as Hfirst.
  pose proof (is_word_at_occurrence code hookName j (length hookName - 1) HH Hs
                ltac:(lia)) as Hlast.
  rewrite Nat.add_0_r in Hfirst.
  destruct (Hocc j Hs) as [Hafter | (j' & -> & Hbefore)].
  - replace (at_word_boundary code (j + length hookName)) with false;
      [rewrite andb_false_r; reflexivity|].
    unfold at_word_boundary.
    replace (j + length hookName) with (S (j + (length hookName - 1))) by lia.
    rewrite Hlast.
    replace (S (j + (length hookName - 1))) with (j + length hookName) by lia.
    rewrite Hafter. reflexivity.
  - replace (at_word_boundary code (S j')) with false; [reflexivity|].
    unfold at_word_boundary. rewrite Hbefore, Hfirst. reflexivity.
Qed.

Lemma replaceHook_whole_words_only_witness :
  replaceHook (js "const s = useStateful(0);") (js "useState") (js "useAtom")
  = Normal (js "const s = useStateful(0);").
Proof.
  apply replaceHook_whole_words_only; [discriminate | reflexivity |].
  intros j Hj. left.
  do 25 (destruct j as [|j]; [first [discriminate Hj | reflexivity]|]).
  destruct j; discriminate Hj.
Defined.

Lemma startsWith_app_drop (pre rest s : jsstring) (b : N) (j : nat) :
  lacks b s = true -> j <= length pre ->
  startsWith (drop j (pre ++ b :: rest)) s = true ->
  startsWith (drop j pre) s = true.
Proof.
  intros Hb Hj H. rewrite drop_app_le in H by lia.
  exact (startsWith_app_stop _ _ _ _ Hb H).
Qed.

(** On a text with one occurrence of the hook name, standing between
    characters that are no word characters, [replaceHook] puts the new name in
    its place and leaves the rest of the text as it is. *)
Theorem replaceHook_replaces_word (pre hookName post replacementHook : jsstring) :
  hookName <> [] -> forallb is_word hookName = true ->
  lacks 36 replacementHook = true ->
  match list.last pre with Some b => is_word b = false | None => True end ->
  match post with a :: _ => is_word a = false | [] => True end ->
  includes pre hookName = false -> includes post hookName = false ->
  replaceHook (pre ++ hookName ++ post) hookName replacementHook
  = Normal (pre ++ replacementHook ++ post).
Proof.
  intros Hne HH Hrep Hlast Hhead Hpre Hpost. unfold replaceHook.
  rewrite (replaceHook_hookPattern _ (is_word_plain _ HH)).
  cbn [mbind completion_bind cbind]. f_equal. unfold replaceAll.
  set (text := pre ++ hookName ++ post).
  assert (Hlen : 0 < length hookName) by (destruct hookName; [congruence | cbn; lia]).
  assert (Hs : startsWith (drop (length pre) text) hookName = true).
  { subst text. rewrite drop_app_length. apply startsWith_spec. eauto. }
  assert (Hb1 : at_word_boundary text (length pre) = true).
  { unfold at_word_boundary.
    pose proof (is_word_at_occurrence text hookName (length pre) 0 HH Hs Hlen) as Hw.
    rewrite Nat.add_0_r in Hw. rewrite Hw.
    destruct (length pre) as [|n] eqn:En; [reflexivity|].
    unfold is_word_at. subst text. rewrite lookup_app_l by lia.
    rewrite last_lookup, En in Hlast. cbn [Nat.pred] in Hlast.
    destruct (pre !! n) as [b|]; [rewrite Hlast|]; reflexivity. }
  assert (Hb2 : at_word_boundary text (length pre + length hookName) = true).
  { unfold at_word_boundary.
    pose proof (is_word_at_occurrence text hookName (length pre) (length hookName - 1)
                  HH Hs ltac:(lia)) as Hw.
    replace (length pre + length hookName)
      with (S (length pre + (length hookName - 1))) by lia.
    rewrite Hw.
    replace (S (length pre + (length hookName - 1)))
      with (length pre + length hookName) by lia.
    unfold is_word_at. subst text. rewrite app_assoc, lookup_app_r by (rewrite length_app; lia).
    rewrite length_app, Nat.sub_diag.
    destruct post as [|a post']; [reflexivity|]. cbn [lookup list_lookup]. rewrite Hhead.
    reflexivity. }
  assert (H1 : regExpExec (hookPattern hookName) text 0
               = Some (RMatch (length pre) (MState (length pre + length hookName) []))).
  { apply regExpExec_first.
    - subst text. rewrite !length_app. lia.
    - intros j Hj. rewrite m_hookPattern.
      replace (startsWith (drop j text) hookName) with false;
        [rewrite andb_false_r; reflexivity|].
      symmetry. apply not_true_is_false. intros Hocc.
      destruct (list.last pre) as [b|] eqn:Eb.
      + apply last_Some in Eb as [pre' ->]. subst text.
        rewrite length_app in Hj. cbn [length] in Hj.
        rewrite <- !app_assoc in Hocc. cbn [app] in Hocc.
        apply startsWith_app_drop in Hocc;
          [|apply is_word_lacks; assumption | lia].
        apply startsWith_drop_includes in Hocc.
        apply includes_spec in Hocc as (u & v & ->).
        assert (Hin : includes ((u ++ hookName ++ v) ++ [b]) hookName = true).
        { apply includes_spec. exists u, (v ++ [b]). rewrite <- !app_assoc. reflexivity. }
        congruence.
      + apply last_None in Eb. subst pre. cbn [length] in Hj. lia.
    - rewrite m_hookPattern, Hb1, Hs, Hb2. reflexivity. }
  rewrite (replaceAllWith_single _ _ _ _ H1).
  - cbn [index final epos].
    rewrite (substring_at text [] pre (hookName ++ post) 0 (length pre));
      [|reflexivity | reflexivity | reflexivity].
    rewrite (substring_at text (pre ++ hookName) post []
               (length pre + length hookName) (length text)).
    + f_equal. f_equal. rewrite <- (app_nil_r replacementHook) at 1.
      rewrite getSubstitution_lacks by exact Hrep. apply app_nil_r.
    + subst text. rewrite app_nil_r, <- !app_assoc. reflexivity.
    + rewrite length_app. lia.
    + subst text. rewrite !length_app. lia.
  - cbn [index final epos]. lia.
  - cbn [final epos]. apply regExpExec_none. intros j Hj.
    rewrite m_hookPattern.
    replace (startsWith (drop j text) hookName) with false;
      [rewrite andb_false_r; reflexivity|].
    symmetry. subst text. rewrite app_assoc. apply startsWith_after; [exact Hpost|].
    rewrite length_app. lia.
Qed.

Lemma replaceHook_replaces_word_witness :
  replaceHook (js "const [a, b] = useState(0);") (js "useState") (js "useAtom")
  = Normal (js "const [a, b] = useAtom(0);").
Proof.
  apply (replaceHook_replaces_word (js "const [a, b] = ") (js "useState") (js "(0);")
           (js "useAtom")); try reflexivity.
  discriminate.
Defined.

(** ** [replaceAttribute] *)

Lemma replaceAttribute_pattern (C A old : jsstring) :
  plain C = true -> plain A = true -> plain old = true ->
  RegExp (js "(" ++ (js "<" ++ C) ++ js "[^>]*" ++ A ++ js "=)" ++ dq ++ old ++ dq)
  = Normal (replaceAttributePattern C A old).
Proof.
  intros HC HA Hold. unfold RegExp, replaceAttributePattern. eval_js.
  rewrite <- ?app_assoc.
  parse_steps HC. parse_steps HA. parse_steps Hold. normalize_build. reflexivity.
Qed.

Lemma startsWith_app (s a b : jsstring) :
  startsWith s (a ++ b) = startsWith s a && startsWith (drop (length a) s) b.
Proof.
  revert s. induction a as [|x a IH]; intros s.
  - cbn [app length startsWith andb]. rewrite drop_0. reflexivity.
  - cbn [app length]. rewrite !startsWith_cons. destruct s as [|y s].
    + reflexivity.
    + cbn [drop]. rewrite IH. rewrite andb_assoc. reflexivity.
Qed.

Lemma m_char_startsWith (str : jsstring) (a : N) (e : nat) caps (c : cont) :
  m str (RChar a) (MState e caps) c
  = if startsWith (drop e str) [a] then c (MState (S e) caps) else None.
Proof.
  change (m str (RChar a) (MState e caps) c)
    with (char_step str (N.eqb a) (MState e caps) c).
  unfold char_step. cbn [epos captures].
  rewrite <- (Nat.add_0_r e) at 1. rewrite <- lookup_drop.
  rewrite startsWith_cons. destruct (drop e str) as [|y s]; [reflexivity|].
  cbn [lookup list_lookup startsWith]. rewrite andb_true_r. reflexivity.
Qed.

(** The attribute name, [=] and the quoted old value, read as one literal;
    group [i] is closed after the [=]. *)
Lemma m_attributeValue (str A old : jsstring) (i s q : nat) caps (k : cont) :
  m str (chars A (RSeq (RChar 61) REmpty)) (MState q caps)
    (fun y => m str (RSeq (RChar 34) (chars old (RSeq (RChar 34) REmpty)))
                (set_capture i s (epos y) y) k)
  = if startsWith (drop q str) (attributeValueText A old)
    then k (MState (q + length (attributeValueText A old))
                   ((i, (s, S (q + length A))) :: caps))
    else None.
Proof.
  unfold attributeValueText.
  change (A ++ [61%N; 34%N] ++ old ++ [34%N])
    with (A ++ [61%N] ++ [34%N] ++ old ++ [34%N]).
  rewrite !startsWith_app, !drop_drop. cbn [length].
  rewrite m_chars. cbn [epos captures].
  destruct (startsWith (drop q str) A); [|reflexivity]. cbn [andb].
  rewrite m_seq, m_char_startsWith.
  destruct (startsWith (drop (q + length A) str) [61%N]); [|reflexivity]. cbn [andb].
  rewrite m_empty. unfold set_capture. cbn [epos captures].
  rewrite m_seq, m_char_startsWith.
  replace (q + length A + 1) with (S (q + length A)) by lia.
  destruct (startsWith (drop (S (q + length A)) str) [34%N]); [|reflexivity]. cbn [andb].
  rewrite m_chars. cbn [epos captures].
  replace (S (q + length A) + 1) with (S (S (q + length A))) by lia.
  destruct (startsWith (drop (S (S (q + length A))) str) old); [|reflexivity]. cbn [andb].
  rewrite m_seq, m_char_startsWith.
  replace (S (S (q + length A)) + length old) with (S (S (q + length A) + length old)) by lia.
  destruct (startsWith _ [34%N]); [|reflexivity].
  rewrite m_empty. f_equal. f_equal. rewrite !length_app. cbn [length]. lia.
Qed.

Lemma lacks_attributeValueText (A v : jsstring) :
  lacks 62 A = true -> lacks 62 v = true -> lacks 62 (attributeValueText A v) = true.
Proof.
  intros HA Hv. unfold attributeValueText. rewrite !lacks_app, HA, Hv. reflexivity.
Qed.

Lemma needs_replaceAttributePattern (C A old : jsstring) :
  needs (replaceAttributePattern C A old) (60%N :: C).
Proof.
  unfold replaceAttributePattern. apply needs_seq, needs_group, needs_char, needs_chars_only.
Qed.

Lemma groups_replaceAttributePattern (C A old : jsstring) :
  groups (replaceAttributePattern C A old) = [1].
Proof.
  unfold replaceAttributePattern. cbn [groups app]. rewrite !groups_chars. cbn [groups app].
  rewrite !groups_chars. reflexivity.
Qed.

(** The pattern of [replaceAttribute] at the tag: the greedy run up to [>]
    is given back as far as the last occurrence of the attribute with the old
    value. *)
Lemma m_replaceAttribute_hit (pre C attrs A old rest post : jsstring) :
  lacks 62 attrs = true -> lacks 62 A = true -> lacks 62 old = true ->
  lacks 62 rest = true ->
  includes (drop 1 (attributeValueText A old ++ rest)) (attributeValueText A old) = false ->
  m (attributeTagText pre C attrs A old rest post) (replaceAttributePattern C A old)
    (MState (length pre) []) Some
  = Some (MState (length pre + 1 + length C + length attrs
                  + length (attributeValueText A old))
                 [(1, (length pre, length pre + 1 + length C + length attrs + length A + 1))]).
Proof.
  intros Hattrs HA Hold Hrest Hlater.
  set (text := attributeTagText pre C attrs A old rest post).
  set (lit := attributeValueText A old) in *.
  assert (Hd : drop (length pre) text
               = 60%N :: C ++ (attrs ++ lit ++ rest) ++ 62%N :: post).
  { apply (cursor_at _ pre); [|reflexivity]. subst text. unfold attributeTagText.
    rewrite <- !app_assoc. reflexivity. }
  unfold replaceAttributePattern. rewrite m_seq, m_group, m_seq.
  rewrite (m_char_hit _ _ _ _ _ _ Hd).
  pose proof (cursor_next _ _ _ _ Hd) as Hd1.
  rewrite (m_chars_hit _ _ _ _ _ _ _ Hd1).
  pose proof (cursor_skip _ _ _ _ Hd1) as Hd2.
  rewrite m_seq.
  rewrite (m_not_star _ _ _ 62 _ _ _ Hd2);
    [| rewrite !lacks_app, Hattrs, Hrest; subst lit;
       rewrite lacks_attributeValueText by assumption; reflexivity
     | reflexivity].
  cbn [epos].
  assert (Hlit62 : lacks 62 lit = true) by (apply lacks_attributeValueText; assumption).
  rewrite (tryDown_skip _ _ _ _ (length attrs)).
  - apply tryDown_first. cbn beta.
    rewrite m_attributeValue. fold lit.
    replace (startsWith (drop (S (length pre) + length C + length attrs) text) lit)
      with true.
    + f_equal. f_equal; [lia|]. do 3 f_equal. lia.
    + symmetry. rewrite <- drop_drop, Hd2, <- app_assoc, drop_app_length.
      apply startsWith_spec. rewrite <- !app_assoc. eauto.
  - rewrite !length_app. lia.
  - intros j Hj. cbn beta. rewrite m_attributeValue. fold lit.
    replace (startsWith (drop (S (length pre) + length C + j) text) lit) with false;
      [reflexivity|].
    symmetry. apply not_true_is_false. intros Hocc.
    rewrite <- drop_drop, Hd2 in Hocc.
    rewrite drop_app_le in Hocc by lia.
    apply startsWith_app_stop in Hocc; [|exact Hlit62].
    rewrite drop_app_ge in Hocc by lia.
    replace (j - length attrs) with (1 + (j - length attrs - 1)) in Hocc by lia.
    rewrite <- drop_drop in Hocc.
    apply startsWith_drop_includes in Hocc. congruence.
Qed.

Lemma replaceAttribute_template (str : jsstring) (mt : rmatch) (new c1 : jsstring) :
  lacks 36 new = true ->
  capture str mt 1 = Some c1 ->
  getSubstitution str mt 1 (js "$1" ++ dq ++ new ++ dq) = c1 ++ dq ++ new ++ dq.
Proof.
  intros Hnew H1. eval_js. cbn [app].
  cbn [getSubstitution N.eqb Pos.eqb negb is_digit in_range N.leb N.compare
       Pos.compare Pos.compare_cont andb].
  unfold capture_ref, digit_value. change (N.to_nat (49 - 48)) with 1.
  cbn [Nat.leb andb]. rewrite H1. cbn [default option.default from_option].
  f_equal. f_equal. rewrite (getSubstitution_lacks _ _ _ new) by exact Hnew.
  reflexivity.
Qed.

(** On a text with one opening tag of the component, [replaceAttribute]
    replaces the value of the last occurrence of the attribute with the old
    value inside that tag and leaves the rest of the text as it is. *)
Theorem replaceAttribute_replaces_value
    (pre C attrs A old new rest post : jsstring) :
  C <> [] -> plain C = true -> lacks 60 C = true ->
  plain A = true -> lacks 62 A = true ->
  plain old = true -> lacks 62 old = true ->
  lacks 36 new = true ->
  lacks 62 attrs = true -> lacks 62 rest = true ->
  includes (drop 1 (attributeValueText A old ++ rest)) (attributeValueText A old) = false ->
  includes pre (60%N :: C) = false ->
  includes (rest ++ [62%N] ++ post) (60%N :: C) = false ->
  replaceAttribute (attributeTagText pre C attrs A old rest post) (Some C) A old new
  = Normal (attributeTagText pre C attrs A new rest post).
Proof.
  intros HCne HC HC60 HA HA62 Hold Hold62 Hnew Hattrs Hrest Hlater Hpre Hpost.
  unfold replaceAttribute. rewrite (bool_decide_eq_false_2 (C = [])) by exact HCne.
  rewrite (replaceAttribute_pattern C A old HC HA Hold).
  cbn [mbind completion_bind cbind]. f_equal. unfold replaceAll.
  pose proof (m_replaceAttribute_hit pre C attrs A old rest post
                Hattrs HA62 Hold62 Hrest Hlater) as Hhit.
  set (text := attributeTagText pre C attrs A old rest post) in *.
  set (lit := attributeValueText A old) in *.
  match type of Hhit with _ = Some ?v => set (y := v) in * end.
  assert (Htext : text = pre ++ (60%N :: C ++ attrs ++ A ++ [61%N])
                         ++ (dq ++ old ++ dq) ++ rest ++ 62%N :: post).
  { subst text lit. unfold attributeTagText, attributeValueText, dq. solve_app. }
  assert (Hlit : length lit = length A + 2 + length old + 1).
  { subst lit. unfold attributeValueText. rewrite !length_app. cbn [length]. lia. }
  assert (H1 : regExpExec (replaceAttributePattern C A old) text 0
               = Some (RMatch (length pre) y)).
  { apply regExpExec_first; [|  | exact Hhit].
    - rewrite Htext, length_app. lia.
    - intros j Hj. apply needs_replaceAttributePattern. cbn [epos].
      subst text. unfold attributeTagText. cbn [app].
      apply startsWith_before; [exact Hpre | exact HC60 | lia]. }
  rewrite (replaceAllWith_single _ _ _ _ H1).
  - cbn [index final]. subst y. cbn [epos].
    rewrite (substring_at text [] pre
               ((60%N :: C ++ attrs ++ A ++ [61%N]) ++ (dq ++ old ++ dq)
                ++ rest ++ 62%N :: post) 0 (length pre));
      [|exact Htext | reflexivity | reflexivity].
    rewrite (substring_at text
               (pre ++ (60%N :: C ++ attrs ++ A ++ [61%N]) ++ dq ++ old ++ dq)
               (rest ++ 62%N :: post) []
               (length pre + 1 + length C + length attrs + length lit) (length text)).
    + rewrite groups_replaceAttributePattern. cbn [length].
      rewrite (replaceAttribute_template _ _ new (60%N :: C ++ attrs ++ A ++ [61%N]) Hnew).
      * unfold attributeTagText, attributeValueText, dq. solve_app.
      * unfold capture, capture_span. cbn [final captures List.find fst snd Nat.eqb fmap
          option_fmap option_map].
        f_equal. apply (substring_at text pre _ ((dq ++ old ++ dq) ++ rest ++ 62%N :: post));
          [exact Htext | reflexivity |].
        cbn [length]. rewrite !length_app. cbn [length]. lia.
    + rewrite Htext. unfold dq. solve_app.
    + rewrite Hlit. cbn [length]. rewrite !length_app. cbn [length].
      rewrite !length_app. cbn [length]. change (length dq) with 1. lia.
    + rewrite Htext. rewrite !length_app. cbn [length]. rewrite !length_app.
      cbn [length]. lia.
  - cbn [index final]. subst y. cbn [epos]. lia.
  - cbn [final]. subst y. cbn [epos]. apply regExpExec_none. intros j Hj.
    apply needs_replaceAttributePattern. cbn [epos].
    subst text. unfold attributeTagText.
    replace (pre ++ [60%N] ++ C ++ attrs ++ attributeValueText A old ++ rest
             ++ [62%N] ++ post)
      with ((pre ++ [60%N] ++ C ++ attrs ++ attributeValueText A old)
            ++ rest ++ [62%N] ++ post)
      by solve_app.
    apply startsWith_after; [exact Hpost|].
    rewrite !length_app. cbn [length]. fold lit. lia.
Qed.

Lemma replaceAttribute_replaces_value_witness :
  replaceAttribute
    (js "<p><Button size=" ++ dq ++ js "sm" ++ dq ++ js " variant=" ++ dq ++ js "ghost"
     ++ dq ++ js " disabled>Go</Button></p>")
    (Some (js "Button")) (js "variant") (js "ghost") (js "solid")
  = Normal
      (js "<p><Button size=" ++ dq ++ js "sm" ++ dq ++ js " variant=" ++ dq ++ js "solid"
       ++ dq ++ js " disabled>Go</Button></p>").
Proof.
  refine (replaceAttribute_replaces_value (js "<p>") (js "Button")
            (js " size=" ++ dq ++ js "sm" ++ dq ++ js " ") (js "variant") (js "ghost")
            (js "solid") (js " disabled") (js "Go</Button></p>")
            _ eq_refl eq_refl eq_refl eq_refl eq_refl eq_refl eq_refl eq_refl eq_refl
            eq_refl eq_refl eq_refl).
  discriminate.
Defined.

Lemma replaceAttribute_any_pattern (A old : jsstring) :
  plain A = true -> plain old = true ->
  exists r,
    RegExp (js "(" ++ js "<[A-Z]" ++ js "[^>]*" ++ A ++ js "=)" ++ dq ++ old ++ dq)
    = Normal r
    /\ needs r [60%N].
Proof.
  intros HA Hold. unfold RegExp. eval_js. rewrite <- ?app_assoc.
  parse_steps HA. parse_steps Hold. normalize_build.
  eexists. split; [reflexivity|].
  apply needs_seq, needs_group, needs_char, needs_nil.
Qed.

(** Without a tag to look at, [replaceAttribute] returns the text as it is:
    for a component name, when the text does not hold [<] followed by the
    name; for [null] or the empty name, when the text holds no [<] at all. *)
Theorem replaceAttribute_without_tag (code : jsstring) (componentName : option jsstring)
    (attributeName oldValue newValue : jsstring) :
  plain (default [] componentName) = true ->
  plain attributeName = true -> plain oldValue = true ->
  includes code (60%N :: default [] componentName) = false ->
  replaceAttribute code componentName attributeName oldValue newValue = Normal code.
Proof.
  intros HC HA Hold Hno. unfold replaceAttribute.
  assert (Hany : includes code [60%N] = false ->
                 (pattern ← RegExp (js "(" ++ js "<[A-Z]" ++ js "[^>]*" ++ attributeName
                                    ++ js "=)" ++ dq ++ oldValue ++ dq);
                  Normal (replaceAll pattern code (js "$1" ++ dq ++ newValue ++ dq)))
                 = Normal code).
  { intros H. destruct (replaceAttribute_any_pattern _ _ HA Hold) as (r & -> & Hr).
    cbn [mbind completion_bind cbind]. f_equal.
    apply (replaceAll_needs r code _ _ Hr H). }
  destruct componentName as [C|]; cbn [default option.default from_option] in *;
    [|exact (Hany Hno)].
  destruct (decide (C = [])) as [-> | HCne].
  - rewrite bool_decide_eq_true_2 by reflexivity. exact (Hany Hno).
  - rewrite bool_decide_eq_false_2 by exact HCne.
    rewrite (replaceAttribute_pattern C _ _ HC HA Hold).
    cbn [mbind completion_bind cbind]. f_equal.
    apply (replaceAll_needs _ code _ _ (needs_replaceAttributePattern C _ _) Hno).
Qed.

Lemma replaceAttribute_without_tag_witness :
  replaceAttribute (js "const a = 1 > 0;") None (js "size") (js "sm") (js "lg")
  = Normal (js "const a = 1 > 0;").
Proof. apply replaceAttribute_without_tag; reflexivity. Defined.

(** ** [injectFunctionCode] at a function declaration *)

Lemma class_word (a : N) : class_matches false [CWord false] a = is_word a.
Proof. unfold class_matches. cbn. rewrite orb_false_r. reflexivity. Qed.

(** A greedy star or plus over a one-character class, when the pattern that
    follows matches right after the whole run. *)
Lemma m_star_full (str run sfx : jsstring) neg items (e : nat) caps (c : cont)
    (z : mstate) :
  drop e str = run ++ sfx ->
  forallb (class_matches neg items) run = true ->
  match sfx with [] => True | a :: _ => class_matches neg items a = false end ->
  c (MState (e + length run) caps) = Some z ->
  m str (RQuant QStar true (RClass neg items)) (MState e caps) c = Some z.
Proof.
  intros Hd Hrun Hsfx Hc.
  change (repeat_star (char_step str (class_matches neg items)) [] true
            (S (length str - e)) (MState e caps) c = Some z).
  rewrite (repeat_star_run str run sfx _ _ _ _ _ Hd Hrun Hsfx).
  - apply tryDown_first. exact Hc.
  - apply (f_equal length) in Hd. rewrite length_drop, length_app in Hd. lia.
Qed.

Lemma m_plus_full (str run sfx : jsstring) neg items (e : nat) caps (c : cont)
    (z : mstate) :
  run <> [] ->
  drop e str = run ++ sfx ->
  forallb (class_matches neg items) run = true ->
  match sfx with [] => True | a :: _ => class_matches neg items a = false end ->
  c (MState (e + length run) caps) = Some z ->
  m str (RQuant QPlus true (RClass neg items)) (MState e caps) c = Some z.
Proof.
  intros Hne Hd Hrun Hsfx Hc. destruct run as [|a run']; [congruence|].
  cbn [forallb] in Hrun. apply andb_true_iff in Hrun as [Ha Hrun]. cbn [app] in Hd.
  change (char_step str (class_matches neg items) (reset_captures [] (MState e caps))
            (fun y => repeat_star (char_step str (class_matches neg items)) [] true
                        (S (length str - epos y)) y c) = Some z).
  rewrite reset_captures_nil, (char_step_hit _ _ _ _ _ _ _ Hd Ha). cbn [epos].
  rewrite (repeat_star_run str run' sfx _ _ _ _ _ (cursor_next _ _ _ _ Hd) Hrun Hsfx).
  - apply tryDown_first. rewrite <- Hc. f_equal. f_equal. cbn [length]. lia.
  - pose proof (cursor_next _ _ _ _ Hd) as Hd'.
    apply (f_equal length) in Hd'. rewrite length_drop, length_app in Hd'. lia.
Qed.

Lemma forallb_class_word (s : jsstring) :
  forallb is_word s = true -> forallb (class_matches false [CWord false]) s = true.
Proof.
  induction s as [|b s IH]; [reflexivity|]. cbn [forallb]. intros H.
  apply andb_true_iff in H as [Hb H]. rewrite class_word, Hb. exact (IH H).
Qed.

Lemma forallb_class_not (q : N) (s : jsstring) :
  lacks q s = true -> forallb (class_matches true [CChar q]) s = true.
Proof.
  unfold lacks. induction s as [|b s IH]; [reflexivity|]. cbn [forallb]. intros H.
  apply andb_true_iff in H as [Hb H]. rewrite class_not, Hb. exact (IH H).
Qed.

Lemma is_space_not_word (c : N) : is_space c = true -> is_word c = false.
Proof.
  intros H. destruct (is_word c) eqn:E; [|reflexivity].
  apply is_word_not_space in E. congruence.
Qed.

(** The first pattern of [injectFunctionCode] at a function declaration:
    the match is the declaration up to its opening brace. *)
Lemma m_functionDecl_hit (str ws1 name ws2 params ws3 post : jsstring) (e : nat) :
  ws1 <> [] -> forallb is_space ws1 = true ->
  name <> [] -> forallb is_word name = true ->
  forallb is_space ws2 = true -> lacks 41 params = true ->
  forallb is_space ws3 = true ->
  at_word_boundary str e = true ->
  drop e str = functionDeclText ws1 name ws2 params ws3 ++ post ->
  m str functionDeclPattern (MState e []) Some
  = Some (MState (e + length (functionDeclText ws1 name ws2 params ws3))
                 [(1, (e, e + length (functionDeclText ws1 name ws2 params ws3)))]).
Proof.
  intros Hne1 Hws1 Hnen Hname Hws2 Hparams Hws3 Hb Hd0.
  assert (Hd : drop e str
               = js "function" ++ ws1 ++ name ++ ws2 ++ 40%N :: params ++ 41%N :: ws3
                 ++ 123%N :: post).
  { rewrite Hd0. unfold functionDeclText. rewrite <- !app_assoc. reflexivity. }
  clear Hd0. unfold functionDeclPattern.
  rewrite m_seq, m_group, m_seq.
  change (m str (RWordBoundary false) ?x ?k)
    with (if xorb false (at_word_boundary str (epos x)) then k x else None).
  cbn [xorb epos]. rewrite Hb.
  rewrite (m_chars_hit _ _ _ _ _ _ _ Hd).
  pose proof (cursor_skip _ _ _ _ Hd) as Hd1.
  rewrite m_seq. unfold re_space, re_word, re_not.
  apply (m_plus_full str ws1 _ _ _ _ _ _ _ Hne1 Hd1 (forallb_space_class _ Hws1)).
  { destruct name as [|n0 name']; [congruence|]. cbn [app forallb] in *.
    apply andb_true_iff in Hname as [Hn _]. rewrite class_space.
    apply is_word_not_space. exact Hn. }
  pose proof (cursor_skip _ _ _ _ Hd1) as Hd2. cbn beta. rewrite m_seq.
  apply (m_plus_full str name _ _ _ _ _ _ _ Hnen Hd2 (forallb_class_word _ Hname)).
  { destruct ws2 as [|w ws2']; cbn [app forallb] in *; rewrite class_word.
    - reflexivity.
    - apply andb_true_iff in Hws2 as [Hw _]. apply is_space_not_word. exact Hw. }
  pose proof (cursor_skip _ _ _ _ Hd2) as Hd3. cbn beta. rewrite m_seq.
  apply (m_star_full str ws2 _ _ _ _ _ _ _ Hd3 (forallb_space_class _ Hws2));
    [reflexivity|].
  pose proof (cursor_skip _ _ _ _ Hd3) as Hd4. cbn beta. rewrite m_seq.
  rewrite (m_char_hit _ _ _ _ _ _ Hd4).
  pose proof (cursor_next _ _ _ _ Hd4) as Hd5. rewrite m_seq.
  apply (m_star_full str params _ _ _ _ _ _ _ Hd5 (forallb_class_not _ _ Hparams));
    [reflexivity|].
  pose proof (cursor_skip _ _ _ _ Hd5) as Hd6. cbn beta. rewrite m_seq.
  rewrite (m_char_hit _ _ _ _ _ _ Hd6).
  pose proof (cursor_next _ _ _ _ Hd6) as Hd7. rewrite m_seq.
  apply (m_star_full str ws3 _ _ _ _ _ _ _ Hd7 (forallb_space_class _ Hws3));
    [reflexivity|].
  pose proof (cursor_skip _ _ _ _ Hd7) as Hd8. cbn beta.
  rewrite m_seq, (m_char_hit _ _ _ _ _ _ Hd8), !m_empty.
  unfold set_capture. cbn [epos captures].
  assert (Hl : length (functionDeclText ws1 name ws2 params ws3)
               = 8 + length ws1 + length name + length ws2 + 1 + length params + 1
                 + length ws3 + 1).
  { unfold functionDeclText. rewrite !length_app. cbn [length].
    change (length (js "function")) with 8. lia. }
  rewrite Hl. change (length (js "function")) with 8.
  f_equal. f_equal; [lia|]. do 3 f_equal. lia.
Qed.

Lemma needs_functionDeclPattern : needs functionDeclPattern (js "function").
Proof.
  unfold functionDeclPattern. apply needs_seq, needs_group, needs_boundary, needs_chars_only.
Qed.

(** On a text with one function declaration and without the word [const],
    [injectFunctionCode] puts a line break, the code and a line break right
    after the opening brace of the function and leaves the rest of the text
    as it is. *)
Theorem injectFunctionCode_function_declaration
    (pre ws1 name ws2 params ws3 post injectionCode : jsstring) :
  ws1 <> [] -> forallb is_space ws1 = true ->
  name <> [] -> forallb is_word name = true ->
  forallb is_space ws2 = true -> lacks 41 params = true ->
  forallb is_space ws3 = true ->
  match list.last pre with Some b => is_word b = false | None => True end ->
  includes pre (js "function") = false ->
  includes post (js "function") = false ->
  includes (pre ++ functionDeclText ws1 name ws2 params ws3 ++ [ch_newline]
            ++ injectionCode ++ [ch_newline] ++ post) (js "const") = false ->
  injectFunctionCode (pre ++ functionDeclText ws1 name ws2 params ws3 ++ post)
    injectionCode
  = pre ++ functionDeclText ws1 name ws2 params ws3 ++ [ch_newline]
    ++ injectionCode ++ [ch_newline] ++ post.
Proof.
  intros Hne1 Hws1 Hnen Hname Hws2 Hparams Hws3 Hlast Hpre Hpost Hconst.
  unfold injectFunctionCode. cbn [fold_left].
  change (regexLiteral (js "(\bfunction\s+\w+\s*\([^)]*\)\s*\{)"))
    with functionDeclPattern.
  set (decl := functionDeclText ws1 name ws2 params ws3) in *.
  set (text := pre ++ decl ++ post).
  assert (Hdecl : exists tail, decl = 102%N :: js "unction" ++ tail).
  { subst decl. unfold functionDeclText. eexists. reflexivity. }
  destruct Hdecl as [tail Htail].
  assert (Hb : at_word_boundary text (length pre) = true).
  { unfold at_word_boundary, is_word_at. subst text.
    rewrite (lookup_app_r pre) by lia. rewrite Nat.sub_diag, Htail.
    cbn [app lookup list_lookup].
    destruct (length pre) as [|n] eqn:En; [reflexivity|].
    rewrite lookup_app_l by lia. rewrite last_lookup, En in Hlast. cbn [Nat.pred] in Hlast.
    destruct (pre !! n) as [b|]; [rewrite Hlast|]; reflexivity. }
  pose proof (m_functionDecl_hit text ws1 name ws2 params ws3 post (length pre)
                Hne1 Hws1 Hnen Hname Hws2 Hparams Hws3 Hb
                (cursor_at _ _ _ _ eq_refl eq_refl)) as Hhit.
  fold decl in Hhit.
  assert (H1 : regExpExec functionDeclPattern text 0
               = Some (RMatch (length pre)
                         (MState (length pre + length decl)
                                 [(1, (length pre, length pre + length decl))]))).
  { apply regExpExec_first; [| | exact Hhit].
    - subst text. rewrite length_app. lia.
    - intros j Hj. apply needs_functionDeclPattern. cbn [epos]. subst text.
      rewrite Htail. cbn [app].
      apply (startsWith_before pre _ (js "unction") 102); [exact Hpre | reflexivity | lia]. }
  assert (Hlen : 0 < length decl) by (rewrite Htail; cbn [length]; lia).
  rewrite (replaceAllWith_single _ _ _ _ H1).
  - cbn [index final epos]. unfold matched. cbn [index final epos].
    rewrite (substring_at text [] pre (decl ++ post) 0 (length pre));
      [|reflexivity | reflexivity | reflexivity].
    rewrite (substring_at text pre decl post (length pre) (length pre + length decl));
      [|reflexivity | reflexivity | reflexivity].
    rewrite (substring_at text (pre ++ decl) post [] (length pre + length decl)
               (length text));
      [| subst text; rewrite app_nil_r, <- app_assoc; reflexivity
       | rewrite length_app; reflexivity
       | subst text; rewrite !length_app; lia].
    rewrite <- !app_assoc. apply replaceAllWith_no_match.
    apply (regExpExec_needs _ _ (js "const")).
    + vm_compute regexLiteral. change (js "const") with [99%N; 111%N; 110%N; 115%N; 116%N].
      apply needs_seq, needs_group, needs_boundary. solve_needs.
    + exact Hconst.
  - cbn [index final epos]. lia.
  - cbn [final epos]. apply regExpExec_none. intros j Hj.
    apply needs_functionDeclPattern. cbn [epos]. subst text.
    rewrite app_assoc. apply startsWith_after; [exact Hpost|].
    rewrite length_app. lia.
Qed.

Lemma injectFunctionCode_function_declaration_witness :
  injectFunctionCode (js "x; function f (a, b) { return 1; }") (js "log();")
  = js "x; function f (a, b) {" ++ [ch_newline] ++ js "log();" ++ [ch_newline]
    ++ js " return 1; }".
Proof.
  refine (injectFunctionCode_function_declaration (js "x; ") (js " ") (js "f") (js " ")
            (js "a, b") (js " ") (js " return 1; }") (js "log();")
            _ eq_refl _ eq_refl eq_refl eq_refl eq_refl eq_refl eq_refl eq_refl eq_refl);
    discriminate.
Defined.

(** ** Totality of the mutators *)


(** *** Literal text that a match cannot do without *)















